(** * Garden planner: the persistence and state-synchronisation layer

    A shallow embedding of
      - [src/database/db.js]       (module [Db]: the SQLite tables, one function
                                    per statement, the hierarchical bulk load),
      - [src/hooks/GardenContext.js] (module [Garden]: the in-memory garden
                                    store with its optimistic dual writes),
      - the area screen's stage buttons and the form handlers that guard the
        store (module [Ui]),
      - the key-value table of [db.js] (module [Kv]) and the daily reminder
        of the settings screen that records its id there (module [Reminder]),
      - the custom-seed catalog and the form of the browse screen (module
        [Catalog]), the load at the start of the provider (module [Startup]),
      - the earlier provider that saved whole lists (module [Snapshot]),
      - what the screens display and the gestures they offer (modules
        [Display] and [Screens]),
    followed by the properties of the specification that concern them and
    by further properties of the same code: above all that every mutation
    leaves the durable store loading to the areas in memory.

    Conventions of the embedding.
      - A JS string is a Rocq [string] holding its UTF-8 bytes; [===] on
        strings is [String.eqb].
      - A value that may be [null] or [undefined] is an [option]; both absent
        values are [None].  The one place where the code tells them apart is
        a parameter with a default value ([emoji] of [createArea] and of
        [createAreaAndAddPlant]): there [None] is the omitted argument, and
        a call that passes [null] is outside the model, whose areas hold a
        text emoji.
      - An object literal used as a table answers a name in one of three
        ways ([Garden.Member]): with its own text, with a member every
        object inherits, or with nothing.
      - The SQLite tables are lists of rows in [rowid] order; a fresh row gets
        the largest rowid, so [INSERT] appends.
      - [Math.random], [Date.now] and the calendar are inputs: the store's
        world carries an id source and the two date strings. *)

From Stdlib Require Import List String Ascii ZArith Lia Bool Arith
  DecimalString.
Import ListNotations.
Local Open Scope string_scope.
Local Open Scope list_scope.

(* ================================================================= *)
(** ** JavaScript string helpers *)

Module Js.

(** The code [n] of a byte. *)
Definition code (a : ascii) : nat := nat_of_ascii a.

(** White space and line terminators of ECMAScript, by UTF-8 encoding:
    U+0009..U+000D and U+0020 are one byte; U+00A0 is C2 A0; U+1680,
    U+2000..U+200A, U+2028, U+2029, U+202F, U+205F, U+3000 and U+FEFF
    take three bytes. *)
Definition isWs1 (a : ascii) : bool :=
  (((9 <=? code a) && (code a <=? 13)) || (code a =? 32))%nat.

Definition isWs2 (a b : ascii) : bool :=
  ((code a =? 194) && (code b =? 160))%nat.

Definition isWs3 (a b c : ascii) : bool :=
  (((code a =? 225) && (code b =? 154) && (code c =? 128))
  || ((code a =? 226) && (code b =? 128)
      && (((128 <=? code c) && (code c <=? 138))
          || (code c =? 168) || (code c =? 169) || (code c =? 175)))
  || ((code a =? 226) && (code b =? 129) && (code c =? 159))
  || ((code a =? 227) && (code b =? 128) && (code c =? 128))
  || ((code a =? 239) && (code b =? 187) && (code c =? 191)))%nat.

(** Drops the white space a byte list starts with; [w2] and [w3] recognise
    the two and three byte characters in the direction of the scan. *)
Fixpoint dropWs (w2 : ascii -> ascii -> bool)
         (w3 : ascii -> ascii -> ascii -> bool)
         (s : list ascii) : list ascii :=
  match s with
  | [] => []
  | a :: r1 =>
      if isWs1 a then dropWs w2 w3 r1
      else match r1 with
           | [] => s
           | b :: r2 =>
               if w2 a b then dropWs w2 w3 r2
               else match r2 with
                    | [] => s
                    | c :: r3 => if w3 a b c then dropWs w2 w3 r3 else s
                    end
           end
  end.

Definition trimStart (s : list ascii) : list ascii := dropWs isWs2 isWs3 s.

Definition trimEnd (s : list ascii) : list ascii :=
  rev (dropWs (fun a b => isWs2 b a) (fun a b c => isWs3 c b a) (rev s)).

(** [String.prototype.trim]. *)
Definition trim (s : string) : string :=
  string_of_list_ascii (trimEnd (trimStart (list_ascii_of_string s))).

(** A string is truthy when it is not empty. *)
Definition truthy (s : string) : bool := negb (s =? EmptyString).

(** [a || b] on values that are strings or absent. *)
Definition orElse (a b : option string) : option string :=
  match a with
  | Some s => if truthy s then a else b
  | None => b
  end.

(** [a ?? b]. *)
Definition nullish {A : Type} (a : option A) (b : A) : A :=
  match a with
  | Some x => x
  | None => b
  end.

(** [Array.prototype.findIndex]: the first index whose element satisfies
    [f], or -1. *)
Fixpoint findIndexFrom {A : Type} (f : A -> bool) (l : list A) (i : Z) : Z :=
  match l with
  | [] => (-1)%Z
  | x :: r => if f x then i else findIndexFrom f r (i + 1)%Z
  end.

Definition findIndex {A : Type} (f : A -> bool) (l : list A) : Z :=
  findIndexFrom f l 0%Z.

(** [l.map((e, i) => g(e, i))]. *)
Fixpoint mapiFrom {A B : Type} (g : A -> nat -> B) (l : list A) (i : nat)
  : list B :=
  match l with
  | [] => []
  | x :: r => g x i :: mapiFrom g r (S i)
  end.

Definition mapi {A B : Type} (g : A -> nat -> B) (l : list A) : list B :=
  mapiFrom g l 0.

(** [l.filter((e, i) => f(e, i))]. *)
Fixpoint filteriFrom {A : Type} (f : A -> nat -> bool) (l : list A) (i : nat)
  : list A :=
  match l with
  | [] => []
  | x :: r =>
      if f x i then x :: filteriFrom f r (S i) else filteriFrom f r (S i)
  end.

Definition filteri {A : Type} (f : A -> nat -> bool) (l : list A) : list A :=
  filteriFrom f l 0.

(** [l.pop()]: the last element, absent on an empty array. *)
Fixpoint pop {A : Type} (l : list A) : option A :=
  match l with
  | [] => None
  | [x] => Some x
  | _ :: r => pop r
  end.

(** The names every object inherits from [Object.prototype]; what is
    found under them is a function or an object, never a text. *)
Definition inherited : list string :=
  [ "constructor"; "hasOwnProperty"; "isPrototypeOf";
    "propertyIsEnumerable"; "toLocaleString"; "toString"; "valueOf";
    "__proto__"; "__defineGetter__"; "__defineSetter__";
    "__lookupGetter__"; "__lookupSetter__" ].

Definition inherits (k : string) : bool := existsb (String.eqb k) inherited.

End Js.

(* ================================================================= *)
(** ** The in-memory domain shape *)

Record JournalEntry := mkEntry {
  entry_id   : string;
  entry_date : string;
  entry_text : string;
  entry_type : string
}.

Record Plant := mkPlant {
  plant_id           : string;
  plant_seedId       : option string;
  plant_seedTitle    : option string;
  plant_seedCategory : option string;
  plant_seedImage    : option string;
  plant_plantedDate  : string;
  plant_stage        : option string;
  plant_journal      : list JournalEntry
}.

Record Area := mkArea {
  area_id        : string;
  area_name      : string;
  area_emoji     : string;
  area_createdAt : string;
  area_plants    : list Plant
}.

(** What the store reads of a catalog item ([crops.json] entries carry
    [name], custom seeds carry [title]). *)
Record CatalogItem := mkItem {
  item_id        : option string;
  item_title     : option string;
  item_name      : option string;
  item_category  : option string;
  item_image_url : option string
}.

Record CustomSeed := mkSeed {
  seed_id                      : string;
  seed_title                   : string;
  seed_category                : option string;
  seed_scientific_name         : option string;
  seed_description             : option string;
  seed_image_url               : option string;
  seed_url                     : option string;
  seed_isCustom                : bool;
  seed_planting_seasons        : option (list string);
  seed_best_months             : option string;
  seed_sun_requirements        : option string;
  seed_watering                : option string;
  seed_frost_tolerance         : option string;
  seed_difficulty              : option string;
  seed_plant_life              : option string;
  seed_suitable_for_containers : bool;
  seed_requires_trellis        : bool;
  seed_days_to_germination     : option string;
  seed_days_to_harvest         : option string;
  seed_sowing_depth            : option string;
  seed_spacing                 : option string;
  seed_companion_plants        : option string;
  seed_plant_height            : option string;
  seed_drought_tolerant        : bool
}.

Definition isStage (e : JournalEntry) : bool := entry_type e =? "stage".
Definition isNote (e : JournalEntry) : bool := entry_type e =? "note".

(* ================================================================= *)
(** ** JSON text of an array of strings

    [planting_seasons] is stored as [JSON.stringify(array)] and read back
    with [JSON.parse].  [stringify] is the serialisation of an array of
    strings; [parse] accepts the JSON texts that denote an array of strings
    (white space between tokens, every escape of the grammar) and is [None]
    where [JSON.parse] throws or yields another kind of value.  An escaped
    surrogate, alone or in a pair, is not read and is [None] as well.
    [throws] recognises texts on which [JSON.parse] is sure to throw. *)

Module Json.

Definition quote : ascii := ascii_of_nat 34.
Definition backslash : ascii := ascii_of_nat 92.

Definition hexDigit (n : nat) : ascii :=
  if (n <? 10)%nat then ascii_of_nat (48 + n) else ascii_of_nat (87 + n).

(** [QuoteJSONString] on one byte of a well-formed string. *)
Definition escapeChar (c : ascii) : list ascii :=
  let n := Js.code c in
  if (n =? 34)%nat then [backslash; quote]
  else if (n =? 92)%nat then [backslash; backslash]
  else if (n =? 8)%nat then [backslash; "b"%char]
  else if (n =? 9)%nat then [backslash; "t"%char]
  else if (n =? 10)%nat then [backslash; "n"%char]
  else if (n =? 12)%nat then [backslash; "f"%char]
  else if (n =? 13)%nat then [backslash; "r"%char]
  else if (n <? 32)%nat then
    [backslash; "u"%char; "0"%char; "0"%char;
     hexDigit (n / 16); hexDigit (n mod 16)]
  else [c].

Definition quoteString (s : string) : list ascii :=
  quote :: flat_map escapeChar (list_ascii_of_string s) ++ [quote].

Fixpoint joinComma (l : list (list ascii)) : list ascii :=
  match l with
  | [] => []
  | [x] => x
  | x :: r => x ++ ","%char :: joinComma r
  end.

(** [JSON.stringify] of an array of strings. *)
Definition stringify (arr : list string) : string :=
  string_of_list_ascii
    ("["%char :: joinComma (map quoteString arr) ++ ["]"%char]).

(** The reader: one state per position in the grammar of an array of
    strings; finished elements and the bytes of the current string are
    kept newest first. *)
Inductive PState :=
| AtStart
| AfterOpen
| InString (done : list string) (acc : list ascii)
| InEscape (done : list string) (acc : list ascii)
| InUnicode (done : list string) (acc : list ascii) (todo : nat) (v : N)
| AfterValue (done : list string)
| AfterComma (done : list string)
| AtEnd (done : list string).

Definition isJsonWs (c : ascii) : bool :=
  let n := Js.code c in
  ((n =? 32) || (n =? 9) || (n =? 10) || (n =? 13))%nat.

Definition hexVal (c : ascii) : option N :=
  let n := Js.code c in
  if ((48 <=? n) && (n <=? 57))%nat then Some (N.of_nat (n - 48))
  else if ((97 <=? n) && (n <=? 102))%nat then Some (N.of_nat (n - 87))
  else if ((65 <=? n) && (n <=? 70))%nat then Some (N.of_nat (n - 55))
  else None.

(** The UTF-8 bytes of a code unit met in a [\u] escape, newest first. *)
Definition utf8Rev (v : N) : option (list ascii) :=
  (if v <? 128 then Some [ascii_of_N v]
   else if v <? 2048 then
     Some [ascii_of_N (128 + v mod 64); ascii_of_N (192 + v / 64)]
   else if (55296 <=? v) && (v <? 57344) then None
   else Some [ascii_of_N (128 + v mod 64);
              ascii_of_N (128 + (v / 64) mod 64);
              ascii_of_N (224 + v / 4096)])%N.

Definition finishString (done : list string) (acc : list ascii) : PState :=
  AfterValue (string_of_list_ascii (rev acc) :: done).

Definition step (st : PState) (c : ascii) : option PState :=
  match st with
  | AtStart =>
      if isJsonWs c then Some AtStart
      else if (Js.code c =? 91)%nat then Some AfterOpen else None
  | AfterOpen =>
      if isJsonWs c then Some AfterOpen
      else if (Js.code c =? 93)%nat then Some (AtEnd [])
      else if (Js.code c =? 34)%nat then Some (InString [] [])
      else None
  | InString done acc =>
      if (Js.code c =? 34)%nat then Some (finishString done acc)
      else if (Js.code c =? 92)%nat then Some (InEscape done acc)
      else if (Js.code c <? 32)%nat then None
      else Some (InString done (c :: acc))
  | InEscape done acc =>
      let n := Js.code c in
      if ((n =? 34) || (n =? 92) || (n =? 47))%nat
      then Some (InString done (c :: acc))
      else if (n =? 98)%nat then Some (InString done (ascii_of_nat 8 :: acc))
      else if (n =? 102)%nat then Some (InString done (ascii_of_nat 12 :: acc))
      else if (n =? 110)%nat then Some (InString done (ascii_of_nat 10 :: acc))
      else if (n =? 114)%nat then Some (InString done (ascii_of_nat 13 :: acc))
      else if (n =? 116)%nat then Some (InString done (ascii_of_nat 9 :: acc))
      else if (n =? 117)%nat then Some (InUnicode done acc 4 0%N)
      else None
  | InUnicode done acc todo v =>
      match hexVal c, todo with
      | Some d, 1%nat =>
          match utf8Rev (16 * v + d)%N with
          | Some bytes => Some (InString done (bytes ++ acc))
          | None => None
          end
      | Some d, S k => Some (InUnicode done acc k (16 * v + d)%N)
      | _, _ => None
      end
  | AfterValue done =>
      if isJsonWs c then Some (AfterValue done)
      else if (Js.code c =? 44)%nat then Some (AfterComma done)
      else if (Js.code c =? 93)%nat then Some (AtEnd done)
      else None
  | AfterComma done =>
      if isJsonWs c then Some (AfterComma done)
      else if (Js.code c =? 34)%nat then Some (InString done [])
      else None
  | AtEnd done => if isJsonWs c then Some (AtEnd done) else None
  end.

Fixpoint run (st : PState) (input : list ascii) : option PState :=
  match input with
  | [] => Some st
  | c :: rest =>
      match step st c with
      | Some st' => run st' rest
      | None => None
      end
  end.

(** The reader of the JSON text of an array of strings: [Some arr] when
    [JSON.parse] returns the array [arr] of strings.  [None] says only that
    this reader does not read the text: [JSON.parse] may throw, or return
    something that is no array of strings ([null], a number, an object, an
    array of numbers), or return strings that have no UTF-8 bytes (escaped
    surrogates). *)
Definition parse (text : string) : option (list string) :=
  match run AtStart (list_ascii_of_string text) with
  | Some (AtEnd done) => Some (rev done)
  | _ => None
  end.

(** The first byte that is not JSON white space. *)
Fixpoint firstToken (input : list ascii) : option ascii :=
  match input with
  | [] => None
  | c :: rest => if isJsonWs c then firstToken rest else Some c
  end.

(** The bytes a JSON value can start with: the bracket, the brace, the
    quote, the minus sign, a digit, and [t], [f], [n]. *)
Definition startsValue (c : ascii) : bool :=
  let n := Js.code c in
  ((n =? 91) || (n =? 123) || (n =? 34) || (n =? 45)
   || ((48 <=? n) && (n <=? 57))
   || (n =? 116) || (n =? 102) || (n =? 110))%nat.

(** Texts on which [JSON.parse] is sure to throw: nothing but white space,
    or a first token no JSON value starts with.  Other malformed texts are
    not recognised here. *)
Definition throws (text : string) : bool :=
  match firstToken (list_ascii_of_string text) with
  | None => true
  | Some c => negb (startsValue c)
  end.

End Json.

(* ================================================================= *)
(** ** The durable store and the data access functions ([db.js])

    The connection of [initDatabase] has [PRAGMA foreign_keys = ON]; the
    schema gives every table a [TEXT PRIMARY KEY NOT NULL] id, the child
    tables a reference [ON DELETE CASCADE], and the columns below their
    [NOT NULL].  A column that is [NOT NULL] is a [string] in its row type; a
    nullable one is an [option string].  What a function binds to a [?] is an
    [option string]: [None] is bound as SQL [NULL]. *)

Module Db.

Definition SqlValue := option string.

Inductive SqlError :=
| NotNullViolation
| PrimaryKeyViolation
| ForeignKeyViolation
| IoFailure.

(** A promise that resolves with [a] or rejects with [e]. *)
Inductive Result (A : Type) :=
| Ok (a : A)
| Err (e : SqlError).
Arguments Ok {A} a.
Arguments Err {A} e.

Record AreaRow := mkAreaRow {
  ar_id         : string;
  ar_name       : string;
  ar_emoji      : string;
  ar_created_at : string
}.

Record PlantRow := mkPlantRow {
  pr_id            : string;
  pr_area_id       : string;
  pr_seed_id       : option string;
  pr_seed_title    : option string;
  pr_seed_category : option string;
  pr_seed_image    : option string;
  pr_planted_date  : string;
  pr_stage         : option string
}.

Record JournalRow := mkJournalRow {
  jr_id       : string;
  jr_plant_id : string;
  jr_date     : string;
  jr_text     : string;
  jr_type     : string
}.

Record CustomSeedRow := mkCustomSeedRow {
  cr_id                      : string;
  cr_title                   : string;
  cr_category                : string;
  cr_scientific_name         : option string;
  cr_description             : option string;
  cr_image_url               : option string;
  cr_planting_seasons        : option string;
  cr_best_months             : option string;
  cr_sun_requirements        : option string;
  cr_watering                : option string;
  cr_frost_tolerance         : option string;
  cr_difficulty              : option string;
  cr_plant_life              : option string;
  cr_suitable_for_containers : Z;
  cr_requires_trellis        : Z;
  cr_days_to_germination     : option string;
  cr_days_to_harvest         : option string;
  cr_sowing_depth            : option string;
  cr_spacing                 : option string;
  cr_companion_plants        : option string;
  cr_plant_height            : option string;
  cr_drought_tolerant        : Z;
  cr_is_custom               : Z
}.

(** The five tables, each in rowid order. *)
Record Database := mkDatabase {
  areas           : list AreaRow;
  plants          : list PlantRow;
  journal_entries : list JournalRow;
  custom_seeds    : list CustomSeedRow;
  kv_store        : list (string * option string)
}.

Definition emptyDatabase : Database := mkDatabase [] [] [] [] [].

Definition withAreas (db : Database) (t : list AreaRow) : Database :=
  mkDatabase t (plants db) (journal_entries db) (custom_seeds db) (kv_store db).

Definition withPlants (db : Database) (t : list PlantRow) : Database :=
  mkDatabase (areas db) t (journal_entries db) (custom_seeds db) (kv_store db).

Definition withJournal (db : Database) (t : list JournalRow) : Database :=
  mkDatabase (areas db) (plants db) t (custom_seeds db) (kv_store db).

Definition withCustomSeeds (db : Database) (t : list CustomSeedRow)
  : Database :=
  mkDatabase (areas db) (plants db) (journal_entries db) t (kv_store db).

Definition hasArea (i : string) (db : Database) : bool :=
  existsb (fun r => ar_id r =? i) (areas db).

Definition hasPlant (i : string) (db : Database) : bool :=
  existsb (fun r => pr_id r =? i) (plants db).

Definition hasEntry (i : string) (db : Database) : bool :=
  existsb (fun r => jr_id r =? i) (journal_entries db).

Definition hasSeed (i : string) (db : Database) : bool :=
  existsb (fun r => cr_id r =? i) (custom_seeds db).

(** *** Areas *)

(** [INSERT INTO areas (id, name, emoji, created_at) VALUES (?, ?, ?, ?)] *)
Definition insertArea (id name emoji createdAt : SqlValue) (db : Database)
  : Result Database :=
  match id, name, emoji, createdAt with
  | Some i, Some n, Some e, Some c =>
      if hasArea i db then Err PrimaryKeyViolation
      else Ok (withAreas db (areas db ++ [mkAreaRow i n e c]))
  | _, _, _, _ => Err NotNullViolation
  end.

(** [UPDATE areas SET name = ?, emoji = ? WHERE id = ?]: the constraints
    are checked on the rows the statement changes. *)
Definition updateArea (id name emoji : SqlValue) (db : Database)
  : Result Database :=
  match id with
  | None => Ok db
  | Some i =>
      if hasArea i db then
        match name, emoji with
        | Some n, Some e =>
            Ok (withAreas db
                  (map (fun r => if ar_id r =? i
                                 then mkAreaRow (ar_id r) n e (ar_created_at r)
                                 else r)
                       (areas db)))
        | _, _ => Err NotNullViolation
        end
      else Ok db
  end.

(** The plant rows that reference one of the area rows [gone]. *)
Definition plantsOf (gone : list AreaRow) (t : list PlantRow)
  : list PlantRow :=
  filter (fun p => existsb (fun a => ar_id a =? pr_area_id p) gone) t.

(** [DELETE FROM plants] of the rows [gone], with the cascade to their
    journal entries. *)
Definition dropPlants (gone : list PlantRow) (db : Database) : Database :=
  withJournal
    (withPlants db
       (filter (fun p => negb (existsb (fun g => pr_id g =? pr_id p) gone))
               (plants db)))
    (filter (fun e => negb (existsb (fun g => pr_id g =? jr_plant_id e) gone))
            (journal_entries db)).

(** [DELETE FROM areas WHERE id = ?], with the cascade to the plants of
    the deleted rows and on to their journal entries. *)
Definition deleteArea (id : SqlValue) (db : Database) : Result Database :=
  match id with
  | None => Ok db
  | Some i =>
      let gone := filter (fun r => ar_id r =? i) (areas db) in
      Ok (withAreas (dropPlants (plantsOf gone (plants db)) db)
            (filter (fun r => negb (ar_id r =? i)) (areas db)))
  end.

(** *** Plants *)

(** [INSERT INTO plants (...) VALUES (?, ?, ?, ?, ?, ?, ?, ?)] *)
Definition insertPlant
           (id areaId seedId seedTitle seedCategory seedImage plantedDate
               stage : SqlValue) (db : Database) : Result Database :=
  match id, areaId, plantedDate with
  | Some i, Some a, Some d =>
      if hasPlant i db then Err PrimaryKeyViolation
      else if negb (hasArea a db) then Err ForeignKeyViolation
      else Ok (withPlants db
                 (plants db ++
                    [mkPlantRow i a seedId seedTitle seedCategory seedImage
                                d stage]))
  | _, _, _ => Err NotNullViolation
  end.

(** [UPDATE plants SET stage = ? WHERE id = ?] *)
Definition updatePlantStage (plantId stage : SqlValue) (db : Database)
  : Result Database :=
  match plantId with
  | None => Ok db
  | Some i =>
      Ok (withPlants db
            (map (fun r => if pr_id r =? i
                           then mkPlantRow (pr_id r) (pr_area_id r)
                                  (pr_seed_id r) (pr_seed_title r)
                                  (pr_seed_category r) (pr_seed_image r)
                                  (pr_planted_date r) stage
                           else r)
                 (plants db)))
  end.

(** [DELETE FROM plants WHERE id = ?], with the cascade. *)
Definition deletePlant (id : SqlValue) (db : Database) : Result Database :=
  match id with
  | None => Ok db
  | Some i => Ok (dropPlants (filter (fun r => pr_id r =? i) (plants db)) db)
  end.

(** *** Journal entries *)

(** [INSERT INTO journal_entries (id, plant_id, date, text, type)
    VALUES (?, ?, ?, ?, ?)] *)
Definition insertJournalEntry (id plantId date text type : SqlValue)
           (db : Database) : Result Database :=
  match id, plantId, date, text, type with
  | Some i, Some p, Some d, Some t, Some ty =>
      if hasEntry i db then Err PrimaryKeyViolation
      else if negb (hasPlant p db) then Err ForeignKeyViolation
      else Ok (withJournal db
                 (journal_entries db ++ [mkJournalRow i p d t ty]))
  | _, _, _, _, _ => Err NotNullViolation
  end.

(** [DELETE FROM journal_entries WHERE id = ?] *)
Definition deleteJournalEntry (id : SqlValue) (db : Database)
  : Result Database :=
  match id with
  | None => Ok db
  | Some i =>
      Ok (withJournal db
            (filter (fun r => negb (jr_id r =? i)) (journal_entries db)))
  end.

(** [SELECT id FROM journal_entries WHERE plant_id = ? AND type = 'stage'
    ORDER BY rowid DESC LIMIT 1] *)
Definition lastStageEntryId (plantId : SqlValue) (db : Database)
  : option string :=
  match plantId with
  | None => None
  | Some p =>
      option_map jr_id
        (Js.pop (filter (fun r => (jr_plant_id r =? p)
                                  && (jr_type r =? "stage"))
                        (journal_entries db)))
  end.

(** [DELETE FROM journal_entries WHERE id = (SELECT ...)]: no row equals
    an empty subquery. *)
Definition deleteLastStageEntry (plantId : SqlValue) (db : Database)
  : Result Database :=
  match lastStageEntryId plantId db with
  | None => Ok db
  | Some i =>
      Ok (withJournal db
            (filter (fun r => negb (jr_id r =? i)) (journal_entries db)))
  end.

(** *** The hierarchical load *)

Definition entryOfRow (e : JournalRow) : JournalEntry :=
  mkEntry (jr_id e) (jr_date e) (jr_text e) (jr_type e).

(** [SELECT * FROM journal_entries WHERE plant_id = ? ORDER BY rowid ASC] *)
Definition journalRowsOf (plantId : string) (db : Database)
  : list JournalRow :=
  filter (fun e => jr_plant_id e =? plantId) (journal_entries db).

(** [SELECT * FROM plants WHERE area_id = ? ORDER BY rowid ASC] *)
Definition plantRowsOf (areaId : string) (db : Database) : list PlantRow :=
  filter (fun p => pr_area_id p =? areaId) (plants db).

Definition plantOfRow (db : Database) (p : PlantRow) : Plant :=
  mkPlant (pr_id p) (pr_seed_id p) (pr_seed_title p) (pr_seed_category p)
          (pr_seed_image p) (pr_planted_date p) (pr_stage p)
          (map entryOfRow (journalRowsOf (pr_id p) db)).

Definition areaOfRow (db : Database) (a : AreaRow) : Area :=
  mkArea (ar_id a) (ar_name a) (ar_emoji a) (ar_created_at a)
         (map (plantOfRow db) (plantRowsOf (ar_id a) db)).

(** [loadAllAreas]: areas, then the plants of each, then the journal of
    each plant, all in rowid order. *)
Definition loadAllAreas (db : Database) : list Area :=
  map (areaOfRow db) (areas db).

(** *** Custom seeds *)

Definition ofBool (b : bool) : Z := if b then 1%Z else 0%Z.

(** [insertCustomSeed]: the array becomes JSON text, the flags 0 or 1,
    [is_custom] is always 1. *)
Definition insertCustomSeed (seed : CustomSeed) (db : Database)
  : Result Database :=
  if hasSeed (seed_id seed) db then Err PrimaryKeyViolation
  else
    Ok (withCustomSeeds db
          (custom_seeds db ++
             [mkCustomSeedRow
                (seed_id seed)
                (seed_title seed)
                (Js.nullish (seed_category seed) "Vegetable")
                (seed_scientific_name seed)
                (seed_description seed)
                (seed_image_url seed)
                (option_map Json.stringify (seed_planting_seasons seed))
                (seed_best_months seed)
                (seed_sun_requirements seed)
                (seed_watering seed)
                (seed_frost_tolerance seed)
                (seed_difficulty seed)
                (seed_plant_life seed)
                (ofBool (seed_suitable_for_containers seed))
                (ofBool (seed_requires_trellis seed))
                (seed_days_to_germination seed)
                (seed_days_to_harvest seed)
                (seed_sowing_depth seed)
                (seed_spacing seed)
                (seed_companion_plants seed)
                (seed_plant_height seed)
                (ofBool (seed_drought_tolerant seed))
                1%Z])).

(** [row.planting_seasons ? JSON.parse(row.planting_seasons) : []], where
    the result is an array of strings; [None] where [Json.parse] does not
    read the text, be it that [JSON.parse] throws or that it returns
    something else. *)
Definition seasonsOfColumn (c : option string) : option (list string) :=
  match c with
  | Some t => if Js.truthy t then Json.parse t else Some []
  | None => Some []
  end.

(** The columns on which that expression is sure to throw. *)
Definition seasonsThrow (c : option string) : bool :=
  match c with
  | Some t => Js.truthy t && Json.throws t
  | None => false
  end.

Definition seedOfRow (row : CustomSeedRow) : option CustomSeed :=
  match seasonsOfColumn (cr_planting_seasons row) with
  | None => None
  | Some seasons =>
      Some (mkSeed
              (cr_id row)
              (cr_title row)
              (Some (cr_category row))
              (cr_scientific_name row)
              (cr_description row)
              (cr_image_url row)
              None
              (cr_is_custom row =? 1)%Z
              (Some seasons)
              (cr_best_months row)
              (cr_sun_requirements row)
              (cr_watering row)
              (cr_frost_tolerance row)
              (cr_difficulty row)
              (cr_plant_life row)
              (cr_suitable_for_containers row =? 1)%Z
              (cr_requires_trellis row =? 1)%Z
              (cr_days_to_germination row)
              (cr_days_to_harvest row)
              (cr_sowing_depth row)
              (cr_spacing row)
              (cr_companion_plants row)
              (cr_plant_height row)
              (cr_drought_tolerant row =? 1)%Z)
  end.

(** [rows.map(...)] with a callback that has no result on some rows. *)
Fixpoint mapThrowing {A B : Type} (f : A -> option B) (l : list A)
  : option (list B) :=
  match l with
  | [] => Some []
  | x :: r =>
      match f x with
      | None => None
      | Some y =>
          match mapThrowing f r with
          | None => None
          | Some ys => Some (y :: ys)
          end
      end
  end.

(** [loadAllCustomSeeds], in rowid order: [Some] with the seeds it
    resolves to when every row is read; [None] when a row is not read,
    where the call rejects ([loadRejects]) or resolves to seeds that the
    model has no value for. *)
Definition loadAllCustomSeeds (db : Database) : option (list CustomSeed) :=
  mapThrowing seedOfRow (custom_seeds db).

(** [loadAllCustomSeeds] is sure to reject: the callback of [rows.map]
    throws on some row. *)
Definition loadRejects (db : Database) : bool :=
  existsb (fun row => seasonsThrow (cr_planting_seasons row))
          (custom_seeds db).

End Db.

(* ================================================================= *)
(** ** Persistence work as the store dispatches it *)

Module Persist.
Import Db.

(** A call of one exported function of [db.js] with its arguments. *)
Inductive DbCall :=
| InsertArea (id name emoji createdAt : SqlValue)
| UpdateArea (id name emoji : SqlValue)
| DeleteArea (id : SqlValue)
| InsertPlant (id areaId seedId seedTitle seedCategory seedImage
                  plantedDate stage : SqlValue)
| UpdatePlantStage (plantId stage : SqlValue)
| DeletePlant (id : SqlValue)
| InsertJournalEntry (id plantId date text type : SqlValue)
| DeleteJournalEntry (id : SqlValue)
| DeleteLastStageEntry (plantId : SqlValue).

Definition runCall (c : DbCall) (db : Database) : Result Database :=
  match c with
  | InsertArea i n e c => insertArea i n e c db
  | UpdateArea i n e => updateArea i n e db
  | DeleteArea i => deleteArea i db
  | InsertPlant i a s t c im d st => insertPlant i a s t c im d st db
  | UpdatePlantStage p st => updatePlantStage p st db
  | DeletePlant i => deletePlant i db
  | InsertJournalEntry i p d t ty => insertJournalEntry i p d t ty db
  | DeleteJournalEntry i => deleteJournalEntry i db
  | DeleteLastStageEntry p => deleteLastStageEntry p db
  end.

(** How the store hands work to the durable store; every form ends in
    [.catch(console.error)], so a rejection is logged and goes no
    further. *)
Inductive Dispatch :=
| Background (c : DbCall)
| PromiseAll (cs : list DbCall)
| InTransaction (cs : list DbCall).

(** One statement under a simulated write failure: with [fault] set the
    statement is rejected and writes nothing. *)
Definition attempt (fault : bool) (c : DbCall) (db : Database)
  : Result Database :=
  if fault then Err IoFailure else runCall c db.

(** [await] one call after the other; the first rejection ends the task
    and what was written before it stays written. *)
Fixpoint awaitEach (faults : list bool) (cs : list DbCall) (db : Database)
  : Database * option SqlError :=
  match cs with
  | [] => (db, None)
  | c :: rest =>
      match attempt (hd false faults) c db with
      | Ok db' => awaitEach (tl faults) rest db'
      | Err e => (db, Some e)
      end
  end.

(** [db.withTransactionAsync(task)]: [BEGIN], the task, [COMMIT]; a
    rejected task is answered with [ROLLBACK] and rethrown. *)
Definition withTransactionAsync
           (task : Database -> Database * option SqlError) (db : Database)
  : Database * option SqlError :=
  match task db with
  | (db', None) => (db', None)
  | (_, Some e) => (db, Some e)
  end.

(** Calls started side by side, each its own statement: a rejected one
    writes nothing and does not stop the others. *)
Fixpoint settleEach (faults : list bool) (cs : list DbCall) (db : Database)
  : Database :=
  match cs with
  | [] => db
  | c :: rest =>
      match attempt (hd false faults) c db with
      | Ok db' => settleEach (tl faults) rest db'
      | Err _ => settleEach (tl faults) rest db
      end
  end.

(** The durable store once a dispatch has settled; [faults] holds one
    flag per statement of the dispatch. *)
Definition perform (faults : list bool) (d : Dispatch) (db : Database)
  : Database :=
  match d with
  | Background c => settleEach faults [c] db
  | PromiseAll cs => settleEach faults cs db
  | InTransaction cs => fst (withTransactionAsync (awaitEach faults cs) db)
  end.

(** A whole outbox settled in order, without write failures. *)
Definition flush (ds : list Dispatch) (db : Database) : Database :=
  fold_left (fun acc d => perform [] d acc) ds db.

End Persist.

(* ================================================================= *)
(** ** The garden store ([GardenContext.js]) *)

Module Garden.
Import Persist.

(** What a mutation can read and change: the [areas] state cell, the log
    of the states [setAreas] installed, the persistence work dispatched so
    far, the source of [makeId] and the calendar. *)
Record World := mkWorld {
  areas       : list Area;
  transitions : list (list Area);
  outbox      : list Dispatch;
  idSource    : nat -> string;
  idsTaken    : nat;
  clockToday  : string;
  clockIso    : string
}.

Definition Op (A : Type) : Type := World -> A * World.

Definition ret {A : Type} (a : A) : Op A := fun w => (a, w).

Definition bind {A B : Type} (m : Op A) (k : A -> Op B) : Op B :=
  fun w => let (a, w') := m w in k a w'.

Notation "x <- m ;; k" := (bind m (fun x => k))
  (at level 61, m at next level, right associativity).
Notation "m ;;; k" := (bind m (fun _ => k))
  (at level 61, right associativity).

Definition exec {A : Type} (m : Op A) (w : World) : World := snd (m w).
Definition result {A : Type} (m : Op A) (w : World) : A := fst (m w).

(** [makeId()]: random digits and the clock, here the next string of the
    id source. *)
Definition makeId : Op string :=
  fun w => (idSource w (idsTaken w),
            mkWorld (areas w) (transitions w) (outbox w) (idSource w)
                    (S (idsTaken w)) (clockToday w) (clockIso w)).

(** [today()]: the display date of the [en-AU] locale. *)
Definition today : Op string := fun w => (clockToday w, w).

(** [new Date().toISOString().slice(0, 10)] *)
Definition isoDate : Op string := fun w => (clockIso w, w).

(** [setAreas((prev) => f(prev))]: one state transition. *)
Definition setAreas (f : list Area -> list Area) : Op unit :=
  fun w => (tt,
            mkWorld (f (areas w)) (transitions w ++ [f (areas w)])
                    (outbox w) (idSource w) (idsTaken w) (clockToday w)
                    (clockIso w)).

Definition dispatch (d : Dispatch) : Op unit :=
  fun w => (tt,
            mkWorld (areas w) (transitions w) (outbox w ++ [d])
                    (idSource w) (idsTaken w) (clockToday w) (clockIso w)).

(** Human-readable labels for each stage. *)
Definition STAGE_LABELS : list (string * string) :=
  [ ("planted",    "🌰 Marked as Planted");
    ("sprouted",   "🌱 Marked as Sprouted");
    ("growing",    "🌿 Marked as Growing");
    ("harvesting", "🥬 Marked as Harvesting");
    ("done",       "✅ Marked as Done") ].

(** The own properties of an object literal, by name. *)
Fixpoint lookup (k : string) (table : list (string * string))
  : option string :=
  match table with
  | [] => None
  | (k', v) :: rest => if k' =? k then Some v else lookup k rest
  end.

(** What [table[k]] finds on an object literal whose own properties hold
    texts: an own property comes first, then what every object inherits,
    then nothing ([undefined]). *)
Inductive Member :=
| Own (v : string)
| Inherited
| Missing.

Definition member (k : string) (table : list (string * string)) : Member :=
  match lookup k table with
  | Some v => Own v
  | None => if Js.inherits k then Inherited else Missing
  end.

(** [STAGE_LABELS[stage] || stage]: a text, or [None] when it is an
    inherited member, which is truthy and no text. *)
Definition stageText (stage : string) : option string :=
  match member stage STAGE_LABELS with
  | Own v => Some (if Js.truthy v then v else stage)
  | Inherited => None
  | Missing => Some stage
  end.

(** [prev.map((a) => a.id === areaId ? g(a) : a)] *)
Definition onArea (areaId : string) (g : Area -> Area) (prev : list Area)
  : list Area :=
  map (fun a => if area_id a =? areaId then g a else a) prev.

(** [{ ...a, plants }] *)
Definition withPlants (a : Area) (ps : list Plant) : Area :=
  mkArea (area_id a) (area_name a) (area_emoji a) (area_createdAt a) ps.

(** [{ ...p, journal }] *)
Definition withJournal (p : Plant) (j : list JournalEntry) : Plant :=
  mkPlant (plant_id p) (plant_seedId p) (plant_seedTitle p)
          (plant_seedCategory p) (plant_seedImage p) (plant_plantedDate p)
          (plant_stage p) j.

(** [{ ...p, stage, journal }] *)
Definition withStageJournal (p : Plant) (stage : option string)
           (j : list JournalEntry) : Plant :=
  mkPlant (plant_id p) (plant_seedId p) (plant_seedTitle p)
          (plant_seedCategory p) (plant_seedImage p) (plant_plantedDate p)
          stage j.

(** [prev.map((a) => a.id === areaId
      ? { ...a, plants: a.plants.map((p) => p.id === plantId ? f(p) : p) }
      : a)] *)
Definition onPlant (areaId plantId : string) (f : Plant -> Plant)
           (prev : list Area) : list Area :=
  onArea areaId
    (fun a => withPlants a
                (map (fun p => if plant_id p =? plantId then f p else p)
                     (area_plants a)))
    prev.

(** *** Area operations *)

(** [createArea(name, emoji = '🪴')]; [emoji] is [None] when the argument
    is omitted, which is when the default applies.  A call that passes
    [null] is outside the model: the code keeps [null] as the emoji. *)
Definition createArea (name : string) (emoji : option string) : Op Area :=
  id <- makeId ;;
  createdAt <- isoDate ;;
  let area := mkArea id (Js.trim name) (Js.nullish emoji "🪴") createdAt [] in
  setAreas (fun prev => prev ++ [area]) ;;;
  dispatch (Background
              (InsertArea (Some (area_id area)) (Some (area_name area))
                          (Some (area_emoji area))
                          (Some (area_createdAt area)))) ;;;
  ret area.

(** [renameArea(areaId, newName, newEmoji)]; an omitted [newEmoji] is
    [None]. *)
Definition renameArea (areaId newName : string) (newEmoji : option string)
  : Op unit :=
  setAreas
    (onArea areaId
       (fun a => mkArea (area_id a) (Js.trim newName)
                        (Js.nullish newEmoji (area_emoji a))
                        (area_createdAt a) (area_plants a))) ;;;
  dispatch (Background
              (UpdateArea (Some areaId) (Some (Js.trim newName)) newEmoji)).

Definition deleteArea (areaId : string) : Op unit :=
  setAreas (filter (fun a => negb (area_id a =? areaId))) ;;;
  dispatch (Background (DeleteArea (Some areaId))).

(** *** Plant operations *)

(** The plant record built from a catalog item. *)
Definition plantOfSeed (id : string) (seed : CatalogItem)
           (plantedDate : string) : Plant :=
  mkPlant id (item_id seed)
          (Js.orElse (item_title seed) (item_name seed))
          (item_category seed) (item_image_url seed) plantedDate None [].

Definition insertPlantOf (areaId : string) (p : Plant) : DbCall :=
  InsertPlant (Some (plant_id p)) (Some areaId) (plant_seedId p)
              (plant_seedTitle p) (plant_seedCategory p) (plant_seedImage p)
              (Some (plant_plantedDate p)) (plant_stage p).

Definition addPlantToArea (areaId : string) (seed : CatalogItem)
  : Op Plant :=
  id <- makeId ;;
  plantedDate <- isoDate ;;
  let plantRecord := plantOfSeed id seed plantedDate in
  setAreas
    (onArea areaId
       (fun a => withPlants a (area_plants a ++ [plantRecord]))) ;;;
  dispatch (Background (insertPlantOf areaId plantRecord)) ;;;
  ret plantRecord.

(** Creates an area and adds a plant in one step: one [setAreas], and both
    inserts inside [withTransactionAsync].  As for [createArea], [emoji] is
    [None] when the argument is omitted; a call that passes [null] is
    outside the model. *)
Definition createAreaAndAddPlant (name : string) (emoji : option string)
           (seed : CatalogItem) : Op Area :=
  areaId <- makeId ;;
  createdAt <- isoDate ;;
  let area := mkArea areaId (Js.trim name) (Js.nullish emoji "🪴")
                     createdAt [] in
  plantId <- makeId ;;
  plantedDate <- isoDate ;;
  let plantRecord := plantOfSeed plantId seed plantedDate in
  setAreas (fun prev => prev ++ [withPlants area [plantRecord]]) ;;;
  dispatch (InTransaction
              [ InsertArea (Some (area_id area)) (Some (area_name area))
                           (Some (area_emoji area))
                           (Some (area_createdAt area));
                insertPlantOf (area_id area) plantRecord ]) ;;;
  ret area.

(** The entry [updatePlantStage] writes.  For a stage named like a member
    every object inherits the text of the code is that member and no text:
    a journal of this model cannot hold it and has the stage name in its
    place, and the statements about the text and about what is stored
    leave those names out ([Js.inherits stage = false]). *)
Definition stageEntry (id date stage : string) : JournalEntry :=
  mkEntry id date (Js.nullish (stageText stage) stage) "stage".

Definition insertEntryOf (plantId : string) (e : JournalEntry) : DbCall :=
  InsertJournalEntry (Some (entry_id e)) (Some plantId)
                     (Some (entry_date e)) (Some (entry_text e))
                     (Some (entry_type e)).

Definition updatePlantStage (areaId plantId stage : string) : Op unit :=
  id <- makeId ;;
  date <- today ;;
  let entry := stageEntry id date stage in
  setAreas
    (onPlant areaId plantId
       (fun p => withStageJournal p (Some stage)
                   (plant_journal p ++ [entry]))) ;;;
  dispatch (PromiseAll
              [ UpdatePlantStage (Some plantId) (Some stage);
                insertEntryOf plantId entry ]).

(** The journal without its most recent stage entry:
    [[...journal].map((e, i) => ({ e, i }))
       .filter(({ e }) => e.type === 'stage').pop()?.i], then
    [journal.filter((_, i) => i !== lastStageIndex)] when there is one. *)
Definition lastStageIndex (journal : list JournalEntry) : option nat :=
  option_map snd
    (Js.pop (filter (fun ei => isStage (fst ei))
                    (Js.mapi (fun e i => (e, i)) journal))).

Definition trimmedJournal (journal : list JournalEntry)
  : list JournalEntry :=
  match lastStageIndex journal with
  | Some k => Js.filteri (fun _ i => negb (i =? k)%nat) journal
  | None => journal
  end.

Definition rollbackPlantStage (areaId plantId : string)
           (stage : option string) : Op unit :=
  setAreas
    (onPlant areaId plantId
       (fun p => withStageJournal p stage
                   (trimmedJournal (plant_journal p)))) ;;;
  dispatch (PromiseAll
              [ UpdatePlantStage (Some plantId) stage;
                DeleteLastStageEntry (Some plantId) ]).

(** The entry [addJournalEntry] writes. *)
Definition noteEntry (id date text : string) : JournalEntry :=
  mkEntry id date (Js.trim text) "note".

Definition addJournalEntry (areaId plantId text : string) : Op unit :=
  id <- makeId ;;
  date <- today ;;
  let entry := noteEntry id date text in
  setAreas
    (onPlant areaId plantId
       (fun p => withJournal p (plant_journal p ++ [entry]))) ;;;
  dispatch (Background (insertEntryOf plantId entry)).

Definition removeJournalEntry (areaId plantId entryId : string) : Op unit :=
  setAreas
    (onPlant areaId plantId
       (fun p => withJournal p
                   (filter (fun e => negb (entry_id e =? entryId))
                           (plant_journal p)))) ;;;
  dispatch (Background (DeleteJournalEntry (Some entryId))).

Definition removePlantFromArea (areaId plantId : string) : Op unit :=
  setAreas
    (onArea areaId
       (fun a => withPlants a
                   (filter (fun p => negb (plant_id p =? plantId))
                           (area_plants a)))) ;;;
  dispatch (Background (DeletePlant (Some plantId))).

(** A plant typed by hand: no catalog entry, category [Other] unless one
    is given. *)
Definition addCustomPlantToArea (areaId name : string)
           (category : option string) : Op Plant :=
  id <- makeId ;;
  plantedDate <- isoDate ;;
  let plantRecord :=
    mkPlant id None (Some (Js.trim name))
            (Js.orElse category (Some "Other")) None plantedDate None [] in
  setAreas
    (onArea areaId
       (fun a => withPlants a (area_plants a ++ [plantRecord]))) ;;;
  dispatch (Background (insertPlantOf areaId plantRecord)) ;;;
  ret plantRecord.

(** [areas.reduce((sum, a) => sum + a.plants.length, 0)] *)
Definition totalPlants (l : list Area) : nat :=
  fold_left (fun sum a => sum + List.length (area_plants a))%nat l 0%nat.

End Garden.

(* ================================================================= *)
(** ** The screens' handlers that call the store *)

Module Ui.
Import Garden.

Record StageInfo := mkStage {
  key   : string;
  label : string;
  emoji : string
}.

(** Ordered list of growth stages. *)
Definition STAGES : list StageInfo :=
  [ mkStage "planted"    "Planted"    "🌰";
    mkStage "sprouted"   "Sprouted"   "🌱";
    mkStage "growing"    "Growing"    "🌿";
    mkStage "harvesting" "Harvesting" "🥬";
    mkStage "done"       "Done"       "✅" ].

(** [STAGES.findIndex((s) => s.key === plant.stage)]: -1 for a plant that
    has no stage. *)
Definition stageIndex (stage : option string) : Z :=
  Js.findIndex (fun s => match stage with
                         | Some k => key s =? k
                         | None => false
                         end) STAGES.

(** [STAGES[i].key]; the callers keep [i] inside the array. *)
Definition keyAt (i : Z) : option string :=
  option_map key (nth_error STAGES (Z.to_nat i)).

Definition advanceStage (areaId : string) (plant : Plant) : Op unit :=
  let currentIndex := stageIndex (plant_stage plant) in
  if (currentIndex <? Z.of_nat (List.length STAGES) - 1)%Z then
    match keyAt (currentIndex + 1) with
    | Some k => updatePlantStage areaId (plant_id plant) k
    | None => ret tt
    end
  else ret tt.

Definition goBackStage (areaId : string) (plant : Plant) : Op unit :=
  let currentIndex := stageIndex (plant_stage plant) in
  if (currentIndex >? 0)%Z then
    rollbackPlantStage areaId (plant_id plant) (keyAt (currentIndex - 1))
  else if (currentIndex =? 0)%Z then
    rollbackPlantStage areaId (plant_id plant) None
  else ret tt.

(** [submitNote(plantId)]; [draft] is [newNoteText[plantId]]. *)
Definition submitNote (areaId plantId : string) (draft : option string)
  : Op unit :=
  let text :=
    Js.trim (Js.nullish (Js.orElse draft (Some EmptyString)) EmptyString) in
  if negb (Js.truthy text) then ret tt
  else addJournalEntry areaId plantId text.

(** [handleCreate()] of the garden screen. *)
Definition handleCreate (newName newEmoji : string) : Op unit :=
  if negb (Js.truthy (Js.trim newName)) then ret tt
  else createArea newName (Some newEmoji) ;;; ret tt.

(** [handleEditSave()] of the garden screen. *)
Definition handleEditSave (editArea : option Area) (editName editEmoji : string)
  : Op unit :=
  match editArea with
  | Some a =>
      if negb (Js.truthy (Js.trim editName)) then ret tt
      else renameArea (area_id a) editName (Some editEmoji)
  | None => ret tt
  end.

(** [handleAddCustomPlant()] of the area screen. *)
Definition handleAddCustomPlant (areaId customName customCategory : string)
  : Op unit :=
  if negb (Js.truthy (Js.trim customName)) then ret tt
  else addCustomPlantToArea areaId customName (Some customCategory) ;;; ret tt.

(** [handleCreateAndAdd()] of the plant screen. *)
Definition handleCreateAndAdd (newAreaName newAreaEmoji : string)
           (plant : CatalogItem) : Op unit :=
  if negb (Js.truthy (Js.trim newAreaName)) then ret tt
  else createAreaAndAddPlant newAreaName (Some newAreaEmoji) plant ;;; ret tt.

End Ui.

(* ================================================================= *)
(** ** Vocabulary of the statements *)

(** [areas.find((a) => a.id === areaId)] *)
Definition findArea (areaId : string) (l : list Area) : option Area :=
  find (fun a => area_id a =? areaId) l.

(** The plant a screen shows under [areaId] and [plantId]. *)
Definition findPlant (areaId plantId : string) (l : list Area)
  : option Plant :=
  match findArea areaId l with
  | Some a => find (fun p => plant_id p =? plantId) (area_plants a)
  | None => None
  end.

(** How many entries of a journal are stage entries. *)
Definition stageCount (j : list JournalEntry) : nat :=
  List.length (filter isStage j).

(** The rows that hold an area, a plant and a journal entry. *)
Definition rowOfArea (a : Area) : Db.AreaRow :=
  Db.mkAreaRow (area_id a) (area_name a) (area_emoji a) (area_createdAt a).

Definition rowOfPlant (areaId : string) (p : Plant) : Db.PlantRow :=
  Db.mkPlantRow (plant_id p) areaId (plant_seedId p) (plant_seedTitle p)
                (plant_seedCategory p) (plant_seedImage p)
                (plant_plantedDate p) (plant_stage p).

Definition rowOfEntry (plantId : string) (e : JournalEntry) : Db.JournalRow :=
  Db.mkJournalRow (entry_id e) plantId (entry_date e) (entry_text e)
                  (entry_type e).

(** Chaining of writes that are awaited one after the other. *)
Definition andThen (r : Db.Result Db.Database)
           (k : Db.Database -> Db.Result Db.Database)
  : Db.Result Db.Database :=
  match r with
  | Db.Ok db => k db
  | Db.Err e => Db.Err e
  end.

(** Writing a nested collection with the insert functions: each area, then
    each of its plants followed by that plant's journal, all in list
    order. *)
Fixpoint writeJournal (plantId : string) (es : list JournalEntry)
         (db : Db.Database) : Db.Result Db.Database :=
  match es with
  | [] => Db.Ok db
  | e :: rest =>
      andThen (Db.insertJournalEntry (Some (entry_id e)) (Some plantId)
                 (Some (entry_date e)) (Some (entry_text e))
                 (Some (entry_type e)) db)
              (writeJournal plantId rest)
  end.

Fixpoint writePlants (areaId : string) (ps : list Plant) (db : Db.Database)
  : Db.Result Db.Database :=
  match ps with
  | [] => Db.Ok db
  | p :: rest =>
      andThen (andThen
                 (Db.insertPlant (Some (plant_id p)) (Some areaId)
                    (plant_seedId p) (plant_seedTitle p)
                    (plant_seedCategory p) (plant_seedImage p)
                    (Some (plant_plantedDate p)) (plant_stage p) db)
                 (writeJournal (plant_id p) (plant_journal p)))
              (writePlants areaId rest)
  end.

Fixpoint writeAreas (l : list Area) (db : Db.Database)
  : Db.Result Db.Database :=
  match l with
  | [] => Db.Ok db
  | a :: rest =>
      andThen (andThen
                 (Db.insertArea (Some (area_id a)) (Some (area_name a))
                    (Some (area_emoji a)) (Some (area_createdAt a)) db)
                 (writePlants (area_id a) (area_plants a)))
              (writeAreas rest)
  end.

(** The integrity the schema enforces: primary keys are unique and every
    reference has its parent row. *)
Record Integrity (db : Db.Database) : Prop := mkIntegrity {
  areaKeys  : NoDup (map Db.ar_id (Db.areas db));
  plantKeys : NoDup (map Db.pr_id (Db.plants db));
  entryKeys : NoDup (map Db.jr_id (Db.journal_entries db));
  plantRefs : forall p, In p (Db.plants db) ->
                        Db.hasArea (Db.pr_area_id p) db = true;
  entryRefs : forall e, In e (Db.journal_entries db) ->
                        Db.hasPlant (Db.jr_plant_id e) db = true
}.

(** Calls of the two stage mutations on one plant. *)
Inductive StageCall :=
| Advance (newStage : string)
| Rollback (previousStage : option string).

Definition isAdvance (c : StageCall) : bool :=
  match c with
  | Advance _ => true
  | Rollback _ => false
  end.

Definition advances (cs : list StageCall) : Z :=
  Z.of_nat (List.length (filter isAdvance cs)).

Definition rollbacks (cs : list StageCall) : Z :=
  Z.of_nat (List.length (filter (fun c => negb (isAdvance c)) cs)).

Definition stageCall (areaId plantId : string) (c : StageCall)
  : Garden.Op unit :=
  match c with
  | Advance s => Garden.updatePlantStage areaId plantId s
  | Rollback s => Garden.rollbackPlantStage areaId plantId s
  end.

(** The calls of a list made one after the other. *)
Fixpoint stageCalls (areaId plantId : string) (cs : list StageCall)
         (w : Garden.World) : Garden.World :=
  match cs with
  | [] => w
  | c :: rest =>
      stageCalls areaId plantId rest (Garden.exec (stageCall areaId plantId c) w)
  end.

(** No rollback of the list is made on a journal without a stage entry:
    at every point the rollbacks made do not outnumber the advances. *)
Fixpoint matched (depth : nat) (cs : list StageCall) : bool :=
  match cs with
  | [] => true
  | Advance _ :: rest => matched (S depth) rest
  | Rollback _ :: rest =>
      match depth with
      | O => false
      | S d => matched d rest
      end
  end.

(** A press of one of the two stage buttons of a plant card. *)
Inductive Press :=
| PressAdvance
| PressBack.

(** The handler runs on the plant as the screen shows it. *)
Definition press (areaId plantId : string) (b : Press) : Garden.Op unit :=
  fun w =>
    match findPlant areaId plantId (Garden.areas w) with
    | Some plant =>
        match b with
        | PressAdvance => Ui.advanceStage areaId plant w
        | PressBack => Ui.goBackStage areaId plant w
        end
    | None => (tt, w)
    end.

Fixpoint presses (areaId plantId : string) (bs : list Press)
         (w : Garden.World) : Garden.World :=
  match bs with
  | [] => w
  | b :: rest =>
      presses areaId plantId rest (Garden.exec (press areaId plantId b) w)
  end.

(** The stage shown after each press of a list, in order. *)
Fixpoint stagesSeen (areaId plantId : string) (bs : list Press)
         (w : Garden.World) : list (option (option string)) :=
  match bs with
  | [] => []
  | b :: rest =>
      let w' := Garden.exec (press areaId plantId b) w in
      option_map plant_stage (findPlant areaId plantId (Garden.areas w'))
        :: stagesSeen areaId plantId rest w'
  end.

(** The mutations of the store that name one area. *)
Inductive Mutation :=
| RenameArea (areaId newName : string) (newEmoji : option string)
| AddPlantToArea (areaId : string) (seed : CatalogItem)
| AddCustomPlantToArea (areaId name : string) (category : option string)
| UpdatePlantStage (areaId plantId stage : string)
| RollbackPlantStage (areaId plantId : string) (stage : option string)
| AddJournalEntry (areaId plantId text : string)
| RemoveJournalEntry (areaId plantId entryId : string)
| RemovePlantFromArea (areaId plantId : string).

Definition mutate (m : Mutation) (w : Garden.World) : Garden.World :=
  match m with
  | RenameArea a n e => Garden.exec (Garden.renameArea a n e) w
  | AddPlantToArea a s => Garden.exec (Garden.addPlantToArea a s) w
  | AddCustomPlantToArea a n c =>
      Garden.exec (Garden.addCustomPlantToArea a n c) w
  | UpdatePlantStage a p s => Garden.exec (Garden.updatePlantStage a p s) w
  | RollbackPlantStage a p s => Garden.exec (Garden.rollbackPlantStage a p s) w
  | AddJournalEntry a p t => Garden.exec (Garden.addJournalEntry a p t) w
  | RemoveJournalEntry a p e => Garden.exec (Garden.removeJournalEntry a p e) w
  | RemovePlantFromArea a p => Garden.exec (Garden.removePlantFromArea a p) w
  end.

Definition targetArea (m : Mutation) : string :=
  match m with
  | RenameArea a _ _ | AddPlantToArea a _ | AddCustomPlantToArea a _ _
  | UpdatePlantStage a _ _ | RollbackPlantStage a _ _ | AddJournalEntry a _ _
  | RemoveJournalEntry a _ _ | RemovePlantFromArea a _ => a
  end.

(** The plant a mutation names, when it names one. *)
Definition targetPlant (m : Mutation) : option string :=
  match m with
  | UpdatePlantStage _ p _ | RollbackPlantStage _ p _ | AddJournalEntry _ p _
  | RemoveJournalEntry _ p _ | RemovePlantFromArea _ p => Some p
  | RenameArea _ _ _ | AddPlantToArea _ _ | AddCustomPlantToArea _ _ _ => None
  end.

(** The rows [writeAreas] appends to the plants table and to the journal
    table. *)
Definition plantRowsFor (l : list Area) : list Db.PlantRow :=
  flat_map (fun a => map (rowOfPlant (area_id a)) (area_plants a)) l.

Definition journalRowsForPlants (ps : list Plant) : list Db.JournalRow :=
  flat_map (fun p => map (rowOfEntry (plant_id p)) (plant_journal p)) ps.

Definition journalRowsFor (l : list Area) : list Db.JournalRow :=
  flat_map (fun a => journalRowsForPlants (area_plants a)) l.

(** A custom seed as [loadAllCustomSeeds] gives it back: the category
    defaulted, no [url], [isCustom] set, an absent array read as the empty
    one, every other field as written. *)
Definition asLoaded (seed : CustomSeed) : CustomSeed :=
  mkSeed (seed_id seed) (seed_title seed)
         (Some (Js.nullish (seed_category seed) "Vegetable"))
         (seed_scientific_name seed) (seed_description seed)
         (seed_image_url seed) None true
         (Some (Js.nullish (seed_planting_seasons seed) []))
         (seed_best_months seed) (seed_sun_requirements seed)
         (seed_watering seed) (seed_frost_tolerance seed)
         (seed_difficulty seed) (seed_plant_life seed)
         (seed_suitable_for_containers seed) (seed_requires_trellis seed)
         (seed_days_to_germination seed) (seed_days_to_harvest seed)
         (seed_sowing_depth seed) (seed_spacing seed)
         (seed_companion_plants seed) (seed_plant_height seed)
         (seed_drought_tolerant seed).

(** The lifecycle in its fixed order, from not-started to done. *)
Definition stageOrder : list (option string) :=
  [ None; Some "planted"; Some "sprouted"; Some "growing";
    Some "harvesting"; Some "done" ].

(* ================================================================= *)
(** ** Sample data *)

Module Sample.

(** An id source: the letters a, b, c, ... *)
Definition ids (n : nat) : string := String (ascii_of_nat (97 + n)) EmptyString.

Definition lettuce : CatalogItem :=
  mkItem (Some "c1") (Some "Lettuce") None (Some "Vegetable") None.

Definition freshWorld : Garden.World :=
  Garden.mkWorld [] [] [] ids 0 "3 Nov 2026" "2026-11-03".

(** The world after creating the area Planter Box 1 (id a) together with a
    lettuce plant (id b). *)
Definition planterWorld : Garden.World :=
  Garden.exec
    (Garden.createAreaAndAddPlant "Planter Box 1" (Some "🪴") lettuce)
    freshWorld.

(** The durable store once the writes of [planterWorld] have settled. *)
Definition planterDb : Db.Database :=
  Persist.flush (Garden.outbox planterWorld) Db.emptyDatabase.

(** The plant b of [planterWorld] advanced twice, a note added to it, and a
    second plant (id f) added to the same area. *)
Definition grownWorld : Garden.World :=
  Garden.exec
    (Garden.addPlantToArea "a" lettuce)
    (Garden.exec
       (Garden.addJournalEntry "a" "b" "First leaves")
       (presses "a" "b" [PressAdvance; PressAdvance] planterWorld)).

Definition grownDb : Db.Database :=
  Persist.flush (Garden.outbox grownWorld) Db.emptyDatabase.

Definition tomato : CustomSeed :=
  mkSeed "custom_t1" "Tomato" (Some "Vegetable") None None None None true
         (Some ["Spring"; "Summer"]) None None None None None None
         true false None None None None None None true.

End Sample.

(* ================================================================= *)
(** ** The key-value store ([db.js]) *)

Module Kv.
Import Db.

Definition withKv (db : Database) (t : list (string * option string))
  : Database :=
  mkDatabase (areas db) (plants db) (journal_entries db) (custom_seeds db) t.

(** [SELECT value FROM kv_store WHERE key = ?], first row;
    [row ? row.value : null]. *)
Definition kvGet (key : SqlValue) (db : Database) : option string :=
  match key with
  | None => None
  | Some k =>
      match find (fun r => fst r =? k) (kv_store db) with
      | Some row => snd row
      | None => None
      end
  end.

(** [INSERT INTO kv_store (key, value) VALUES (?, ?)
     ON CONFLICT(key) DO UPDATE SET value = excluded.value] *)
Definition kvSet (key value : SqlValue) (db : Database) : Result Database :=
  match key with
  | None => Err NotNullViolation
  | Some k =>
      if existsb (fun r => fst r =? k) (kv_store db)
      then Ok (withKv db
                 (map (fun r => if fst r =? k then (fst r, value) else r)
                      (kv_store db)))
      else Ok (withKv db (kv_store db ++ [(k, value)]))
  end.

(** [DELETE FROM kv_store WHERE key = ?] *)
Definition kvRemove (key : SqlValue) (db : Database) : Result Database :=
  match key with
  | None => Ok db
  | Some k =>
      Ok (withKv db (filter (fun r => negb (fst r =? k)) (kv_store db)))
  end.

End Kv.

(* ================================================================= *)
(** ** The daily reminder of the settings screen

    [scheduleDaily] and [cancelDaily] keep the id of the scheduled
    notification under one key of the key-value store.  The notification
    service is the device's: scheduling answers with an id and adds a
    notification, cancelling an id removes the notifications that have
    it. *)

Module Reminder.

Record Device := mkDevice {
  disk       : Db.Database;
  scheduled  : list (string * (Z * Z));
  notifIds   : nat -> string;
  notifTaken : nat;
  onWeb      : bool
}.

Definition DAILY_NOTIF_ID_KEY : string := "daily_notif_id".

(** [Notifications.cancelScheduledNotificationAsync(id)] *)
Definition cancelScheduled (id : string) (l : list (string * (Z * Z)))
  : list (string * (Z * Z)) :=
  filter (fun n => negb (fst n =? id)) l.

(** [cancelDaily()]; the second component is the rejection, if any. *)
Definition cancelDaily (d : Device) : Device * option Db.SqlError :=
  if onWeb d then (d, None)
  else
    match Kv.kvGet (Some DAILY_NOTIF_ID_KEY) (disk d) with
    | Some id =>
        if Js.truthy id then
          let cancelled := cancelScheduled id (scheduled d) in
          match Kv.kvRemove (Some DAILY_NOTIF_ID_KEY) (disk d) with
          | Db.Ok disk' =>
              (mkDevice disk' cancelled (notifIds d) (notifTaken d) (onWeb d),
               None)
          | Db.Err e =>
              (mkDevice (disk d) cancelled (notifIds d) (notifTaken d)
                        (onWeb d),
               Some e)
          end
        else (d, None)
    | None => (d, None)
    end.

(** [scheduleDaily(hour, minute)]: the old reminder is cancelled first. *)
Definition scheduleDaily (hour minute : Z) (d : Device)
  : Device * option Db.SqlError :=
  if onWeb d then (d, None)
  else
    match cancelDaily d with
    | (d1, Some e) => (d1, Some e)
    | (d1, None) =>
        let id := notifIds d1 (notifTaken d1) in
        let planned := scheduled d1 ++ [(id, (hour, minute))] in
        match Kv.kvSet (Some DAILY_NOTIF_ID_KEY) (Some id) (disk d1) with
        | Db.Ok disk' =>
            (mkDevice disk' planned (notifIds d1) (S (notifTaken d1))
                      (onWeb d1),
             None)
        | Db.Err e =>
            (mkDevice (disk d1) planned (notifIds d1) (S (notifTaken d1))
                      (onWeb d1),
             Some e)
        end
    end.

(** A call of one of the two helpers. *)
Inductive Call :=
| Schedule (hour minute : Z)
| Cancel.

Definition call (c : Call) (d : Device) : Device :=
  match c with
  | Schedule h m => fst (scheduleDaily h m d)
  | Cancel => fst (cancelDaily d)
  end.

Definition calls (cs : list Call) (d : Device) : Device :=
  fold_left (fun acc c => call c acc) cs d.

(** [(settings.reminderHour + delta + 24) % 24] of [handleHourChange]; [%]
    takes the sign of the dividend. *)
Definition nextHour (reminderHour delta : Z) : Z :=
  Z.rem (reminderHour + delta + 24) 24.

End Reminder.

(* ================================================================= *)
(** ** The catalog of custom seeds ([GardenContext.js], browse screen) *)

Module Catalog.

(** The argument of [addCustomSeedToCatalog]; an absent property is
    [None]. *)
Record SeedForm := mkForm {
  name              : string;
  category          : option string;
  scientificName    : option string;
  description       : option string;
  seasons           : option (list string);
  bestMonths        : option string;
  sunRequirements   : option string;
  watering          : option string;
  frostTolerance    : option string;
  difficulty        : option string;
  plantLife         : option string;
  suitableForPots   : option bool;
  requiresTrellis   : option bool;
  daysToGermination : option string;
  daysToHarvest     : option string;
  sowingDepth       : option string;
  spacing           : option string;
  companionPlants   : option string
}.

(** [x?.trim() || null] *)
Definition trimmedOrNull (x : option string) : option string :=
  match x with
  | Some s => if Js.truthy (Js.trim s) then Some (Js.trim s) else None
  | None => None
  end.

(** [x || null] on a string or absent value. *)
Definition orNull (x : option string) : option string := Js.orElse x None.

(** [x || false] on a boolean or absent value. *)
Definition orFalse (x : option bool) : bool :=
  match x with
  | Some b => b
  | None => false
  end.

(** The seed record [addCustomSeedToCatalog] builds; [id] is the result
    of [makeId()]. *)
Definition seedOfForm (id : string) (f : SeedForm) : CustomSeed :=
  mkSeed ("custom_" ++ id)%string
         (Js.trim (name f))
         (Js.orElse (category f) (Some "Vegetable"))
         (trimmedOrNull (scientificName f))
         (trimmedOrNull (description f))
         None
         None
         true
         (Some (Js.nullish (seasons f) []))
         (trimmedOrNull (bestMonths f))
         (orNull (sunRequirements f))
         (orNull (watering f))
         (orNull (frostTolerance f))
         (orNull (difficulty f))
         (orNull (plantLife f))
         (orFalse (suitableForPots f))
         (orFalse (requiresTrellis f))
         (trimmedOrNull (daysToGermination f))
         (trimmedOrNull (daysToHarvest f))
         (trimmedOrNull (sowingDepth f))
         (trimmedOrNull (spacing f))
         (trimmedOrNull (companionPlants f))
         None
         false.

(** The [customSeeds] state cell and the [insertCustomSeed] calls
    dispatched so far. *)
Record Shelf := mkShelf {
  customSeeds : list CustomSeed;
  inserts     : list CustomSeed
}.

(** [addCustomSeedToCatalog(fields)] *)
Definition addCustomSeedToCatalog (id : string) (f : SeedForm) (s : Shelf)
  : CustomSeed * Shelf :=
  let seed := seedOfForm id f in
  (seed, mkShelf (customSeeds s ++ [seed]) (inserts s ++ [seed])).

(** The dispatched inserts settled in order; a rejected one is logged and
    writes nothing. *)
Fixpoint settle (seeds : list CustomSeed) (db : Db.Database) : Db.Database :=
  match seeds with
  | [] => db
  | seed :: rest =>
      match Db.insertCustomSeed seed db with
      | Db.Ok db' => settle rest db'
      | Db.Err _ => settle rest db
      end
  end.

(** [toggleSeason(s)] of the browse screen's form. *)
Definition toggleSeason (s : string) (chosen : list string) : list string :=
  if existsb (fun x => x =? s) chosen
  then filter (fun x => negb (x =? s)) chosen
  else chosen ++ [s].

(** [INITIAL_FORM] *)
Definition INITIAL_FORM : SeedForm :=
  mkForm EmptyString (Some "Vegetable") (Some EmptyString) (Some EmptyString)
         (Some []) (Some EmptyString) None None None None None
         (Some false) (Some false) (Some EmptyString) (Some EmptyString)
         (Some EmptyString) (Some EmptyString) (Some EmptyString).

(** [handleAddSeed()]: nothing happens for a blank name. *)
Definition handleAddSeed (id : string) (form : SeedForm) (s : Shelf) : Shelf :=
  if negb (Js.truthy (Js.trim (name form))) then s
  else snd (addCustomSeedToCatalog id form s).

End Catalog.

(* ================================================================= *)
(** ** The start of the provider ([GardenContext.js]) *)

Module Startup.

Record Provider := mkProvider {
  areas       : list Area;
  customSeeds : list CustomSeed;
  loading     : bool
}.

(** [useState([])], [useState(true)], [useState([])] *)
Definition initial : Provider := mkProvider [] [] true.

(** The effect [load()] on a store that answers its queries: both are
    awaited together; when [loadAllCustomSeeds] rejects neither state is
    set; [loading] is cleared in [finally].  There is no result where the
    custom seeds are neither read by the model nor sure to be rejected. *)
Definition load (db : Db.Database) (p : Provider) : option Provider :=
  if Db.loadRejects db then Some (mkProvider (areas p) (customSeeds p) false)
  else
    match Db.loadAllCustomSeeds db with
    | Some loadedSeeds =>
        Some (mkProvider (Db.loadAllAreas db) loadedSeeds false)
    | None => None
    end.

End Startup.

(* ================================================================= *)
(** ** The provider that saved whole snapshots

    The earlier provider kept the garden under one storage key: every
    operation computes the next list from the [areas] of the render its
    closure belongs to and hands it to [save], which sets the state to that
    list and writes its JSON text.  [saved] records the lists handed to
    [save]; the state of the next render is the last of them. *)

Module Snapshot.

Record Render := mkRender {
  areas    : list Area;
  saved    : list (list Area);
  idSource : nat -> string;
  idsTaken : nat;
  clockIso : string
}.

Definition Op (A : Type) : Type := Render -> A * Render.

Definition makeId : Op string :=
  fun r => (idSource r (idsTaken r),
            mkRender (areas r) (saved r) (idSource r) (S (idsTaken r))
                     (clockIso r)).

(** [save(newAreas)] *)
Definition save (newAreas : list Area) : Op unit :=
  fun r => (tt, mkRender (areas r) (saved r ++ [newAreas]) (idSource r)
                         (idsTaken r) (clockIso r)).

(** The plant record of this provider: [seedTitle: seed.title]. *)
Definition plantOfSeed (id : string) (seed : CatalogItem)
           (plantedDate : string) : Plant :=
  mkPlant id (item_id seed) (item_title seed) (item_category seed)
          (item_image_url seed) plantedDate None [].

Definition createArea (name : string) (emoji : option string) : Op Area :=
  fun r =>
    let (id, r1) := makeId r in
    let area := mkArea id (Js.trim name) (Js.nullish emoji "🪴") (clockIso r1)
                       [] in
    let (_, r2) := save (areas r1 ++ [area]) r1 in
    (area, r2).

Definition addPlantToArea (areaId : string) (seed : CatalogItem) : Op Plant :=
  fun r =>
    let (id, r1) := makeId r in
    let plantRecord := plantOfSeed id seed (clockIso r1) in
    let (_, r2) :=
      save (Garden.onArea areaId
              (fun a => Garden.withPlants a (area_plants a ++ [plantRecord]))
              (areas r1)) r1 in
    (plantRecord, r2).

Definition createAreaAndAddPlant (name : string) (emoji : option string)
           (seed : CatalogItem) : Op Area :=
  fun r =>
    let (areaId, r1) := makeId r in
    let area := mkArea areaId (Js.trim name) (Js.nullish emoji "🪴")
                       (clockIso r1) [] in
    let (plantId, r2) := makeId r1 in
    let plantRecord := plantOfSeed plantId seed (clockIso r2) in
    let (_, r3) := save (areas r2 ++ [Garden.withPlants area [plantRecord]]) r2 in
    (area, r3).

(** [const area = createArea(name, emoji); addPlantToArea(area.id, seed)]
    within one render. *)
Definition createThenAdd (name : string) (emoji : option string)
           (seed : CatalogItem) : Op Plant :=
  fun r =>
    let (area, r1) := createArea name emoji r in
    addPlantToArea (area_id area) seed r1.

(** The areas the next render shows: the list of the last [save], or the
    same list when nothing was saved. *)
Definition nextAreas (r : Render) : list Area :=
  match Js.pop (saved r) with
  | Some l => l
  | None => areas r
  end.

End Snapshot.

(* ================================================================= *)
(** ** More vocabulary *)

(** The durable store loads to the in-memory areas. *)
Definition InSync (w : Garden.World) (db : Db.Database) : Prop :=
  Integrity db /\ Db.loadAllAreas db = Garden.areas w.

(** The dispatches an operation adds to the outbox. *)
Definition dispatchedBy {A : Type} (op : Garden.Op A) (w : Garden.World)
  : list Persist.Dispatch :=
  skipn (List.length (Garden.outbox w)) (Garden.outbox (Garden.exec op w)).

(** The durable store once the writes of an operation have settled
    without a write failure. *)
Definition settled {A : Type} (op : Garden.Op A) (w : Garden.World)
           (db : Db.Database) : Db.Database :=
  Persist.flush (dispatchedBy op w) db.

(** [const area = createArea(name, emoji); addPlantToArea(area.id, seed)]
    on the store of [GardenContext.js]. *)
Definition createThenAdd (name : string) (emoji : option string)
           (seed : CatalogItem) : Garden.Op Plant :=
  Garden.bind (Garden.createArea name emoji)
              (fun area => Garden.addPlantToArea (area_id area) seed).

(** [f] applied to every plant of every area. *)
Definition everyPlant (f : Plant -> Plant) (l : list Area) : list Area :=
  map (fun a => Garden.withPlants a (map f (area_plants a))) l.

(** [f] applied to the plants with an id, in whatever area they are. *)
Definition everywhere (plantId : string) (f : Plant -> Plant) (l : list Area)
  : list Area :=
  everyPlant (fun p => if plant_id p =? plantId then f p else p) l.

(** Plants with the id [plantId] are found in areas with the id [areaId]
    only. *)
Definition plantOnlyIn (areaId plantId : string) (l : list Area) : Prop :=
  forall a q,
    In a l -> In q (area_plants a) -> plant_id q = plantId ->
    area_id a = areaId.

(** Entries with the id [entryId] are found in the journal of the plant
    [plantId] of the area [areaId] only. *)
Definition entryOnlyIn (areaId plantId entryId : string) (l : list Area)
  : Prop :=
  forall a q e,
    In a l -> In q (area_plants a) -> In e (plant_journal q) ->
    entry_id e = entryId ->
    area_id a = areaId /\ plant_id q = plantId.

(** The two conditions as checks that can be run. *)
Definition plantOnlyInb (areaId plantId : string) (l : list Area) : bool :=
  forallb (fun a =>
             (area_id a =? areaId)
             || forallb (fun q => negb (plant_id q =? plantId))
                        (area_plants a))
          l.

Definition entryOnlyInb (areaId plantId entryId : string) (l : list Area)
  : bool :=
  forallb (fun a =>
             forallb (fun q =>
                        ((area_id a =? areaId) && (plant_id q =? plantId))
                        || forallb (fun e => negb (entry_id e =? entryId))
                                   (plant_journal q))
                     (area_plants a))
          l.

(** How many plants the areas with an id hold. *)
Definition plantsUnder (areaId : string) (l : list Area) : nat :=
  Garden.totalPlants (filter (fun a => area_id a =? areaId) l).




(* ================================================================= *)
(** ** What the screens display *)

Module Display.

(** The table of [stageEmoji] on the garden screen. *)
Definition STAGE_EMOJI : list (string * string) :=
  [ ("planted", "🌰"); ("sprouted", "🌱"); ("growing", "🌿");
    ("harvesting", "🥬"); ("done", "✅") ].

(** [stageEmoji(stage)]: [map[stage] || '🌱']; a plant without stage has
    [null], which no table holds.  [None] when what is found is an
    inherited member, which is truthy and no text. *)
Definition stageEmoji (stage : option string) : option string :=
  match stage with
  | Some k =>
      match Garden.member k STAGE_EMOJI with
      | Garden.Own v => Some (if Js.truthy v then v else "🌱")
      | Garden.Inherited => None
      | Garden.Missing => Some "🌱"
      end
  | None => Some "🌱"
  end.

(** [String(n)] of an integer. *)
Definition numberToString (n : Z) : string :=
  NilZero.string_of_int (Z.to_int n).

(** [s.padStart(2, '0')] *)
Definition padStart2 (s : string) : string :=
  match String.length s with
  | 0%nat => "00"
  | 1%nat => "0" ++ s
  | _ => s
  end.

(** [formatTime(hour, minute)] of the settings screen. *)
Definition formatTime (hour minute : Z) : string :=
  let ampm := if (hour >=? 12)%Z then "PM" else "AM" in
  let displayHour :=
    if (Z.rem hour 12 =? 0)%Z then 12%Z else Z.rem hour 12 in
  let displayMin := padStart2 (numberToString minute) in
  numberToString displayHour ++ ":" ++ displayMin ++ " " ++ ampm.

(** The times of a day, hour by hour and minute by minute. *)
Definition timesOfDay : list (Z * Z) :=
  flat_map (fun h => map (fun m => (Z.of_nat h, Z.of_nat m)) (seq 0 60))
           (seq 0 24).

Fixpoint distinct (l : list string) : bool :=
  match l with
  | [] => true
  | x :: r => negb (existsb (String.eqb x) r) && distinct r
  end.

End Display.

(* ================================================================= *)
(** ** What a user does on the screens *)

Module Screens.
Import Garden.

(** [handleDeleteArea(area)] of the garden screen. *)
Definition handleDeleteArea (area : Area) : Op unit :=
  deleteArea (area_id area).

(** [handleAddToArea(area)] of the plant screen. *)
Definition handleAddToArea (area : Area) (plant : CatalogItem) : Op unit :=
  addPlantToArea (area_id area) plant ;;; ret tt.

(** The Remove button of a plant card:
    [removePlantFromArea(areaId, plant.id)]. *)
Definition confirmRemove (areaId : string) (plant : Plant) : Op unit :=
  removePlantFromArea areaId (plant_id plant).

(** [onDelete] of a note row:
    [removeJournalEntry(areaId, plant.id, entry.id)]. *)
Definition deleteNote (areaId : string) (plant : Plant) (entry : JournalEntry)
  : Op unit :=
  removeJournalEntry areaId (plant_id plant) (entry_id entry).

Inductive Gesture :=
| TapCreate (newName newEmoji : string)
| TapEditSave (editArea : option Area) (editName editEmoji : string)
| TapDeleteArea (area : Area)
| TapAddToArea (area : Area) (plant : CatalogItem)
| TapCreateAndAdd (newAreaName newAreaEmoji : string) (plant : CatalogItem)
| TapAdvance (areaId : string) (plant : Plant)
| TapGoBack (areaId : string) (plant : Plant)
| TapSubmitNote (areaId : string) (plant : Plant) (draft : option string)
| TapAddCustomPlant (areaId customName customCategory : string)
| TapRemove (areaId : string) (plant : Plant)
| TapDeleteNote (areaId : string) (plant : Plant) (entry : JournalEntry).

(** The handler behind each gesture. *)
Definition handle (g : Gesture) : Op unit :=
  match g with
  | TapCreate n e => Ui.handleCreate n e
  | TapEditSave a n e => Ui.handleEditSave a n e
  | TapDeleteArea a => handleDeleteArea a
  | TapAddToArea a p => handleAddToArea a p
  | TapCreateAndAdd n e p => Ui.handleCreateAndAdd n e p
  | TapAdvance a p => Ui.advanceStage a p
  | TapGoBack a p => Ui.goBackStage a p
  | TapSubmitNote a p d => Ui.submitNote a (plant_id p) d
  | TapAddCustomPlant a n c => Ui.handleAddCustomPlant a n c
  | TapRemove a p => confirmRemove a p
  | TapDeleteNote a p e => deleteNote a p e
  end.

(** The area screen opened on [areaId] renders the plants of
    [areas.find((a) => a.id === areaId)]. *)
Definition onAreaScreen (areaId : string) (plant : Plant) (w : World) : Prop :=
  exists area,
    find (fun a => area_id a =? areaId) (areas w) = Some area
    /\ In plant (area_plants area).

(** The gesture is made on something the screen shows. *)
Definition shown (g : Gesture) (w : World) : Prop :=
  match g with
  | TapAdvance a p | TapGoBack a p | TapSubmitNote a p _ | TapRemove a p =>
      onAreaScreen a p w
  | TapDeleteNote a p e => onAreaScreen a p w /\ In e (plant_journal p)
  | _ => True
  end.

(** The ids [makeId] hands out next are new. *)
Definition freshIds (w : World) : Prop :=
  ~ In (idSource w (idsTaken w)) (map area_id (areas w))
  /\ ~ In (idSource w (idsTaken w))
          (map plant_id (flat_map area_plants (areas w)))
  /\ ~ In (idSource w (idsTaken w))
          (map entry_id
               (flat_map plant_journal (flat_map area_plants (areas w))))
  /\ ~ In (idSource w (S (idsTaken w)))
          (map plant_id (flat_map area_plants (areas w))).

End Screens.

(** Memory after a run of gestures. *)
Fixpoint play (gs : list Screens.Gesture) (w : Garden.World) : Garden.World :=
  match gs with
  | [] => w
  | g :: rest => play rest (Garden.exec (Screens.handle g) w)
  end.

(** The durable store after the writes of a run of gestures have settled,
    each before the next gesture. *)
Fixpoint stored (gs : list Screens.Gesture) (w : Garden.World)
         (db : Db.Database) : Db.Database :=
  match gs with
  | [] => db
  | g :: rest =>
      stored rest (Garden.exec (Screens.handle g) w)
             (settled (Screens.handle g) w db)
  end.

(** Every gesture of the run is made on what the screen shows then, with
    new ids at hand. *)
Fixpoint playable (gs : list Screens.Gesture) (w : Garden.World) : Prop :=
  match gs with
  | [] => True
  | g :: rest =>
      Screens.shown g w /\ Screens.freshIds w
      /\ playable rest (Garden.exec (Screens.handle g) w)
  end.

(* ================================================================= *)
(** ** More sample data *)

Module Plot.

(** A key-value table with the settings row. *)
Definition prefs : Db.Database :=
  Kv.withKv Db.emptyDatabase [("garden_settings", Some "{}")].

(** A phone without reminder; its notification service hands out the ids
    na, nb, nc, ... *)
Definition phone : Reminder.Device :=
  Reminder.mkDevice Db.emptyDatabase []
                    (fun n => String "n"%char (Sample.ids n)) 0 false.

Definition noArea : Area :=
  mkArea EmptyString EmptyString EmptyString EmptyString [].

Definition noPlant : Plant :=
  mkPlant EmptyString None None None None EmptyString None [].

Definition noEntry : JournalEntry :=
  mkEntry EmptyString EmptyString EmptyString EmptyString.

(** The area, its first plant and the note of that plant as
    [Sample.grownWorld] shows them. *)
Definition planter : Area := nth 0 (Garden.areas Sample.grownWorld) noArea.

Definition firstPlant : Plant := nth 0 (area_plants planter) noPlant.

Definition firstNote : JournalEntry := nth 2 (plant_journal firstPlant) noEntry.

(** The plant of [Sample.planterWorld] as the area screen shows it. *)
Definition seedling : Plant :=
  nth 0 (area_plants (nth 0 (Garden.areas Sample.planterWorld) noArea))
      noPlant.

(** A form filled in with a name and one season. *)
Definition tomatoForm : Catalog.SeedForm :=
  Catalog.mkForm "  Tomato " (Some "Vegetable") (Some EmptyString)
                 (Some EmptyString) (Some ["Spring"]) (Some EmptyString)
                 None None None None None (Some true) (Some false)
                 (Some EmptyString) (Some EmptyString) (Some EmptyString)
                 (Some EmptyString) (Some EmptyString).

Definition emptyShelf : Catalog.Shelf := Catalog.mkShelf [] [].

(** A custom-seed row whose seasons were written by hand as plain text,
    and the store of [Sample.planterDb] with that row. *)
Definition spoiledRow : Db.CustomSeedRow :=
  Db.mkCustomSeedRow "custom_x" "Basil" "Herb" None None None
                     (Some "Spring, Summer") None None None None None None
                     0 0 None None None None None None 0 1.

Definition spoiled : Db.Database :=
  Db.withCustomSeeds Sample.planterDb [spoiledRow].

(** An afternoon on the screens, starting from [Sample.planterWorld]. *)
Definition afternoon : list Screens.Gesture :=
  [ Screens.TapAdvance "a" seedling;
    Screens.TapCreateAndAdd "Herb bed" "🌿" Sample.lettuce;
    Screens.TapAddCustomPlant "a" "Mint" "Herb";
    Screens.TapEditSave (Some planter) "Balcony" "🏡" ].

End Plot.

(* ================================================================= *)
(** * Properties *)

(** ** The composite create-and-add *)

Lemma insertArea_ok (i n e c : string) (db db' : Db.Database) :
  Db.insertArea (Some i) (Some n) (Some e) (Some c) db = Db.Ok db' ->
  Db.hasArea i db = false
  /\ db' = Db.withAreas db (Db.areas db ++ [Db.mkAreaRow i n e c]).
Proof.
  unfold Db.insertArea. destruct (Db.hasArea i db); [discriminate|].
  intros H. inversion H. auto.
Qed.

Lemma insertPlant_ok (i a d : string) (s t c im st : option string)
      (db db' : Db.Database) :
  Db.insertPlant (Some i) (Some a) s t c im (Some d) st db = Db.Ok db' ->
  Db.hasPlant i db = false /\ Db.hasArea a db = true
  /\ db' = Db.withPlants db (Db.plants db ++ [Db.mkPlantRow i a s t c im d st]).
Proof.
  unfold Db.insertPlant. destruct (Db.hasPlant i db); [discriminate|].
  destruct (Db.hasArea a db); cbn; [|discriminate].
  intros H. inversion H. auto.
Qed.

Lemma insertJournalEntry_ok (i p d t ty : string) (db db' : Db.Database) :
  Db.insertJournalEntry (Some i) (Some p) (Some d) (Some t) (Some ty) db
  = Db.Ok db' ->
  Db.hasEntry i db = false /\ Db.hasPlant p db = true
  /\ db' = Db.withJournal db
             (Db.journal_entries db ++ [Db.mkJournalRow i p d t ty]).
Proof.
  unfold Db.insertJournalEntry. destruct (Db.hasEntry i db); [discriminate|].
  destruct (Db.hasPlant p db); cbn; [|discriminate].
  intros H. inversion H. auto.
Qed.

(** A transaction whose task is rejected leaves the store as it was. *)
Lemma withTransactionAsync_rollback
      (task : Db.Database -> Db.Database * option Db.SqlError)
      (db : Db.Database) (e : Db.SqlError) :
  snd (task db) = Some e ->
  Persist.withTransactionAsync task db = (db, Some e).
Proof.
  unfold Persist.withTransactionAsync. destruct (task db) as [db' [e'|]]; cbn.
  - intros H. inversion H. reflexivity.
  - discriminate.
Qed.

Lemma withTransactionAsync_commit
      (task : Db.Database -> Db.Database * option Db.SqlError)
      (db : Db.Database) :
  snd (task db) = None ->
  Persist.withTransactionAsync task db = task db.
Proof.
  unfold Persist.withTransactionAsync. destruct (task db) as [db' [e'|]]; cbn.
  - discriminate.
  - reflexivity.
Qed.

(** Two awaited inserts either both succeed or stop at the first
    rejection. *)
Lemma awaitEach_two (faults : list bool) (c1 c2 : Persist.DbCall)
      (db : Db.Database) :
  (exists e, snd (Persist.awaitEach faults [c1; c2] db) = Some e)
  \/ (exists db1 db2,
         Persist.attempt (hd false faults) c1 db = Db.Ok db1
         /\ Persist.attempt (hd false (tl faults)) c2 db1 = Db.Ok db2
         /\ Persist.awaitEach faults [c1; c2] db = (db2, None)).
Proof.
  cbn. destruct (Persist.attempt (hd false faults) c1 db) as [db1|e] eqn:E1.
  - destruct (Persist.attempt (hd false (tl faults)) c2 db1) as [db2|e] eqn:E2.
    + right. exists db1, db2. auto.
    + left. exists e. reflexivity.
  - left. exists e. reflexivity.
Qed.

Lemma attempt_ok (f : bool) (c : Persist.DbCall) (db db' : Db.Database) :
  Persist.attempt f c db = Db.Ok db' ->
  f = false /\ Persist.runCall c db = Db.Ok db'.
Proof.
  unfold Persist.attempt. destruct f; [discriminate|auto].
Qed.

(** C1. [createAreaAndAddPlant] changes the areas list in one transition,
    from the list without the new area to the list that ends with the new
    area already holding its plant; it dispatches both inserts as one
    transaction, and whatever statement fails (a simulated write failure or
    a constraint) the durable store is left exactly as it was, while a
    transaction that commits has appended both rows. *)
Theorem createAreaAndAddPlant_atomic :
  forall (name : string) (emoji : option string) (seed : CatalogItem)
         (w : Garden.World),
    let w' := Garden.exec (Garden.createAreaAndAddPlant name emoji seed) w in
    let area := Garden.result (Garden.createAreaAndAddPlant name emoji seed) w in
    exists plantRecord : Plant,
      let stored := Garden.withPlants area [plantRecord] in
      let txn :=
        [ Persist.InsertArea (Some (area_id area)) (Some (area_name area))
                             (Some (area_emoji area))
                             (Some (area_createdAt area));
          Garden.insertPlantOf (area_id area) plantRecord ] in
      Garden.areas w' = Garden.areas w ++ [stored]
      /\ Garden.transitions w'
         = Garden.transitions w ++ [Garden.areas w ++ [stored]]
      /\ area_plants stored = [plantRecord]
      /\ Garden.outbox w' = Garden.outbox w ++ [Persist.InTransaction txn]
      /\ forall (faults : list bool) (db : Db.Database),
           let db' := Persist.perform faults (Persist.InTransaction txn) db in
           (snd (Persist.awaitEach faults txn db) <> None -> db' = db)
           /\ (snd (Persist.awaitEach faults txn db) = None ->
               Db.areas db' = Db.areas db ++ [rowOfArea area]
               /\ Db.plants db'
                  = Db.plants db ++ [rowOfPlant (area_id area) plantRecord])
           /\ (db' = db
               \/ (In (rowOfArea area) (Db.areas db')
                   /\ In (rowOfPlant (area_id area) plantRecord)
                         (Db.plants db'))).
Proof.
  intros name emoji seed w. cbn zeta.
  eexists. cbn -[Persist.perform Persist.awaitEach].
  repeat (split; [reflexivity|]).
  intros faults db.
  set (c1 := Persist.InsertArea _ _ _ _).
  set (c2 := Garden.insertPlantOf _ _).
  assert (Hcommit :
            snd (Persist.awaitEach faults [c1; c2] db) = None ->
            Db.areas (Persist.perform faults (Persist.InTransaction [c1; c2]) db)
            = Db.areas db ++ [rowOfArea
                                (Garden.result
                                   (Garden.createAreaAndAddPlant name emoji seed)
                                   w)]
            /\ Db.plants (Persist.perform faults (Persist.InTransaction [c1; c2]) db)
               = Db.plants db
                 ++ [rowOfPlant (Garden.idSource w (Garden.idsTaken w))
                       (Garden.plantOfSeed
                          (Garden.idSource w (S (Garden.idsTaken w))) seed
                          (Garden.clockIso w))]).
  { intros Hnone. unfold Persist.perform.
    rewrite withTransactionAsync_commit by exact Hnone.
    destruct (awaitEach_two faults c1 c2 db) as [[e He]|(db1 & db2 & H1 & H2 & H3)].
    - rewrite He in Hnone. discriminate.
    - rewrite H3. cbn [fst].
      apply attempt_ok in H1. destruct H1 as [_ H1].
      apply attempt_ok in H2. destruct H2 as [_ H2].
      unfold c1, Persist.runCall in H1. apply insertArea_ok in H1.
      destruct H1 as [_ ->].
      unfold c2, Garden.insertPlantOf, Persist.runCall in H2.
      apply insertPlant_ok in H2.
      destruct H2 as (_ & _ & ->). cbn. split; reflexivity. }
  assert (Hrollback :
            snd (Persist.awaitEach faults [c1; c2] db) <> None ->
            Persist.perform faults (Persist.InTransaction [c1; c2]) db = db).
  { intros Hsome. unfold Persist.perform.
    destruct (snd (Persist.awaitEach faults [c1; c2] db)) as [e|] eqn:E.
    - rewrite (withTransactionAsync_rollback _ _ e E). reflexivity.
    - congruence. }
  split; [exact Hrollback|]. split; [exact Hcommit|].
  destruct (snd (Persist.awaitEach faults [c1; c2] db)) as [e|] eqn:E.
  - left. apply Hrollback. discriminate.
  - right. destruct (Hcommit eq_refl) as [Ha Hp]. rewrite Ha, Hp.
    split; apply in_or_app; right; left; reflexivity.
Qed.

(** Without the transaction the same two awaited inserts can leave the
    area row alone: the plant insert fails, the area insert stays. *)
Example area_row_alone_without_transaction :
  let c1 := Persist.InsertArea (Some "a1") (Some "Bed") (Some "🪴")
                               (Some "2026-01-01") in
  let c2 := Persist.InsertPlant (Some "p1") (Some "a1") None None None None
                                (Some "2026-01-01") None in
  Db.areas (fst (Persist.awaitEach [false; true] [c1; c2] Db.emptyDatabase))
  = [Db.mkAreaRow "a1" "Bed" "🪴" "2026-01-01"]
  /\ Db.plants (fst (Persist.awaitEach [false; true] [c1; c2] Db.emptyDatabase))
     = []
  /\ Persist.perform [false; true] (Persist.InTransaction [c1; c2])
                     Db.emptyDatabase
     = Db.emptyDatabase.
Proof. repeat split. Qed.

(* ================================================================= *)
(** ** Stage changes and the journal *)

Lemma onArea_nth (areaId : string) (g : Area -> Area) (l : list Area)
      (i : nat) :
  nth_error (Garden.onArea areaId g l) i
  = option_map (fun a => if area_id a =? areaId then g a else a)
               (nth_error l i).
Proof. unfold Garden.onArea. apply nth_error_map. Qed.




Lemma stageText_written (id date stage : string) :
  Js.inherits stage = false ->
  Garden.stageText stage
  = Some (entry_text (Garden.stageEntry id date stage)).
Proof.
  intros Hplain. unfold Garden.stageEntry. cbn [entry_text].
  unfold Garden.stageText, Garden.member. rewrite Hplain.
  destruct (Garden.lookup stage Garden.STAGE_LABELS); reflexivity.
Qed.


(** The five stages have the labels of [STAGE_LABELS]; a name every object
    inherits has no text. *)
Example stageText_of_the_five_stages :
  map Garden.stageText
      ["planted"; "sprouted"; "growing"; "harvesting"; "done"; "compost";
       "constructor"; "toString"; "__proto__"]
  = [ Some "🌰 Marked as Planted"; Some "🌱 Marked as Sprouted";
      Some "🌿 Marked as Growing"; Some "🥬 Marked as Harvesting";
      Some "✅ Marked as Done"; Some "compost"; None; None; None ].
Proof. reflexivity. Qed.

Lemma pop_last {A : Type} (l : list A) (x : A) : Js.pop (l ++ [x]) = Some x.
Proof.
  induction l as [|y l IH]; [reflexivity|].
  cbn [app Js.pop]. destruct (l ++ [x]) eqn:E.
  - destruct l; discriminate.
  - exact IH.
Qed.

Lemma mapiFrom_app {A B : Type} (g : A -> nat -> B) (l1 l2 : list A)
      (i : nat) :
  Js.mapiFrom g (l1 ++ l2) i
  = Js.mapiFrom g l1 i ++ Js.mapiFrom g l2 (i + List.length l1).
Proof.
  revert i. induction l1 as [|x l1 IH]; intros i; cbn.
  - rewrite Nat.add_0_r. reflexivity.
  - rewrite IH. do 3 f_equal. lia.
Qed.

Lemma indexed_without_stage (l : list JournalEntry) (i : nat) :
  filter isStage l = [] ->
  filter (fun ei : JournalEntry * nat => isStage (fst ei))
         (Js.mapiFrom (fun e k => (e, k)) l i) = [].
Proof.
  revert i. induction l as [|e l IH]; intros i; cbn; [reflexivity|].
  destruct (isStage e); [discriminate|]. intros H. apply IH. exact H.
Qed.

Lemma filteriFrom_keep {A : Type} (l : list A) (i k : nat) :
  (k < i \/ i + List.length l <= k)%nat ->
  Js.filteriFrom (fun _ n => negb (n =? k)%nat) l i = l.
Proof.
  revert i. induction l as [|x l IH]; intros i H; cbn; [reflexivity|].
  cbn in H. destruct (Nat.eqb_spec i k) as [->|Hne]; [lia|].
  cbn. f_equal. apply IH. lia.
Qed.

Lemma filteriFrom_drop {A : Type} (l1 l2 : list A) (x : A) (i : nat) :
  Js.filteriFrom (fun _ n => negb (n =? i + List.length l1)%nat)
                 (l1 ++ x :: l2) i
  = l1 ++ l2.
Proof.
  revert i. induction l1 as [|y l1 IH]; intros i; cbn.
  - rewrite Nat.add_0_r, Nat.eqb_refl. cbn.
    apply filteriFrom_keep. left. lia.
  - destruct (Nat.eqb_spec i (i + S (List.length l1))) as [E|_]; [lia|].
    cbn. f_equal. replace (i + S (List.length l1))%nat
      with (S i + List.length l1)%nat by lia.
    apply IH.
Qed.

(** Every journal either has no stage entry or splits at its last one. *)
Lemma last_stage_split (j : list JournalEntry) :
  filter isStage j = []
  \/ exists before e after,
       j = before ++ e :: after /\ isStage e = true
       /\ filter isStage after = [].
Proof.
  induction j as [|x j IH]; [left; reflexivity|].
  destruct IH as [Hnone|(before & e & after & -> & He & Hafter)].
  - destruct (isStage x) eqn:Hx.
    + right. exists [], x, j. auto.
    + left. cbn. rewrite Hx. exact Hnone.
  - right. exists (x :: before), e, after. auto.
Qed.

Lemma lastStageIndex_none (j : list JournalEntry) :
  filter isStage j = [] -> Garden.lastStageIndex j = None.
Proof.
  intros H. unfold Garden.lastStageIndex, Js.mapi.
  rewrite indexed_without_stage by exact H. reflexivity.
Qed.

Lemma lastStageIndex_split (before after : list JournalEntry)
      (e : JournalEntry) :
  isStage e = true -> filter isStage after = [] ->
  Garden.lastStageIndex (before ++ e :: after) = Some (List.length before).
Proof.
  intros He Hafter. unfold Garden.lastStageIndex, Js.mapi.
  rewrite mapiFrom_app. cbn [Js.mapiFrom]. rewrite filter_app.
  cbn [filter fst]. rewrite He, (indexed_without_stage after) by exact Hafter.
  rewrite pop_last. reflexivity.
Qed.

(** The code's index computation removes exactly the last stage entry. *)
Lemma trimmedJournal_spec (j : list JournalEntry) :
  (filter isStage j = [] /\ Garden.trimmedJournal j = j)
  \/ exists before e after,
       j = before ++ e :: after /\ isStage e = true
       /\ filter isStage after = []
       /\ Garden.trimmedJournal j = before ++ after.
Proof.
  destruct (last_stage_split j) as [Hnone|(before & e & after & -> & He & Ha)].
  - left. split; [exact Hnone|]. unfold Garden.trimmedJournal.
    rewrite lastStageIndex_none by exact Hnone. reflexivity.
  - right. exists before, e, after. repeat split; auto.
    unfold Garden.trimmedJournal.
    rewrite lastStageIndex_split by assumption.
    unfold Js.filteri. apply (filteriFrom_drop before after e 0).
Qed.



(** *** Net stage entries under sequences of calls *)

Lemma find_map_id {A : Type} (test : A -> bool) (g : A -> A) (l : list A) :
  (forall x, test (g x) = test x) ->
  find test (map g l) = option_map g (find test l).
Proof.
  intros Hg. induction l as [|x l IH]; [reflexivity|].
  cbn. rewrite Hg. destruct (test x); [reflexivity|exact IH].
Qed.

(** The plant a screen finds after a per-plant update is the updated
    plant it found before. *)
Lemma findPlant_onPlant (areaId plantId : string) (f : Plant -> Plant)
      (l : list Area) :
  (forall p, plant_id (f p) = plant_id p) ->
  findPlant areaId plantId (Garden.onPlant areaId plantId f l)
  = option_map f (findPlant areaId plantId l).
Proof.
  intros Hf. unfold findPlant, findArea, Garden.onPlant, Garden.onArea.
  rewrite find_map_id.
  - destruct (find (fun a => area_id a =? areaId) l) as [a|] eqn:Ea;
      [|reflexivity].
    cbn [option_map]. apply find_some in Ea. destruct Ea as [_ Ea].
    rewrite Ea. cbn [area_plants Garden.withPlants].
    rewrite find_map_id.
    + destruct (find (fun p => plant_id p =? plantId) (area_plants a)) as [p|] eqn:Ep;
        [|reflexivity].
      cbn [option_map]. apply find_some in Ep. destruct Ep as [_ Ep].
      rewrite Ep. reflexivity.
    + intros p. destruct (plant_id p =? plantId) eqn:E; [|exact E].
      rewrite Hf. exact E.
  - intros a. destruct (area_id a =? areaId) eqn:E; [|exact E].
    cbn. exact E.
Qed.

Lemma stageCount_app (j1 j2 : list JournalEntry) :
  stageCount (j1 ++ j2) = (stageCount j1 + stageCount j2)%nat.
Proof. unfold stageCount. rewrite filter_app, length_app. reflexivity. Qed.

Lemma stageCount_none (j : list JournalEntry) :
  filter isStage j = [] -> stageCount j = 0%nat.
Proof. unfold stageCount. intros ->. reflexivity. Qed.

Lemma stageCount_trimmed (j : list JournalEntry) :
  stageCount (Garden.trimmedJournal j) = Nat.pred (stageCount j).
Proof.
  destruct (trimmedJournal_spec j)
    as [[Hnone ->]|(before & e & after & -> & He & Ha & ->)].
  - rewrite stageCount_none by exact Hnone. reflexivity.
  - rewrite !stageCount_app. unfold stageCount at 4. cbn [filter].
    rewrite He. cbn [List.length]. fold (stageCount after).
    rewrite (stageCount_none after) by exact Ha. lia.
Qed.

(** A rollback keeps every entry that is not a stage entry, and shortens
    the journal by one entry at most. *)
Lemma trimmedJournal_keeps_notes (j : list JournalEntry) :
  filter (fun e => negb (isStage e)) (Garden.trimmedJournal j)
  = filter (fun e => negb (isStage e)) j
  /\ (List.length j <= List.length (Garden.trimmedJournal j) + 1)%nat.
Proof.
  destruct (trimmedJournal_spec j)
    as [[_ ->]|(before & e & after & -> & He & _ & ->)].
  - split; [reflexivity|lia].
  - rewrite !filter_app, !length_app. cbn [filter List.length].
    rewrite He. cbn [negb]. split; [reflexivity|lia].
Qed.

Lemma matched_prefix (done rest : list StageCall) (d : nat) :
  matched d (done ++ rest) = true -> matched d done = true.
Proof.
  revert d. induction done as [|c done IH]; intros d; [reflexivity|].
  cbn. destruct c as [s|s].
  - apply IH.
  - destruct d as [|d]; [discriminate|apply IH].
Qed.

Lemma exec_updatePlantStage_areas (areaId plantId stage : string)
      (w : Garden.World) :
  Garden.areas (Garden.exec (Garden.updatePlantStage areaId plantId stage) w)
  = Garden.onPlant areaId plantId
      (fun p => Garden.withStageJournal p (Some stage)
                  (plant_journal p
                     ++ [Garden.stageEntry
                           (Garden.idSource w (Garden.idsTaken w))
                           (Garden.clockToday w) stage]))
      (Garden.areas w).
Proof. reflexivity. Qed.

Lemma exec_rollbackPlantStage_areas (areaId plantId : string)
      (stage : option string) (w : Garden.World) :
  Garden.areas (Garden.exec (Garden.rollbackPlantStage areaId plantId stage) w)
  = Garden.onPlant areaId plantId
      (fun p => Garden.withStageJournal p stage
                  (Garden.trimmedJournal (plant_journal p)))
      (Garden.areas w).
Proof. reflexivity. Qed.

(** With [d] stage entries in the journal and no rollback beyond them, a
    list of calls leaves [d] plus its advances minus its rollbacks. *)
Lemma stageCalls_count (areaId plantId : string) (cs : list StageCall) :
  forall (w : Garden.World) (p : Plant) (d : nat),
    findPlant areaId plantId (Garden.areas w) = Some p ->
    stageCount (plant_journal p) = d ->
    matched d cs = true ->
    exists p',
      findPlant areaId plantId
                (Garden.areas (stageCalls areaId plantId cs w)) = Some p'
      /\ Z.of_nat (stageCount (plant_journal p'))
         = (Z.of_nat d + advances cs - rollbacks cs)%Z.
Proof.
  induction cs as [|c cs IH]; intros w p d Hp Hd Hm.
  - exists p. split; [exact Hp|]. unfold advances, rollbacks. cbn. lia.
  - cbn [stageCalls]. destruct c as [s|s]; cbn [stageCall].
    + cbn in Hm.
      destruct (IH (Garden.exec (Garden.updatePlantStage areaId plantId s) w)
                   (Garden.withStageJournal p (Some s)
                      (plant_journal p
                         ++ [Garden.stageEntry
                               (Garden.idSource w (Garden.idsTaken w))
                               (Garden.clockToday w) s]))
                   (S d)) as (p' & Hp' & Hc).
      * rewrite exec_updatePlantStage_areas, findPlant_onPlant, Hp by reflexivity.
        reflexivity.
      * cbn [plant_journal Garden.withStageJournal].
        rewrite stageCount_app, Hd. cbn. lia.
      * exact Hm.
      * exists p'. split; [exact Hp'|]. rewrite Hc.
        unfold advances, rollbacks. cbn [filter isAdvance negb List.length].
        lia.
    + cbn in Hm. destruct d as [|d]; [discriminate|].
      destruct (IH (Garden.exec (Garden.rollbackPlantStage areaId plantId s) w)
                   (Garden.withStageJournal p s
                      (Garden.trimmedJournal (plant_journal p)))
                   d) as (p' & Hp' & Hc).
      * rewrite exec_rollbackPlantStage_areas, findPlant_onPlant, Hp by reflexivity.
        reflexivity.
      * cbn [plant_journal Garden.withStageJournal].
        rewrite stageCount_trimmed, Hd. reflexivity.
      * exact Hm.
      * exists p'. split; [exact Hp'|]. rewrite Hc.
        unfold advances, rollbacks. cbn [filter isAdvance negb List.length].
        lia.
Qed.

(** C2 (as amended). Starting from a plant without stage and with an empty
    journal, after each call of a sequence of [updatePlantStage] and
    [rollbackPlantStage] calls in which no rollback outnumbers the advances
    before it, the stage entries of the plant's journal number the advances
    minus the rollbacks made so far; and any rollback, on any journal, keeps
    every entry that is not a stage entry and removes one entry at most. *)
Theorem journal_stage_consistency :
  forall (areaId plantId : string) (calls : list StageCall)
         (w : Garden.World) (p0 : Plant),
    findPlant areaId plantId (Garden.areas w) = Some p0 ->
    plant_stage p0 = None ->
    plant_journal p0 = [] ->
    matched 0 calls = true ->
    (forall done rest : list StageCall,
        calls = done ++ rest ->
        exists p,
          findPlant areaId plantId
                    (Garden.areas (stageCalls areaId plantId done w)) = Some p
          /\ Z.of_nat (stageCount (plant_journal p))
             = (advances done - rollbacks done)%Z)
    /\ (forall (v : Garden.World) (p : Plant) (s : option string),
           findPlant areaId plantId (Garden.areas v) = Some p ->
           exists p',
             findPlant areaId plantId
               (Garden.areas
                  (Garden.exec (Garden.rollbackPlantStage areaId plantId s) v))
             = Some p'
             /\ filter (fun e => negb (isStage e)) (plant_journal p')
                = filter (fun e => negb (isStage e)) (plant_journal p)
             /\ filter isNote (plant_journal p')
                = filter isNote (plant_journal p)
             /\ (List.length (plant_journal p)
                 <= List.length (plant_journal p') + 1)%nat).
Proof.
  intros areaId plantId calls w p0 Hp0 _ Hj Hm. split.
  - intros done rest ->. apply matched_prefix in Hm.
    destruct (stageCalls_count areaId plantId done w p0 0 Hp0) as (p & Hp & Hc).
    + rewrite Hj. reflexivity.
    + exact Hm.
    + exists p. split; [exact Hp|]. rewrite Hc. lia.
  - intros v p s Hp.
    exists (Garden.withStageJournal p s (Garden.trimmedJournal (plant_journal p))).
    split.
    + rewrite exec_rollbackPlantStage_areas, findPlant_onPlant, Hp by reflexivity.
      reflexivity.
    + cbn [plant_journal Garden.withStageJournal].
      destruct (trimmedJournal_keeps_notes (plant_journal p)) as [Hk Hl].
      split; [exact Hk|]. split; [|exact Hl].
      destruct (trimmedJournal_spec (plant_journal p))
        as [[_ ->]|(before & e & after & -> & He & _ & ->)]; [reflexivity|].
      rewrite !filter_app. cbn [filter].
      unfold isStage in He. unfold isNote.
      apply String.eqb_eq in He. rewrite He. reflexivity.
Qed.

(** C2 as stated fails: a rollback made on a journal without a stage entry
    removes nothing, so after a rollback and then an advance the journal
    holds one stage entry while advances minus rollbacks is zero (and after
    the rollback alone it holds none while the difference is -1). *)
Lemma rollback_on_fresh_plant_breaks_count :
  exists p0 p1 p2,
    findPlant "a" "b" (Garden.areas Sample.planterWorld) = Some p0
    /\ plant_stage p0 = None /\ plant_journal p0 = []
    /\ findPlant "a" "b"
         (Garden.areas (stageCalls "a" "b" [Rollback None] Sample.planterWorld))
       = Some p1
    /\ Z.of_nat (stageCount (plant_journal p1))
       <> (advances [Rollback None] - rollbacks [Rollback None])%Z
    /\ findPlant "a" "b"
         (Garden.areas
            (stageCalls "a" "b" [Rollback None; Advance "planted"]
                        Sample.planterWorld))
       = Some p2
    /\ stageCount (plant_journal p2) = 1%nat
    /\ (advances [Rollback None; Advance "planted"]
        - rollbacks [Rollback None; Advance "planted"])%Z = 0%Z.
Proof.
  do 3 eexists. repeat split; try reflexivity. cbn. discriminate.
Qed.

(* ================================================================= *)
(** ** Input that is empty after trimming *)

Lemma draft_trims_to_empty (text : string) :
  Js.trim text = EmptyString ->
  Js.trim (Js.nullish (Js.orElse (Some text) (Some EmptyString)) EmptyString)
  = EmptyString.
Proof.
  intros H. unfold Js.orElse. destruct (Js.truthy text); cbn [Js.nullish].
  - exact H.
  - reflexivity.
Qed.

(** C5 (as amended). The handlers in front of the store reject input that
    is empty after trimming: [handleCreate] and [submitNote] leave the whole
    world as it is, so no state changes and nothing is dispatched.  The
    store's own [createArea] and [addJournalEntry] do not look at the
    trimmed text: the first appends an area and dispatches its insert, the
    second dispatches the insert of a note, both with the empty text. *)
Theorem blank_input_stops_at_the_handlers :
  forall (text : string) (w : Garden.World),
    Js.trim text = EmptyString ->
    (forall newEmoji, Garden.exec (Ui.handleCreate text newEmoji) w = w)
    /\ (forall areaId plantId,
           Garden.exec (Ui.submitNote areaId plantId (Some text)) w = w
           /\ Garden.exec (Ui.submitNote areaId plantId None) w = w)
    /\ (forall emoji,
           let w' := Garden.exec (Garden.createArea text emoji) w in
           let area := Garden.result (Garden.createArea text emoji) w in
           area_name area = EmptyString
           /\ Garden.areas w' = Garden.areas w ++ [area]
           /\ Garden.outbox w'
              = Garden.outbox w
                ++ [Persist.Background
                      (Persist.InsertArea (Some (area_id area))
                         (Some EmptyString) (Some (area_emoji area))
                         (Some (area_createdAt area)))])
    /\ (forall areaId plantId,
           let w' := Garden.exec (Garden.addJournalEntry areaId plantId text) w in
           Garden.outbox w'
           = Garden.outbox w
             ++ [Persist.Background
                   (Persist.InsertJournalEntry
                      (Some (Garden.idSource w (Garden.idsTaken w)))
                      (Some plantId) (Some (Garden.clockToday w))
                      (Some EmptyString) (Some "note"))]).
Proof.
  intros text w H. refine (conj _ (conj _ (conj _ _))).
  - intros newEmoji. unfold Ui.handleCreate, Js.truthy. rewrite H. reflexivity.
  - intros areaId plantId. split; [|reflexivity].
    unfold Ui.submitNote. rewrite draft_trims_to_empty by exact H. reflexivity.
  - intros emoji. cbn -[Js.trim]. rewrite H. repeat split.
  - intros areaId plantId. cbn -[Js.trim].
    unfold Garden.insertEntryOf, Garden.noteEntry. cbn -[Js.trim].
    rewrite H. reflexivity.
Qed.

Lemma blank_input_stops_at_the_handlers_witness :
  Js.trim "   " = EmptyString
  /\ Garden.exec (Ui.handleCreate "   " "🪴") Sample.planterWorld
     = Sample.planterWorld
  /\ Garden.exec (Ui.submitNote "a" "b" (Some "   ")) Sample.planterWorld
     = Sample.planterWorld.
Proof.
  split; [reflexivity|].
  pose proof (blank_input_stops_at_the_handlers "   " Sample.planterWorld
                eq_refl) as (Hc & Hn & _).
  split; [apply Hc|apply Hn].
Defined.

(** C5 as stated fails on the store: called with a name of three spaces,
    [createArea] appends an area whose name is empty and dispatches its
    insert; called with a blank text, [addJournalEntry] appends a note
    whose text is empty and dispatches its insert. *)
Lemma blank_input_reaches_the_store :
  Js.trim "   " = EmptyString
  /\ Garden.areas (Garden.exec (Garden.createArea "   " None) Sample.freshWorld)
     = [mkArea "a" EmptyString "🪴" "2026-11-03" []]
  /\ Garden.areas (Garden.exec (Garden.createArea "   " None) Sample.freshWorld)
     <> Garden.areas Sample.freshWorld
  /\ Garden.outbox (Garden.exec (Garden.createArea "   " None) Sample.freshWorld)
     = [Persist.Background
          (Persist.InsertArea (Some "a") (Some EmptyString) (Some "🪴")
                              (Some "2026-11-03"))]
  /\ option_map plant_journal
       (findPlant "a" "b"
          (Garden.areas
             (Garden.exec (Garden.addJournalEntry "a" "b" "   ")
                          Sample.planterWorld)))
     = Some [mkEntry "c" "3 Nov 2026" EmptyString "note"]
  /\ Garden.outbox
       (Garden.exec (Garden.addJournalEntry "a" "b" "   ") Sample.planterWorld)
     = Garden.outbox Sample.planterWorld
       ++ [Persist.Background
             (Persist.InsertJournalEntry (Some "c") (Some "b")
                (Some "3 Nov 2026") (Some EmptyString) (Some "note"))].
Proof.
  repeat split; try reflexivity. cbn. discriminate.
Qed.

(* ================================================================= *)
(** ** Renaming an area *)

(** In memory, a rename without emoji keeps the emoji and every other
    field of the area. *)
Lemma renameArea_in_memory (w : Garden.World) (newName : string) (i : nat)
      (a : Area) :
  nth_error (Garden.areas w) i = Some a ->
  nth_error
    (Garden.areas (Garden.exec (Garden.renameArea (area_id a) newName None) w))
    i
  = Some (mkArea (area_id a) (Js.trim newName) (area_emoji a)
                 (area_createdAt a) (area_plants a)).
Proof.
  intros Ha. cbn. rewrite onArea_nth, Ha. cbn.
  rewrite String.eqb_refl. reflexivity.
Qed.

(** The statement [updateArea] runs binds the absent emoji as [NULL]; on an
    existing row that breaks [emoji TEXT NOT NULL], so the whole update,
    the new name included, is rejected. *)
Lemma updateArea_without_emoji_rejected (id name : string) (db : Db.Database) :
  Db.hasArea id db = true ->
  Db.updateArea (Some id) (Some name) None db = Db.Err Db.NotNullViolation.
Proof. intros H. unfold Db.updateArea. rewrite H. reflexivity. Qed.

(** C6 at a failing input.  The area a of the sample world is renamed
    without an emoji: in memory it gets the new name and keeps its emoji;
    the dispatched [updateArea] is rejected, so once every write has
    settled [loadAllAreas] still returns the old name. *)
Theorem renameArea_without_emoji_not_persisted :
  let w := Garden.exec (Garden.renameArea "a" " Herb bed " None)
                       Sample.planterWorld in
  let db := Persist.flush (Garden.outbox w) Db.emptyDatabase in
  option_map area_name (findArea "a" (Garden.areas w)) = Some "Herb bed"
  /\ option_map area_emoji (findArea "a" (Garden.areas w)) = Some "🪴"
  /\ Garden.outbox w
     = Garden.outbox Sample.planterWorld
       ++ [Persist.Background
             (Persist.UpdateArea (Some "a") (Some "Herb bed") None)]
  /\ Persist.runCall (Persist.UpdateArea (Some "a") (Some "Herb bed") None)
                     Sample.planterDb
     = Db.Err Db.NotNullViolation
  /\ db = Sample.planterDb
  /\ option_map area_name (findArea "a" (Db.loadAllAreas db))
     = Some "Planter Box 1".
Proof. repeat split. Qed.

(* ================================================================= *)
(** ** The stage buttons *)

Lemma findPlant_id (areaId plantId : string) (l : list Area) (p : Plant) :
  findPlant areaId plantId l = Some p -> plant_id p = plantId.
Proof.
  unfold findPlant. destruct (findArea areaId l) as [a|]; [|discriminate].
  intros H. apply find_some in H. destruct H as [_ H].
  apply String.eqb_eq. exact H.
Qed.

Lemma press_advance_next (areaId plantId : string) (w : Garden.World)
      (p : Plant) (k : string) :
  findPlant areaId plantId (Garden.areas w) = Some p ->
  (Ui.stageIndex (plant_stage p) <? 4)%Z = true ->
  Ui.keyAt (Ui.stageIndex (plant_stage p) + 1) = Some k ->
  exists p',
    findPlant areaId plantId
      (Garden.areas (Garden.exec (press areaId plantId PressAdvance) w))
    = Some p'
    /\ plant_stage p' = Some k.
Proof.
  intros Hp Hlt Hk. pose proof (findPlant_id _ _ _ _ Hp) as Hid.
  unfold press, Garden.exec. rewrite Hp. unfold Ui.advanceStage.
  change (Z.of_nat (List.length Ui.STAGES) - 1)%Z with 4%Z.
  rewrite Hlt, Hk, Hid.
  change (snd (Garden.updatePlantStage areaId plantId k w))
    with (Garden.exec (Garden.updatePlantStage areaId plantId k) w).
  rewrite exec_updatePlantStage_areas, findPlant_onPlant, Hp by reflexivity.
  eexists. split; reflexivity.
Qed.

Lemma press_advance_at_done (areaId plantId : string) (w : Garden.World)
      (p : Plant) :
  findPlant areaId plantId (Garden.areas w) = Some p ->
  plant_stage p = Some "done" ->
  Garden.exec (press areaId plantId PressAdvance) w = w.
Proof.
  intros Hp Hs. unfold press, Garden.exec. rewrite Hp.
  unfold Ui.advanceStage. rewrite Hs. reflexivity.
Qed.

Lemma press_back_previous (areaId plantId : string) (w : Garden.World)
      (p : Plant) (prev : option string) :
  findPlant areaId plantId (Garden.areas w) = Some p ->
  ((Ui.stageIndex (plant_stage p) >? 0)%Z = true
   /\ Ui.keyAt (Ui.stageIndex (plant_stage p) - 1) = prev
   \/ Ui.stageIndex (plant_stage p) = 0%Z /\ prev = None) ->
  exists p',
    findPlant areaId plantId
      (Garden.areas (Garden.exec (press areaId plantId PressBack) w))
    = Some p'
    /\ plant_stage p' = prev.
Proof.
  intros Hp Hcase. pose proof (findPlant_id _ _ _ _ Hp) as Hid.
  unfold press, Garden.exec. rewrite Hp. unfold Ui.goBackStage.
  assert (Hgoal :
            snd (Garden.rollbackPlantStage areaId (plant_id p) prev w)
            = Garden.exec (Garden.rollbackPlantStage areaId plantId prev) w)
    by (rewrite Hid; reflexivity).
  destruct Hcase as [[Hgt Hk]|[Hz Hn]].
  - rewrite Hgt, Hk, Hgoal.
    rewrite exec_rollbackPlantStage_areas, findPlant_onPlant, Hp by reflexivity.
    eexists. split; reflexivity.
  - rewrite Hz. cbn [Z.gtb Z.compare Z.eqb]. rewrite <- Hn, Hgoal.
    rewrite exec_rollbackPlantStage_areas, findPlant_onPlant, Hp by reflexivity.
    eexists. split; reflexivity.
Qed.

Lemma press_back_at_start (areaId plantId : string) (w : Garden.World)
      (p : Plant) :
  findPlant areaId plantId (Garden.areas w) = Some p ->
  plant_stage p = None ->
  Garden.exec (press areaId plantId PressBack) w = w.
Proof.
  intros Hp Hs. unfold press, Garden.exec. rewrite Hp.
  unfold Ui.goBackStage. rewrite Hs. reflexivity.
Qed.

(** One press of the advance button moves a plant one place forward in
    [stageOrder]. *)
Lemma press_advance_order (areaId plantId : string) (w : Garden.World)
      (p : Plant) (n : nat) (next : option string) :
  findPlant areaId plantId (Garden.areas w) = Some p ->
  nth_error stageOrder n = Some (plant_stage p) ->
  nth_error stageOrder (S n) = Some next ->
  exists p',
    findPlant areaId plantId
      (Garden.areas (Garden.exec (press areaId plantId PressAdvance) w))
    = Some p'
    /\ plant_stage p' = next.
Proof.
  intros Hp Hn Hnext.
  do 5 (destruct n as [|n];
        [ cbn in Hn, Hnext; inversion Hn as [Hs]; inversion Hnext; subst next;
          apply (press_advance_next _ _ _ p); [exact Hp | rewrite <- Hs; reflexivity ..]
        | ]).
  destruct n; cbn in Hnext; [discriminate|].
  destruct n; discriminate.
Qed.

(** One press of the back button moves a plant one place backward. *)
Lemma press_back_order (areaId plantId : string) (w : Garden.World)
      (p : Plant) (n : nat) (prev : option string) :
  findPlant areaId plantId (Garden.areas w) = Some p ->
  nth_error stageOrder (S n) = Some (plant_stage p) ->
  nth_error stageOrder n = Some prev ->
  exists p',
    findPlant areaId plantId
      (Garden.areas (Garden.exec (press areaId plantId PressBack) w))
    = Some p'
    /\ plant_stage p' = prev.
Proof.
  intros Hp Hn Hprev.
  destruct n as [|n].
  { cbn in Hn, Hprev. inversion Hn as [Hs]. inversion Hprev. subst prev.
    apply (press_back_previous _ _ _ p); [exact Hp|]. right. rewrite <- Hs.
    split; reflexivity. }
  do 4 (destruct n as [|n];
        [ cbn in Hn, Hprev; inversion Hn as [Hs]; inversion Hprev; subst prev;
          apply (press_back_previous _ _ _ p); [exact Hp|]; left; rewrite <- Hs;
          split; reflexivity
        | ]).
  destruct n; discriminate.
Qed.

Lemma skipn_nth {A : Type} (l : list A) (n : nat) (x : A) :
  nth_error l n = Some x -> skipn n l = x :: skipn (S n) l.
Proof.
  revert l. induction n as [|n IH]; intros [|y l] H; try discriminate.
  - inversion H. reflexivity.
  - cbn in H. apply IH in H. exact H.
Qed.

Lemma firstn_nth {A : Type} (l : list A) (n : nat) (x : A) :
  nth_error l n = Some x -> firstn (S n) l = firstn n l ++ [x].
Proof.
  revert l. induction n as [|n IH]; intros [|y l] H; try discriminate.
  - inversion H. reflexivity.
  - cbn in H. apply IH in H. cbn [firstn app]. f_equal. exact H.
Qed.

Lemma stagesSeen_app (areaId plantId : string) (bs1 bs2 : list Press)
      (w : Garden.World) :
  stagesSeen areaId plantId (bs1 ++ bs2) w
  = stagesSeen areaId plantId bs1 w
    ++ stagesSeen areaId plantId bs2 (presses areaId plantId bs1 w).
Proof.
  revert w. induction bs1 as [|b bs1 IH]; intros w; [reflexivity|].
  cbn [app stagesSeen presses]. rewrite IH. reflexivity.
Qed.

(** [k] presses of the advance button from place [n] of the order visit the
    next [k] places one by one. *)
Lemma climb (areaId plantId : string) (k : nat) :
  forall (n : nat) (w : Garden.World) (p : Plant),
    findPlant areaId plantId (Garden.areas w) = Some p ->
    nth_error stageOrder n = Some (plant_stage p) ->
    (n + k <= 5)%nat ->
    stagesSeen areaId plantId (repeat PressAdvance k) w
    = map Some (firstn k (skipn (S n) stageOrder))
    /\ exists p',
         findPlant areaId plantId
           (Garden.areas (presses areaId plantId (repeat PressAdvance k) w))
         = Some p'
         /\ nth_error stageOrder (n + k) = Some (plant_stage p').
Proof.
  induction k as [|k IH]; intros n w p Hp Hn Hle.
  - split; [reflexivity|]. exists p. rewrite Nat.add_0_r. auto.
  - destruct (nth_error stageOrder (S n)) as [next|] eqn:Hnext.
    2:{ apply nth_error_None in Hnext. cbn in Hnext. lia. }
    destruct (press_advance_order areaId plantId w p n next Hp Hn Hnext)
      as (p1 & Hp1 & Hs1).
    destruct (IH (S n) _ p1 Hp1) as (Hseen & p' & Hp' & Hn').
    + rewrite Hs1. exact Hnext.
    + lia.
    + split.
      * cbn [repeat stagesSeen]. rewrite Hp1, Hseen.
        rewrite (skipn_nth _ _ _ Hnext). cbn [firstn map option_map].
        rewrite Hs1. reflexivity.
      * exists p'. split; [exact Hp'|].
        replace (n + S k)%nat with (S n + k)%nat by lia. exact Hn'.
Qed.

(** [k] presses of the back button from place [n] visit the [k] places
    before it, nearest first. *)
Lemma descend (areaId plantId : string) (k : nat) :
  forall (n : nat) (w : Garden.World) (p : Plant),
    findPlant areaId plantId (Garden.areas w) = Some p ->
    nth_error stageOrder n = Some (plant_stage p) ->
    (k <= n)%nat ->
    stagesSeen areaId plantId (repeat PressBack k) w
    = map Some (firstn k (rev (firstn n stageOrder)))
    /\ exists p',
         findPlant areaId plantId
           (Garden.areas (presses areaId plantId (repeat PressBack k) w))
         = Some p'
         /\ nth_error stageOrder (n - k) = Some (plant_stage p').
Proof.
  induction k as [|k IH]; intros n w p Hp Hn Hle.
  - split; [reflexivity|]. exists p. rewrite Nat.sub_0_r. auto.
  - destruct n as [|n]; [lia|].
    destruct (nth_error stageOrder n) as [prev|] eqn:Hprev.
    2:{ apply nth_error_None in Hprev.
        assert (S n < List.length stageOrder)%nat
          by (apply nth_error_Some; rewrite Hn; discriminate).
        lia. }
    destruct (press_back_order areaId plantId w p n prev Hp Hn Hprev)
      as (p1 & Hp1 & Hs1).
    destruct (IH n _ p1 Hp1) as (Hseen & p' & Hp' & Hn').
    + rewrite Hs1. exact Hprev.
    + lia.
    + split.
      * cbn [repeat stagesSeen]. rewrite Hp1, Hseen.
        rewrite (firstn_nth _ _ _ Hprev), rev_app_distr.
        cbn [rev app firstn map option_map]. rewrite Hs1. reflexivity.
      * exists p'. split; [exact Hp'|]. exact Hn'.
Qed.

(** C9. A press of the advance button moves a plant to the next stage of
    the fixed order and a press of the back button to the previous one, for
    a plant at any place of the order; advancing at [done] and going back at
    not-started change nothing at all (no state change, no write).  From
    not-started, six advances and then six backs show planted, sprouted,
    growing, harvesting, done, done, harvesting, growing, sprouted, planted,
    not-started, not-started. *)
Theorem stage_buttons_follow_the_order :
  forall (areaId plantId : string) (w : Garden.World) (p : Plant),
    findPlant areaId plantId (Garden.areas w) = Some p ->
    (forall n next,
        nth_error stageOrder n = Some (plant_stage p) ->
        nth_error stageOrder (S n) = Some next ->
        exists p',
          findPlant areaId plantId
            (Garden.areas (Garden.exec (press areaId plantId PressAdvance) w))
          = Some p'
          /\ plant_stage p' = next)
    /\ (plant_stage p = Some "done" ->
        Garden.exec (press areaId plantId PressAdvance) w = w)
    /\ (forall n prev,
           nth_error stageOrder (S n) = Some (plant_stage p) ->
           nth_error stageOrder n = Some prev ->
           exists p',
             findPlant areaId plantId
               (Garden.areas (Garden.exec (press areaId plantId PressBack) w))
             = Some p'
             /\ plant_stage p' = prev)
    /\ (plant_stage p = None ->
        Garden.exec (press areaId plantId PressBack) w = w)
    /\ (plant_stage p = None ->
        stagesSeen areaId plantId
          (repeat PressAdvance 5 ++ [PressAdvance]
             ++ repeat PressBack 5 ++ [PressBack]) w
        = map Some
            [ Some "planted"; Some "sprouted"; Some "growing";
              Some "harvesting"; Some "done"; Some "done";
              Some "harvesting"; Some "growing"; Some "sprouted";
              Some "planted"; None; None ]).
Proof.
  intros areaId plantId w p Hp.
  refine (conj _ (conj _ (conj _ (conj _ _)))).
  - intros n next. apply press_advance_order. exact Hp.
  - apply press_advance_at_done. exact Hp.
  - intros n prev. apply press_back_order. exact Hp.
  - apply press_back_at_start. exact Hp.
  - intros Hs.
    destruct (climb areaId plantId 5 0 w p Hp) as (Hup & p5 & Hp5 & Hs5).
    { rewrite Hs. reflexivity. }
    { lia. }
    cbn in Hs5. inversion Hs5 as [Hdone]. symmetry in Hdone.
    set (w5 := presses areaId plantId (repeat PressAdvance 5) w) in *.
    pose proof (press_advance_at_done areaId plantId w5 p5 Hp5 Hdone) as Hstay.
    destruct (descend areaId plantId 5 5 w5 p5 Hp5) as (Hdown & p0 & Hp0 & Hs0).
    { rewrite Hdone. reflexivity. }
    { lia. }
    cbn in Hs0. inversion Hs0 as [Hnull]. symmetry in Hnull.
    set (w0 := presses areaId plantId (repeat PressBack 5) w5) in *.
    pose proof (press_back_at_start areaId plantId w0 p0 Hp0 Hnull) as Hstay0.
    rewrite stagesSeen_app, Hup. fold w5.
    rewrite stagesSeen_app. cbn [stagesSeen presses].
    rewrite Hstay, Hp5. cbn [option_map]. rewrite Hdone.
    rewrite stagesSeen_app, Hdown. fold w0.
    cbn [stagesSeen]. rewrite Hstay0, Hp0. cbn [option_map].
    rewrite Hnull. reflexivity.
Qed.

Lemma stage_buttons_follow_the_order_witness :
  findPlant "a" "b" (Garden.areas Sample.planterWorld)
  = Some (Garden.plantOfSeed "b" Sample.lettuce "2026-11-03")
  /\ stagesSeen "a" "b"
       (repeat PressAdvance 5 ++ [PressAdvance]
          ++ repeat PressBack 5 ++ [PressBack]) Sample.planterWorld
     = map Some
         [ Some "planted"; Some "sprouted"; Some "growing";
           Some "harvesting"; Some "done"; Some "done";
           Some "harvesting"; Some "growing"; Some "sprouted";
           Some "planted"; None; None ].
Proof.
  split; [reflexivity|].
  apply (stage_buttons_follow_the_order "a" "b" Sample.planterWorld
           (Garden.plantOfSeed "b" Sample.lettuce "2026-11-03") eq_refl).
  reflexivity.
Defined.

(** *** The buttons keep the journal in step with the stage

    Driven by the two buttons, the store never receives a rollback on a
    journal without stage entries: the stage entries of the journal always
    number the place of the plant's stage in [stageOrder]. *)

Lemma press_advance_plant (areaId plantId : string) (w : Garden.World)
      (p : Plant) (k : string) :
  findPlant areaId plantId (Garden.areas w) = Some p ->
  (Ui.stageIndex (plant_stage p) <? 4)%Z = true ->
  Ui.keyAt (Ui.stageIndex (plant_stage p) + 1) = Some k ->
  findPlant areaId plantId
    (Garden.areas (Garden.exec (press areaId plantId PressAdvance) w))
  = Some (Garden.withStageJournal p (Some k)
            (plant_journal p
               ++ [Garden.stageEntry (Garden.idSource w (Garden.idsTaken w))
                                     (Garden.clockToday w) k])).
Proof.
  intros Hp Hlt Hk. pose proof (findPlant_id _ _ _ _ Hp) as Hid.
  unfold press, Garden.exec. rewrite Hp. unfold Ui.advanceStage.
  change (Z.of_nat (List.length Ui.STAGES) - 1)%Z with 4%Z.
  rewrite Hlt, Hk, Hid.
  change (snd (Garden.updatePlantStage areaId plantId k w))
    with (Garden.exec (Garden.updatePlantStage areaId plantId k) w).
  rewrite exec_updatePlantStage_areas, findPlant_onPlant, Hp by reflexivity.
  reflexivity.
Qed.

Lemma press_back_plant (areaId plantId : string) (w : Garden.World)
      (p : Plant) (prev : option string) :
  findPlant areaId plantId (Garden.areas w) = Some p ->
  ((Ui.stageIndex (plant_stage p) >? 0)%Z = true
   /\ Ui.keyAt (Ui.stageIndex (plant_stage p) - 1) = prev
   \/ Ui.stageIndex (plant_stage p) = 0%Z /\ prev = None) ->
  findPlant areaId plantId
    (Garden.areas (Garden.exec (press areaId plantId PressBack) w))
  = Some (Garden.withStageJournal p prev
            (Garden.trimmedJournal (plant_journal p))).
Proof.
  intros Hp Hcase. pose proof (findPlant_id _ _ _ _ Hp) as Hid.
  unfold press, Garden.exec. rewrite Hp. unfold Ui.goBackStage.
  assert (Hgoal :
            snd (Garden.rollbackPlantStage areaId (plant_id p) prev w)
            = Garden.exec (Garden.rollbackPlantStage areaId plantId prev) w)
    by (rewrite Hid; reflexivity).
  destruct Hcase as [[Hgt Hk]|[Hz Hn]].
  - rewrite Hgt, Hk, Hgoal.
    rewrite exec_rollbackPlantStage_areas, findPlant_onPlant, Hp by reflexivity.
    reflexivity.
  - rewrite Hz. cbn [Z.gtb Z.compare Z.eqb]. rewrite <- Hn, Hgoal.
    rewrite exec_rollbackPlantStage_areas, findPlant_onPlant, Hp by reflexivity.
    reflexivity.
Qed.

Lemma press_keeps_count (areaId plantId : string) (b : Press)
      (w : Garden.World) (p : Plant) (n : nat) :
  findPlant areaId plantId (Garden.areas w) = Some p ->
  nth_error stageOrder n = Some (plant_stage p) ->
  stageCount (plant_journal p) = n ->
  exists p' n',
    findPlant areaId plantId
      (Garden.areas (Garden.exec (press areaId plantId b) w)) = Some p'
    /\ nth_error stageOrder n' = Some (plant_stage p')
    /\ stageCount (plant_journal p') = n'.
Proof.
  intros Hp Hn Hc. destruct b.
  - (* advance *)
    do 5 (destruct n as [|n];
          [ cbn in Hn; inversion Hn as [Hs];
            eexists; eexists; split;
            [ apply press_advance_plant;
              [exact Hp | rewrite <- Hs; reflexivity ..]
            | split;
              [ | cbn [plant_journal Garden.withStageJournal];
                  rewrite stageCount_app, Hc; reflexivity ];
              reflexivity ]
          | ]).
    destruct n as [|n]; [|destruct n; discriminate].
    cbn in Hn. inversion Hn as [Hs]. symmetry in Hs.
    rewrite (press_advance_at_done areaId plantId w p Hp Hs).
    exists p, 5%nat. rewrite Hs. auto.
  - (* back *)
    destruct n as [|n].
    { cbn in Hn. inversion Hn as [Hs]. symmetry in Hs.
      rewrite (press_back_at_start areaId plantId w p Hp Hs).
      exists p, 0%nat. rewrite Hs. auto. }
    destruct n as [|n].
    { cbn in Hn. inversion Hn as [Hs].
      eexists; exists 0%nat; split;
        [ apply press_back_plant; [exact Hp|]; right; rewrite <- Hs;
          split; reflexivity
        | split; [reflexivity|] ].
      cbn [plant_journal Garden.withStageJournal].
      rewrite stageCount_trimmed, Hc. reflexivity. }
    do 4 (destruct n as [|n];
          [ cbn in Hn; inversion Hn as [Hs];
            eexists; eexists; split;
            [ apply press_back_plant; [exact Hp|]; left; rewrite <- Hs;
              split; reflexivity
            | split;
              [ | cbn [plant_journal Garden.withStageJournal];
                  rewrite stageCount_trimmed, Hc; reflexivity ];
              reflexivity ]
          | ]).
    destruct n; discriminate.
Qed.

(** After any presses on a plant that started without stage and without
    stage entries, the journal holds as many stage entries as the stage
    is places away from not-started. *)
Lemma presses_keep_count (areaId plantId : string) (bs : list Press) :
  forall (w : Garden.World) (p : Plant) (n : nat),
    findPlant areaId plantId (Garden.areas w) = Some p ->
    nth_error stageOrder n = Some (plant_stage p) ->
    stageCount (plant_journal p) = n ->
    exists p' n',
      findPlant areaId plantId (Garden.areas (presses areaId plantId bs w))
      = Some p'
      /\ nth_error stageOrder n' = Some (plant_stage p')
      /\ stageCount (plant_journal p') = n'.
Proof.
  induction bs as [|b bs IH]; intros w p n Hp Hn Hc.
  - exists p, n. auto.
  - cbn [presses].
    destruct (press_keeps_count areaId plantId b w p n Hp Hn Hc)
      as (p1 & n1 & Hp1 & Hn1 & Hc1).
    exact (IH _ p1 n1 Hp1 Hn1 Hc1).
Qed.

(* ================================================================= *)
(** ** What a mutation leaves alone *)

Lemma onArea_ids (areaId : string) (g : Area -> Area) (l : list Area) :
  (forall a, area_id (g a) = area_id a) ->
  map area_id (Garden.onArea areaId g l) = map area_id l.
Proof.
  intros Hg. unfold Garden.onArea. rewrite map_map. apply map_ext.
  intros a. destruct (area_id a =? areaId); [apply Hg|reflexivity].
Qed.

Lemma onArea_other (areaId : string) (g : Area -> Area) (l : list Area)
      (i : nat) (a : Area) :
  nth_error l i = Some a -> area_id a <> areaId ->
  nth_error (Garden.onArea areaId g l) i = Some a.
Proof.
  intros Ha Hne. rewrite onArea_nth, Ha. cbn.
  apply String.eqb_neq in Hne. rewrite Hne. reflexivity.
Qed.

Lemma onArea_fixed (areaId : string) (g : Area -> Area) (l : list Area) :
  (forall a, In a l -> area_id a = areaId -> g a = a) ->
  Garden.onArea areaId g l = l.
Proof.
  intros Hg. unfold Garden.onArea. rewrite <- (map_id l) at 2.
  apply map_ext_in. intros a Ha.
  destruct (String.eqb_spec (area_id a) areaId) as [E|_]; [|reflexivity].
  apply Hg; assumption.
Qed.

Lemma withPlants_same (a : Area) : Garden.withPlants a (area_plants a) = a.
Proof. destruct a. reflexivity. Qed.

Lemma others_after_map (plantId : string) (f : Plant -> Plant)
      (ps : list Plant) :
  (forall p, plant_id (f p) = plant_id p) ->
  filter (fun p => negb (plant_id p =? plantId))
         (map (fun p => if plant_id p =? plantId then f p else p) ps)
  = filter (fun p => negb (plant_id p =? plantId)) ps.
Proof.
  intros Hf. induction ps as [|p ps IH]; [reflexivity|].
  cbn. destruct (plant_id p =? plantId) eqn:E.
  - rewrite Hf, E. cbn. exact IH.
  - rewrite E. cbn. f_equal. exact IH.
Qed.

Lemma ids_after_map (plantId : string) (f : Plant -> Plant) (ps : list Plant) :
  (forall p, plant_id (f p) = plant_id p) ->
  map plant_id (map (fun p => if plant_id p =? plantId then f p else p) ps)
  = map plant_id ps.
Proof.
  intros Hf. rewrite map_map. apply map_ext. intros p.
  destruct (plant_id p =? plantId); [apply Hf|reflexivity].
Qed.

Lemma map_without_target (plantId : string) (f : Plant -> Plant)
      (ps : list Plant) :
  (forall p, In p ps -> plant_id p <> plantId) ->
  map (fun p => if plant_id p =? plantId then f p else p) ps = ps.
Proof.
  intros H. rewrite <- (map_id ps) at 2. apply map_ext_in. intros p Hp.
  apply H in Hp. apply String.eqb_neq in Hp. rewrite Hp. reflexivity.
Qed.

Lemma filter_without_target (plantId : string) (ps : list Plant) :
  (forall p, In p ps -> plant_id p <> plantId) ->
  filter (fun p => negb (plant_id p =? plantId)) ps = ps.
Proof.
  intros H. induction ps as [|p ps IH]; [reflexivity|].
  cbn. assert (Hp : plant_id p <> plantId) by (apply H; left; reflexivity).
  apply String.eqb_neq in Hp. rewrite Hp. cbn. f_equal.
  apply IH. intros q Hq. apply H. right. exact Hq.
Qed.

Lemma filter_twice {A : Type} (t : A -> bool) (l : list A) :
  filter t (filter t l) = filter t l.
Proof.
  induction l as [|x l IH]; [reflexivity|].
  cbn. destruct (t x) eqn:E; [|exact IH]. cbn. rewrite E. f_equal. exact IH.
Qed.

(** Every mutation that names an area maps one function over the areas
    with that id; on the plants it either maps a function over those with
    the plant id, filters those away, or appends. *)
Lemma mutate_shape (m : Mutation) (w : Garden.World) :
  exists g : Area -> Area,
    Garden.areas (mutate m w) = Garden.onArea (targetArea m) g (Garden.areas w)
    /\ (forall a, area_id (g a) = area_id a)
    /\ (forall a,
           match targetPlant m with
           | Some pid =>
               filter (fun p => negb (plant_id p =? pid)) (area_plants (g a))
               = filter (fun p => negb (plant_id p =? pid)) (area_plants a)
               /\ (map plant_id (area_plants (g a)) = map plant_id (area_plants a)
                   \/ area_plants (g a)
                      = filter (fun p => negb (plant_id p =? pid))
                               (area_plants a))
               /\ ((forall p, In p (area_plants a) -> plant_id p <> pid) ->
                   g a = a)
           | None => exists extra, area_plants (g a) = area_plants a ++ extra
           end).
Proof.
  destruct m; cbn [mutate targetArea targetPlant];
    (eexists; split; [reflexivity|]); (split; [reflexivity|]); intros a;
    cbn [area_plants Garden.withPlants].
  - exists []. rewrite app_nil_r. reflexivity.
  - eexists. reflexivity.
  - eexists. reflexivity.
  - split; [apply others_after_map; reflexivity|].
    split; [left; apply ids_after_map; reflexivity|].
    intros H. rewrite map_without_target by exact H. apply withPlants_same.
  - split; [apply others_after_map; reflexivity|].
    split; [left; apply ids_after_map; reflexivity|].
    intros H. rewrite map_without_target by exact H. apply withPlants_same.
  - split; [apply others_after_map; reflexivity|].
    split; [left; apply ids_after_map; reflexivity|].
    intros H. rewrite map_without_target by exact H. apply withPlants_same.
  - split; [apply others_after_map; reflexivity|].
    split; [left; apply ids_after_map; reflexivity|].
    intros H. rewrite map_without_target by exact H. apply withPlants_same.
  - split; [apply filter_twice|]. split; [right; reflexivity|].
    intros H. rewrite filter_without_target by exact H. apply withPlants_same.
Qed.

(** C10. A mutation that names an area keeps the ids of all areas in their
    order and leaves every area with another id exactly as it was; within
    an area a plant-targeted mutation leaves the plants with another id as
    they were and in their order (it either keeps every plant at its place
    or removes the named ones), while the other mutations keep the plants
    and at most append; and with no area of the given id, or no plant of
    the given id in such areas, the areas list is unchanged. *)
Theorem mutations_touch_only_their_target :
  forall (m : Mutation) (w : Garden.World),
    let w' := mutate m w in
    map area_id (Garden.areas w') = map area_id (Garden.areas w)
    /\ (forall i a,
           nth_error (Garden.areas w) i = Some a ->
           area_id a <> targetArea m ->
           nth_error (Garden.areas w') i = Some a)
    /\ (forall i a,
           nth_error (Garden.areas w) i = Some a ->
           exists a',
             nth_error (Garden.areas w') i = Some a'
             /\ match targetPlant m with
                | Some pid =>
                    filter (fun p => negb (plant_id p =? pid)) (area_plants a')
                    = filter (fun p => negb (plant_id p =? pid)) (area_plants a)
                    /\ (map plant_id (area_plants a')
                        = map plant_id (area_plants a)
                        \/ area_plants a'
                           = filter (fun p => negb (plant_id p =? pid))
                                    (area_plants a))
                | None => exists extra, area_plants a' = area_plants a ++ extra
                end)
    /\ ((forall a, In a (Garden.areas w) -> area_id a <> targetArea m) ->
        Garden.areas w' = Garden.areas w)
    /\ (forall pid,
           targetPlant m = Some pid ->
           (forall a p,
               In a (Garden.areas w) -> area_id a = targetArea m ->
               In p (area_plants a) -> plant_id p <> pid) ->
           Garden.areas w' = Garden.areas w).
Proof.
  intros m w. cbn zeta.
  destruct (mutate_shape m w) as (g & Hshape & Hid & Hplants).
  rewrite Hshape. refine (conj _ (conj _ (conj _ (conj _ _)))).
  - apply onArea_ids. exact Hid.
  - intros i a Ha Hne. apply onArea_other; assumption.
  - intros i a Ha. rewrite onArea_nth, Ha. cbn [option_map].
    eexists. split; [reflexivity|].
    destruct (area_id a =? targetArea m).
    + specialize (Hplants a). destruct (targetPlant m) as [pid|].
      * destruct Hplants as (H1 & H2 & _). split; assumption.
      * exact Hplants.
    + destruct (targetPlant m) as [pid|].
      * split; [reflexivity|left; reflexivity].
      * exists []. rewrite app_nil_r. reflexivity.
  - intros Hnone. apply onArea_fixed. intros a Ha E.
    exfalso. exact (Hnone a Ha E).
  - intros pid Hpid Hnone. apply onArea_fixed. intros a Ha E.
    specialize (Hplants a). rewrite Hpid in Hplants.
    destruct Hplants as (_ & _ & Hfix). apply Hfix.
    intros p Hp. exact (Hnone a p Ha E Hp).
Qed.

(* ================================================================= *)
(** ** Integrity of the durable store *)

Section Keys.
Context {R : Type} (key : R -> string).

Lemma hasKey_In (i : string) (l : list R) :
  existsb (fun r => key r =? i) l = true <-> In i (map key l).
Proof.
  rewrite existsb_exists, in_map_iff. split.
  - intros (r & Hr & E). apply String.eqb_eq in E. exists r. auto.
  - intros (r & E & Hr). exists r. split; [exact Hr|].
    apply String.eqb_eq. exact E.
Qed.

Lemma hasKey_false (i : string) (l : list R) :
  existsb (fun r => key r =? i) l = false <-> ~ In i (map key l).
Proof.
  rewrite <- hasKey_In. destruct (existsb _ l); split; intros H;
    try reflexivity; try discriminate; try congruence.
Qed.

Lemma keys_filter (t : R -> bool) (l : list R) :
  NoDup (map key l) -> NoDup (map key (filter t l)).
Proof.
  induction l as [|r l IH]; cbn; intros H; [constructor|].
  inversion H as [|? ? Hnot Hrest]. subst.
  destruct (t r); [|apply IH; exact Hrest].
  cbn. constructor; [|apply IH; exact Hrest].
  intros Hin. apply Hnot. apply in_map_iff in Hin.
  destruct Hin as (x & E & Hx). apply filter_In in Hx.
  apply in_map_iff. exists x. tauto.
Qed.

Lemma keys_snoc (l : list R) (r : R) :
  NoDup (map key l) -> ~ In (key r) (map key l) ->
  NoDup (map key (l ++ [r])).
Proof.
  intros Hl Hr. rewrite map_app. cbn.
  apply NoDup_app; [exact Hl|repeat constructor; auto|].
  intros x Hx [E|[]]. subst. contradiction.
Qed.

Lemma key_unique (l : list R) (x y : R) :
  NoDup (map key l) -> In x l -> In y l -> key x = key y -> x = y.
Proof.
  induction l as [|r l IH]; cbn; intros H Hx Hy E; [contradiction|].
  inversion H as [|? ? Hnot Hrest]. subst.
  destruct Hx as [->|Hx], Hy as [->|Hy].
  - reflexivity.
  - exfalso. apply Hnot. rewrite E. apply in_map. exact Hy.
  - exfalso. apply Hnot. rewrite <- E. apply in_map. exact Hx.
  - apply IH; assumption.
Qed.
End Keys.

Lemma hasArea_In (i : string) (db : Db.Database) :
  Db.hasArea i db = true <-> In i (map Db.ar_id (Db.areas db)).
Proof. apply hasKey_In. Qed.

Lemma hasPlant_In (i : string) (db : Db.Database) :
  Db.hasPlant i db = true <-> In i (map Db.pr_id (Db.plants db)).
Proof. apply hasKey_In. Qed.

Lemma emptyDatabase_integrity : Integrity Db.emptyDatabase.
Proof. constructor; cbn; try constructor; contradiction. Qed.

Lemma insertArea_integrity (i n e c : string) (db db' : Db.Database) :
  Integrity db ->
  Db.insertArea (Some i) (Some n) (Some e) (Some c) db = Db.Ok db' ->
  Integrity db'.
Proof.
  intros [Ha Hp He Hpr Her] H. apply insertArea_ok in H.
  destruct H as [Hfresh ->]. constructor; cbn; try assumption.
  - apply keys_snoc; [exact Ha|]. apply hasKey_false in Hfresh. exact Hfresh.
  - intros p Hin. apply (hasKey_In Db.ar_id). rewrite map_app.
    apply in_or_app. left. apply hasArea_In. apply Hpr. exact Hin.
Qed.

Lemma insertPlant_integrity (i a d : string) (s t c im st : option string)
      (db db' : Db.Database) :
  Integrity db ->
  Db.insertPlant (Some i) (Some a) s t c im (Some d) st db = Db.Ok db' ->
  Integrity db'.
Proof.
  intros [Ha Hp He Hpr Her] H. apply insertPlant_ok in H.
  destruct H as (Hfresh & Harea & ->). constructor; cbn; try assumption.
  - apply keys_snoc; [exact Hp|]. apply hasKey_false in Hfresh. exact Hfresh.
  - intros p Hin. apply in_app_or in Hin. destruct Hin as [Hin|[<-|[]]].
    + apply Hpr. exact Hin.
    + exact Harea.
  - intros x Hin. apply (hasKey_In Db.pr_id). rewrite map_app.
    apply in_or_app. left. apply hasPlant_In. apply Her. exact Hin.
Qed.

Lemma insertJournalEntry_integrity (i p d t ty : string)
      (db db' : Db.Database) :
  Integrity db ->
  Db.insertJournalEntry (Some i) (Some p) (Some d) (Some t) (Some ty) db
  = Db.Ok db' ->
  Integrity db'.
Proof.
  intros [Ha Hp He Hpr Her] H. apply insertJournalEntry_ok in H.
  destruct H as (Hfresh & Hplant & ->). constructor; cbn; try assumption.
  - apply keys_snoc; [exact He|]. apply hasKey_false in Hfresh. exact Hfresh.
  - intros x Hin. apply in_app_or in Hin. destruct Hin as [Hin|[<-|[]]].
    + apply Her. exact Hin.
    + exact Hplant.
Qed.

(** Deleting plant rows together with the journal rows that reference
    them keeps the integrity. *)
Lemma dropPlants_integrity (gone : list Db.PlantRow) (db : Db.Database) :
  Integrity db -> Integrity (Db.dropPlants gone db).
Proof.
  intros [Ha Hp He Hpr Her]. constructor; cbn.
  - exact Ha.
  - apply keys_filter. exact Hp.
  - apply keys_filter. exact He.
  - intros p Hin. apply filter_In in Hin. apply Hpr. tauto.
  - intros e Hin. apply filter_In in Hin. destruct Hin as [Hin Hkeep].
    specialize (Her e Hin). apply hasPlant_In in Her.
    apply in_map_iff in Her. destruct Her as (q & Eq & Hq).
    apply (hasKey_In Db.pr_id). apply in_map_iff. exists q.
    split; [exact Eq|]. apply filter_In. split; [exact Hq|].
    rewrite Eq. exact Hkeep.
Qed.

Lemma deleteArea_integrity (i : string) (db db' : Db.Database) :
  Integrity db -> Db.deleteArea (Some i) db = Db.Ok db' -> Integrity db'.
Proof.
  intros Hint H. cbn in H. inversion H as [E]. clear H E.
  set (gone := Db.plantsOf _ _).
  pose proof (dropPlants_integrity gone db Hint) as [Ha Hp He Hpr Her].
  constructor; cbn; try assumption.
  - apply keys_filter. exact (areaKeys db Hint).
  - intros p Hin. pose proof Hin as Hin'. cbn in Hin'.
    apply filter_In in Hin'. destruct Hin' as [Hp0 Hkeep].
    pose proof (plantRefs db Hint p Hp0) as Href.
    apply hasArea_In in Href. apply in_map_iff in Href.
    destruct Href as (a & Ea & Hain).
    apply (hasKey_In Db.ar_id). apply in_map_iff. exists a.
    split; [exact Ea|]. apply filter_In. split; [exact Hain|].
    destruct (String.eqb_spec (Db.ar_id a) i) as [Ei|_]; [|reflexivity].
    exfalso. apply negb_true_iff in Hkeep.
    assert (Hgone : In p gone).
    { apply filter_In. split; [exact Hp0|]. apply existsb_exists.
      exists a. split.
      - apply filter_In. split; [exact Hain|].
        apply String.eqb_eq. exact Ei.
      - apply String.eqb_eq. exact Ea. }
    assert (Hhit : existsb (fun g => Db.pr_id g =? Db.pr_id p) gone = true).
    { apply existsb_exists. exists p. split; [exact Hgone|].
      apply String.eqb_refl. }
    rewrite Hhit in Hkeep. discriminate.
Qed.

Lemma same_keys_after_map {R : Type} (key : R -> string) (f : R -> R)
      (l : list R) :
  (forall r, key (f r) = key r) -> map key (map f l) = map key l.
Proof. intros H. rewrite map_map. apply map_ext. exact H. Qed.

Lemma updateArea_integrity (i n : string) (e : option string)
      (db db' : Db.Database) :
  Integrity db -> Db.updateArea (Some i) (Some n) e db = Db.Ok db' ->
  Integrity db'.
Proof.
  intros Hint H. unfold Db.updateArea in H.
  destruct (Db.hasArea i db); [|inversion H; subst; exact Hint].
  destruct e as [e|]; [|discriminate]. inversion H as [E]. clear H E.
  destruct Hint as [Ha Hp He Hpr Her].
  assert (Hkeys :
            map Db.ar_id
              (map (fun r => if Db.ar_id r =? i
                             then Db.mkAreaRow (Db.ar_id r) n e
                                               (Db.ar_created_at r)
                             else r) (Db.areas db))
            = map Db.ar_id (Db.areas db)).
  { apply same_keys_after_map. intros r.
    destruct (Db.ar_id r =? i); reflexivity. }
  constructor; cbn; try assumption.
  - rewrite Hkeys. exact Ha.
  - intros p Hin. apply (hasKey_In Db.ar_id). rewrite Hkeys.
    apply hasArea_In. apply Hpr. exact Hin.
Qed.

Lemma updatePlantStage_integrity (i : string) (st : option string)
      (db db' : Db.Database) :
  Integrity db -> Db.updatePlantStage (Some i) st db = Db.Ok db' ->
  Integrity db'.
Proof.
  intros [Ha Hp He Hpr Her] H. cbn in H. inversion H as [E]. clear H E.
  set (f := fun r : Db.PlantRow => if Db.pr_id r =? i then _ else r).
  assert (Hkeys : map Db.pr_id (map f (Db.plants db))
                  = map Db.pr_id (Db.plants db)).
  { apply same_keys_after_map. intros r. unfold f.
    destruct (Db.pr_id r =? i); reflexivity. }
  constructor; cbn; try assumption.
  - rewrite Hkeys. exact Hp.
  - intros p Hin. apply in_map_iff in Hin. destruct Hin as (q & <- & Hq).
    replace (Db.pr_area_id (f q)) with (Db.pr_area_id q)
      by (unfold f; destruct (Db.pr_id q =? i); reflexivity).
    apply Hpr. exact Hq.
  - intros e Hin. apply (hasKey_In Db.pr_id). rewrite Hkeys.
    apply hasPlant_In. apply Her. exact Hin.
Qed.

Lemma journal_filter_integrity (t : Db.JournalRow -> bool) (db : Db.Database) :
  Integrity db ->
  Integrity (Db.withJournal db (filter t (Db.journal_entries db))).
Proof.
  intros [Ha Hp He Hpr Her]. constructor; cbn; try assumption.
  - apply keys_filter. exact He.
  - intros e Hin. apply filter_In in Hin. apply Her. tauto.
Qed.

(** The integrity is an invariant: every write the store can dispatch
    keeps it when it succeeds (and a rejected write changes nothing). *)
Lemma runCall_integrity (c : Persist.DbCall) (db db' : Db.Database) :
  Integrity db -> Persist.runCall c db = Db.Ok db' -> Integrity db'.
Proof.
  intros Hint H. destruct c; cbn [Persist.runCall] in H.
  - destruct id as [i|], name as [n|], emoji as [e|], createdAt as [c|];
      try discriminate.
    exact (insertArea_integrity _ _ _ _ _ _ Hint H).
  - destruct id as [i|]; [|inversion H; subst; exact Hint].
    destruct name as [n|].
    + exact (updateArea_integrity _ _ _ _ _ Hint H).
    + unfold Db.updateArea in H. destruct (Db.hasArea i db);
        [discriminate|inversion H; subst; exact Hint].
  - destruct id as [i|]; [|inversion H; subst; exact Hint].
    exact (deleteArea_integrity _ _ _ Hint H).
  - destruct id as [i|], areaId as [a|], plantedDate as [d|];
      try discriminate.
    exact (insertPlant_integrity _ _ _ _ _ _ _ _ _ _ Hint H).
  - destruct plantId as [i|]; [|inversion H; subst; exact Hint].
    exact (updatePlantStage_integrity _ _ _ _ Hint H).
  - destruct id as [i|]; inversion H; subst; [|exact Hint].
    apply dropPlants_integrity. exact Hint.
  - destruct id as [i|], plantId as [p|], date as [d|], text as [t|],
      type as [ty|]; try discriminate.
    exact (insertJournalEntry_integrity _ _ _ _ _ _ _ Hint H).
  - destruct id as [i|]; inversion H; subst; [|exact Hint].
    apply journal_filter_integrity. exact Hint.
  - unfold Db.deleteLastStageEntry in H.
    destruct (Db.lastStageEntryId plantId db); inversion H; subst;
      [|exact Hint].
    apply journal_filter_integrity. exact Hint.
Qed.

Lemma attempt_integrity (f : bool) (c : Persist.DbCall) (db db' : Db.Database) :
  Integrity db -> Persist.attempt f c db = Db.Ok db' -> Integrity db'.
Proof.
  intros Hint H. apply attempt_ok in H. destruct H as [_ H].
  exact (runCall_integrity c db db' Hint H).
Qed.

Lemma settleEach_integrity (cs : list Persist.DbCall) :
  forall (faults : list bool) (db : Db.Database),
    Integrity db -> Integrity (Persist.settleEach faults cs db).
Proof.
  induction cs as [|c cs IH]; intros faults db Hint; [exact Hint|].
  cbn [Persist.settleEach].
  destruct (Persist.attempt (hd false faults) c db) as [db'|e] eqn:E.
  - apply IH. exact (attempt_integrity _ _ _ _ Hint E).
  - apply IH. exact Hint.
Qed.

Lemma awaitEach_integrity (cs : list Persist.DbCall) :
  forall (faults : list bool) (db : Db.Database),
    Integrity db -> Integrity (fst (Persist.awaitEach faults cs db)).
Proof.
  induction cs as [|c cs IH]; intros faults db Hint; [exact Hint|].
  cbn [Persist.awaitEach].
  destruct (Persist.attempt (hd false faults) c db) as [db'|e] eqn:E.
  - apply IH. exact (attempt_integrity _ _ _ _ Hint E).
  - exact Hint.
Qed.

(** Whatever fails, a settled dispatch leaves a store with integrity. *)
Lemma perform_integrity (faults : list bool) (d : Persist.Dispatch)
      (db : Db.Database) :
  Integrity db -> Integrity (Persist.perform faults d db).
Proof.
  intros Hint. destruct d as [c|cs|cs]; cbn [Persist.perform].
  - apply settleEach_integrity. exact Hint.
  - apply settleEach_integrity. exact Hint.
  - unfold Persist.withTransactionAsync.
    pose proof (awaitEach_integrity cs faults db Hint) as H.
    destruct (Persist.awaitEach faults cs db) as [db' [e|]]; cbn in *;
      assumption.
Qed.

Lemma flush_integrity (ds : list Persist.Dispatch) :
  forall db, Integrity db -> Integrity (Persist.flush ds db).
Proof.
  unfold Persist.flush. induction ds as [|d ds IH]; intros db Hint;
    [exact Hint|].
  cbn [fold_left]. apply IH. apply perform_integrity. exact Hint.
Qed.

(* ================================================================= *)
(** ** Cascading deletes *)

Lemma filter_implied {A : Type} (f g : A -> bool) (l : list A) :
  (forall x, In x l -> f x = true -> g x = true) ->
  filter f (filter g l) = filter f l.
Proof.
  intros H. induction l as [|x l IH]; [reflexivity|].
  assert (IH' : filter f (filter g l) = filter f l).
  { apply IH. intros y Hy. apply H. right. exact Hy. }
  cbn. destruct (g x) eqn:Eg.
  - cbn. rewrite IH'. reflexivity.
  - destruct (f x) eqn:Ef; [|exact IH'].
    rewrite (H x (or_introl eq_refl) Ef) in Eg. discriminate.
Qed.

Lemma filter_of_map {A B : Type} (t : B -> bool) (h : A -> B) (l : list A) :
  filter t (map h l) = map h (filter (fun x => t (h x)) l).
Proof.
  induction l as [|x l IH]; [reflexivity|].
  cbn. destruct (t (h x)); cbn; rewrite IH; reflexivity.
Qed.

Lemma filter_swap {A : Type} (f g : A -> bool) (l : list A) :
  filter f (filter g l) = filter g (filter f l).
Proof.
  induction l as [|x l IH]; [reflexivity|].
  cbn. destruct (f x) eqn:Ef, (g x) eqn:Eg; cbn;
    rewrite ?Ef, ?Eg, IH; reflexivity.
Qed.

(** A plant row is among the rows [deletePlant] removes exactly when it
    has the id. *)
Lemma gone_by_id (plantId key : string) (t : list Db.PlantRow) :
  existsb (fun g => Db.pr_id g =? key)
          (filter (fun r => Db.pr_id r =? plantId) t) = true ->
  key = plantId.
Proof.
  intros H. apply existsb_exists in H. destruct H as (g & Hg & E).
  apply filter_In in Hg. destruct Hg as [_ Hid].
  apply String.eqb_eq in E. apply String.eqb_eq in Hid. congruence.
Qed.

(** With unique plant ids, no plant of another area is among the rows a
    delete of area [i] removes. *)
Lemma not_gone_with_area (i : string) (db : Db.Database) (p : Db.PlantRow) :
  Integrity db -> In p (Db.plants db) -> Db.pr_area_id p <> i ->
  existsb (fun g => Db.pr_id g =? Db.pr_id p)
          (Db.plantsOf (filter (fun r => Db.ar_id r =? i) (Db.areas db))
                       (Db.plants db))
  = false.
Proof.
  intros Hint Hp Hne.
  destruct (existsb _ _) eqn:E; [|reflexivity]. exfalso.
  apply existsb_exists in E. destruct E as (g & Hg & Eid).
  apply String.eqb_eq in Eid. unfold Db.plantsOf in Hg.
  apply filter_In in Hg. destruct Hg as [Hgin Hhit].
  assert (g = p)
    by exact (key_unique Db.pr_id _ g p (plantKeys db Hint) Hgin Hp Eid).
  subst g. apply existsb_exists in Hhit. destruct Hhit as (a & Ha & Ea).
  apply filter_In in Ha. destruct Ha as [_ Hai].
  apply String.eqb_eq in Ea. apply String.eqb_eq in Hai. congruence.
Qed.

Lemma loadAllAreas_deleteArea (i : string) (db db' : Db.Database) :
  Integrity db -> Db.deleteArea (Some i) db = Db.Ok db' ->
  Db.loadAllAreas db'
  = filter (fun a => negb (area_id a =? i)) (Db.loadAllAreas db).
Proof.
  intros Hint H. cbn in H. inversion H as [E]. clear H E.
  unfold Db.loadAllAreas. rewrite filter_of_map.
  cbn [Db.areas Db.withAreas area_id Db.areaOfRow].
  apply map_ext_in. intros r Hr. apply filter_In in Hr.
  destruct Hr as [Hr Hne]. apply negb_true_iff in Hne.
  apply String.eqb_neq in Hne.
  unfold Db.areaOfRow. f_equal.
  unfold Db.plantRowsOf.
  cbn [Db.plants Db.withAreas Db.withPlants Db.withJournal Db.dropPlants].
  rewrite filter_implied.
  - apply map_ext_in. intros p Hp. apply filter_In in Hp.
    destruct Hp as [Hp Harea]. apply String.eqb_eq in Harea.
    unfold Db.plantOfRow. f_equal. f_equal. unfold Db.journalRowsOf.
    cbn [Db.journal_entries Db.withAreas Db.withPlants Db.withJournal
           Db.dropPlants].
    apply filter_implied. intros e _ He. apply String.eqb_eq in He.
    rewrite He. rewrite (not_gone_with_area i db p Hint Hp); [reflexivity|].
    congruence.
  - intros p Hp Harea. apply String.eqb_eq in Harea.
    rewrite (not_gone_with_area i db p Hint Hp); [reflexivity|]. congruence.
Qed.

Lemma loadAllAreas_deletePlant (i : string) (db db' : Db.Database) :
  Db.deletePlant (Some i) db = Db.Ok db' ->
  Db.loadAllAreas db'
  = map (fun a => Garden.withPlants a
                    (filter (fun p => negb (plant_id p =? i)) (area_plants a)))
        (Db.loadAllAreas db).
Proof.
  intros H. cbn in H. inversion H as [E]. clear H E.
  unfold Db.loadAllAreas. rewrite map_map.
  cbn [Db.areas Db.withPlants Db.withJournal Db.dropPlants].
  apply map_ext. intros r. unfold Db.areaOfRow, Garden.withPlants.
  cbn [area_id area_name area_emoji area_createdAt area_plants]. f_equal.
  rewrite filter_of_map. cbn [plant_id Db.plantOfRow].
  unfold Db.plantRowsOf.
  cbn [Db.plants Db.withPlants Db.withJournal Db.dropPlants].
  assert (Hkeep :
            filter (fun p => negb (existsb (fun g => Db.pr_id g =? Db.pr_id p)
                                     (filter (fun r => Db.pr_id r =? i)
                                             (Db.plants db))))
                   (Db.plants db)
            = filter (fun p => negb (Db.pr_id p =? i)) (Db.plants db)).
  { apply filter_ext_in. intros p Hp. f_equal.
    destruct (String.eqb_spec (Db.pr_id p) i) as [Ei|Eni].
    - apply existsb_exists. exists p. split; [|apply String.eqb_refl].
      apply filter_In. split; [exact Hp|]. apply String.eqb_eq. exact Ei.
    - destruct (existsb _ _) eqn:Ex; [|reflexivity].
      apply gone_by_id in Ex. contradiction. }
  rewrite Hkeep, filter_swap.
  apply map_ext_in. intros p Hp. apply filter_In in Hp.
  destruct Hp as [_ Hne]. apply negb_true_iff in Hne.
  apply String.eqb_neq in Hne.
  unfold Db.plantOfRow. f_equal. f_equal. unfold Db.journalRowsOf.
  cbn [Db.journal_entries Db.withPlants Db.withJournal Db.dropPlants].
  apply filter_implied. intros e _ He. apply String.eqb_eq in He.
  rewrite He. destruct (existsb _ _) eqn:Ex; [|reflexivity].
  apply gone_by_id in Ex. contradiction.
Qed.

(** Rows removed by [dropPlants] leave no plant row and no journal row
    behind. *)
Lemma dropPlants_removes (gone : list Db.PlantRow) (db : Db.Database)
      (g : Db.PlantRow) :
  In g gone ->
  Db.hasPlant (Db.pr_id g) (Db.dropPlants gone db) = false
  /\ forall e, In e (Db.journal_entries (Db.dropPlants gone db)) ->
               Db.jr_plant_id e <> Db.pr_id g.
Proof.
  intros Hg.
  assert (Hhit : forall k, k = Db.pr_id g ->
                           existsb (fun x => Db.pr_id x =? k) gone = true).
  { intros k ->. apply existsb_exists. exists g.
    split; [exact Hg|apply String.eqb_refl]. }
  split.
  - apply (hasKey_false Db.pr_id). cbn. intros Hin.
    apply in_map_iff in Hin. destruct Hin as (x & Ex & Hx).
    apply filter_In in Hx. destruct Hx as [_ Hkeep].
    rewrite (Hhit (Db.pr_id x) Ex) in Hkeep. discriminate.
  - cbn. intros e He Eq. apply filter_In in He. destruct He as [_ Hkeep].
    rewrite (Hhit (Db.jr_plant_id e) Eq) in Hkeep. discriminate.
Qed.

(** Every loaded plant comes from a plant row. *)
Lemma loaded_plant_has_row (db : Db.Database) (a : Area) (q : Plant) :
  In a (Db.loadAllAreas db) -> In q (area_plants a) ->
  Db.hasPlant (plant_id q) db = true.
Proof.
  unfold Db.loadAllAreas. intros Ha Hq. apply in_map_iff in Ha.
  destruct Ha as (r & <- & _). cbn in Hq. apply in_map_iff in Hq.
  destruct Hq as (p & <- & Hp). apply filter_In in Hp.
  apply hasPlant_In. cbn. apply in_map. tauto.
Qed.

(** C8. On a store with integrity, [deleteArea(id)] succeeds and a
    following [loadAllAreas] returns what it returned before without the
    areas of that id; no plant row of the area is left, no journal row of
    any of those plants, and no loaded area holds one of those plants.
    [deletePlant(id)] succeeds and a following [loadAllAreas] returns every
    area as before with the plant of that id filtered out of its plants,
    the other plants with their journals as they were; no journal row of
    the deleted plant is left.  Both leave a store with integrity, so no
    row is left without its parent. *)
Theorem deletes_cascade :
  forall (db : Db.Database) (id : string),
    Integrity db ->
    (exists db',
        Db.deleteArea (Some id) db = Db.Ok db'
        /\ Db.loadAllAreas db'
           = filter (fun a => negb (area_id a =? id)) (Db.loadAllAreas db)
        /\ (forall a, In a (Db.loadAllAreas db') -> area_id a <> id)
        /\ (forall p,
               In p (Db.plants db) -> Db.pr_area_id p = id ->
               Db.hasPlant (Db.pr_id p) db' = false
               /\ (forall e, In e (Db.journal_entries db') ->
                             Db.jr_plant_id e <> Db.pr_id p)
               /\ (forall a q, In a (Db.loadAllAreas db') ->
                               In q (area_plants a) ->
                               plant_id q <> Db.pr_id p))
        /\ Integrity db')
    /\ (exists db',
           Db.deletePlant (Some id) db = Db.Ok db'
           /\ Db.loadAllAreas db'
              = map (fun a => Garden.withPlants a
                                (filter (fun p => negb (plant_id p =? id))
                                        (area_plants a)))
                    (Db.loadAllAreas db)
           /\ Db.hasPlant id db' = false
           /\ (forall e, In e (Db.journal_entries db') ->
                         Db.jr_plant_id e <> id)
           /\ Integrity db').
Proof.
  intros db id Hint. split.
  - destruct (Db.deleteArea (Some id) db) as [db'|e] eqn:Hdel;
      [|discriminate].
    exists db'. split; [reflexivity|].
    pose proof (loadAllAreas_deleteArea id db db' Hint Hdel) as Hload.
    split; [exact Hload|]. split.
    { intros a Ha. rewrite Hload in Ha. apply filter_In in Ha.
      destruct Ha as [_ Hne]. apply negb_true_iff in Hne.
      apply String.eqb_neq. exact Hne. }
    split; [|exact (deleteArea_integrity id db db' Hint Hdel)].
    intros p Hp Harea.
    assert (Hrows :
              Db.hasPlant (Db.pr_id p) db' = false
              /\ forall e, In e (Db.journal_entries db') ->
                           Db.jr_plant_id e <> Db.pr_id p).
    { cbn in Hdel. inversion Hdel as [E]. clear Hdel E Hload.
      set (gone := Db.plantsOf _ _).
      assert (Hgone : In p gone).
      { apply filter_In. split; [exact Hp|].
        pose proof (plantRefs db Hint p Hp) as Href.
        apply hasArea_In in Href. apply in_map_iff in Href.
        destruct Href as (a & Ea & Ha). apply existsb_exists. exists a.
        split; [|apply String.eqb_eq; exact Ea].
        apply filter_In. split; [exact Ha|].
        apply String.eqb_eq. congruence. }
      exact (dropPlants_removes gone db p Hgone). }
    destruct Hrows as [Hrow Hjournal].
    split; [exact Hrow|]. split; [exact Hjournal|].
    intros a q Ha Hq Eq.
    pose proof (loaded_plant_has_row db' a q Ha Hq) as Hhas.
    rewrite Eq, Hrow in Hhas. discriminate.
  - destruct (Db.deletePlant (Some id) db) as [db'|e] eqn:Hdel;
      [|discriminate].
    exists db'. split; [reflexivity|].
    split; [exact (loadAllAreas_deletePlant id db db' Hdel)|].
    assert (Hint' : Integrity db').
    { cbn in Hdel. inversion Hdel. apply dropPlants_integrity. exact Hint. }
    assert (Hrow : Db.hasPlant id db' = false).
    { cbn in Hdel. inversion Hdel as [E]. clear Hdel E.
      apply (hasKey_false Db.pr_id). cbn. intros Hin.
      apply in_map_iff in Hin. destruct Hin as (x & Ex & Hx).
      apply filter_In in Hx. destruct Hx as [Hx Hkeep].
      assert (Hhit : existsb (fun g => Db.pr_id g =? Db.pr_id x)
                             (filter (fun r => Db.pr_id r =? id)
                                     (Db.plants db)) = true).
      { apply existsb_exists. exists x. split; [|apply String.eqb_refl].
        apply filter_In. split; [exact Hx|]. apply String.eqb_eq. exact Ex. }
      rewrite Hhit in Hkeep. discriminate. }
    split; [exact Hrow|]. split; [|exact Hint'].
    intros e He Eq. pose proof (entryRefs db' Hint' e He) as Href.
    rewrite Eq, Hrow in Href. discriminate.
Qed.

Lemma deletes_cascade_witness :
  Integrity Sample.grownDb
  /\ map area_id (Db.loadAllAreas Sample.grownDb) = ["a"]
  /\ (exists db',
         Db.deleteArea (Some "a") Sample.grownDb = Db.Ok db'
         /\ Db.loadAllAreas db'
            = filter (fun a => negb (area_id a =? "a"))
                     (Db.loadAllAreas Sample.grownDb))
  /\ (exists db',
         Db.deletePlant (Some "b") Sample.grownDb = Db.Ok db'
         /\ Db.loadAllAreas db'
            = map (fun a => Garden.withPlants a
                              (filter (fun p => negb (plant_id p =? "b"))
                                      (area_plants a)))
                  (Db.loadAllAreas Sample.grownDb)).
Proof.
  assert (Hint : Integrity Sample.grownDb)
    by (apply flush_integrity; exact emptyDatabase_integrity).
  split; [exact Hint|]. split; [reflexivity|].
  destruct (deletes_cascade Sample.grownDb "a" Hint)
    as [(db1 & H1 & L1 & _) _].
  destruct (deletes_cascade Sample.grownDb "b" Hint)
    as [_ (db2 & H2 & L2 & _)].
  split; [exists db1|exists db2]; split; assumption.
Defined.

(* ================================================================= *)
(** ** Round trips *)

(** *** The JSON text of an array of strings *)

Lemma run_app (a b : list ascii) :
  forall st,
    Json.run st (a ++ b)
    = match Json.run st a with
      | Some st' => Json.run st' b
      | None => None
      end.
Proof.
  induction a as [|c a IH]; intros st; [reflexivity|].
  cbn [app Json.run]. destruct (Json.step st c); [apply IH|reflexivity].
Qed.

(** Reading the escaped form of a byte puts the byte itself on the
    string being read. *)
Lemma run_escapeChar (c : ascii) (done : list string) (acc : list ascii) :
  Json.run (Json.InString done acc) (Json.escapeChar c)
  = Some (Json.InString done (c :: acc)).
Proof.
  destruct c as [[] [] [] [] [] [] [] []]; vm_compute; reflexivity.
Qed.

Lemma run_escaped (cs : list ascii) :
  forall (done : list string) (acc : list ascii),
    Json.run (Json.InString done acc) (flat_map Json.escapeChar cs)
    = Some (Json.InString done (rev cs ++ acc)).
Proof.
  induction cs as [|c cs IH]; intros done acc; [reflexivity|].
  cbn [flat_map]. rewrite run_app, run_escapeChar, IH.
  cbn [rev]. rewrite <- app_assoc. reflexivity.
Qed.

Lemma run_quoteString (s : string) (done : list string) (rest : list ascii) :
  Json.run (Json.AfterComma done) (Json.quoteString s ++ rest)
  = Json.run (Json.AfterValue (s :: done)) rest.
Proof.
  unfold Json.quoteString. cbn [app Json.run].
  change (Json.step (Json.AfterComma done) Json.quote)
    with (Some (Json.InString done [])).
  cbn iota. rewrite <- app_assoc, run_app, run_escaped. cbn [app Json.run].
  change (Json.step (Json.InString done (rev (list_ascii_of_string s) ++ []))
                    Json.quote)
    with (Some (Json.finishString done (rev (list_ascii_of_string s) ++ []))).
  cbn iota. unfold Json.finishString.
  rewrite app_nil_r, rev_involutive, string_of_list_ascii_of_string.
  reflexivity.
Qed.

Lemma run_elements (rest : list string) :
  forall (s : string) (done : list string),
    Json.run (Json.AfterComma done)
             (Json.joinComma (map Json.quoteString (s :: rest)) ++ ["]"%char])
    = Some (Json.AtEnd (rev rest ++ s :: done)).
Proof.
  induction rest as [|s' rest IH]; intros s done.
  - cbn [map Json.joinComma]. rewrite run_quoteString. reflexivity.
  - change (Json.joinComma (map Json.quoteString (s :: s' :: rest)))
      with (Json.quoteString s
              ++ ","%char :: Json.joinComma (map Json.quoteString (s' :: rest))).
    rewrite <- app_assoc, run_quoteString. cbn [app Json.run].
    change (Json.step (Json.AfterValue (s :: done)) ","%char)
      with (Some (Json.AfterComma (s :: done))).
    cbn iota. rewrite IH. cbn [rev]. rewrite <- app_assoc. reflexivity.
Qed.

(** [JSON.parse(JSON.stringify(arr))] is [arr], for every array of
    strings. *)
Lemma parse_stringify (arr : list string) :
  Json.parse (Json.stringify arr) = Some arr.
Proof.
  unfold Json.parse, Json.stringify.
  rewrite list_ascii_of_string_of_list_ascii. cbn [Json.run].
  change (Json.step Json.AtStart "["%char) with (Some Json.AfterOpen).
  cbn iota. destruct arr as [|s rest]; [reflexivity|].
  assert (Hfirst :
            forall x, Json.run Json.AfterOpen (Json.quoteString s ++ x)
                      = Json.run (Json.AfterComma []) (Json.quoteString s ++ x))
    by reflexivity.
  destruct rest as [|s' rest].
  - cbn [map Json.joinComma]. rewrite Hfirst, run_quoteString. reflexivity.
  - change (Json.joinComma (map Json.quoteString (s :: s' :: rest)))
      with (Json.quoteString s
              ++ ","%char :: Json.joinComma (map Json.quoteString (s' :: rest))).
    rewrite <- app_assoc, Hfirst.
    pose proof (run_elements (s' :: rest) s []) as H.
    change (Json.joinComma (map Json.quoteString (s :: s' :: rest)))
      with (Json.quoteString s
              ++ ","%char :: Json.joinComma (map Json.quoteString (s' :: rest)))
      in H.
    rewrite <- app_assoc in H. rewrite H.
    rewrite rev_app_distr, rev_involutive. reflexivity.
Qed.

Lemma stringify_truthy (arr : list string) :
  Js.truthy (Json.stringify arr) = true.
Proof. reflexivity. Qed.

Example parse_reads_escapes :
  Json.parse (Json.stringify ["Spring"; "Late summer"; EmptyString])
  = Some ["Spring"; "Late summer"; EmptyString]
  /\ Json.parse "[ ]" = Some []
  /\ Json.parse "[1]" = None.
Proof. repeat split. Qed.

(** *** Areas, plants and journals *)

Lemma andThen_ok (r : Db.Result Db.Database)
      (k : Db.Database -> Db.Result Db.Database) (db' : Db.Database) :
  andThen r k = Db.Ok db' -> exists db1, r = Db.Ok db1 /\ k db1 = Db.Ok db'.
Proof.
  destruct r as [db1|e]; cbn; [|discriminate]. intros H. exists db1. auto.
Qed.

Lemma writeJournal_tables (plantId : string) (es : list JournalEntry) :
  forall db db',
    writeJournal plantId es db = Db.Ok db' ->
    Db.areas db' = Db.areas db /\ Db.plants db' = Db.plants db
    /\ Db.journal_entries db'
       = Db.journal_entries db ++ map (rowOfEntry plantId) es.
Proof.
  induction es as [|e es IH]; intros db db' H.
  - inversion H. subst. rewrite app_nil_r. auto.
  - cbn [writeJournal] in H. apply andThen_ok in H.
    destruct H as (db1 & H1 & H2). apply insertJournalEntry_ok in H1.
    destruct H1 as (_ & _ & ->). apply IH in H2.
    destruct H2 as (Ha & Hp & Hj). rewrite Ha, Hp, Hj. cbn.
    rewrite <- app_assoc. auto.
Qed.

Lemma writeJournal_integrity (plantId : string) (es : list JournalEntry) :
  forall db db',
    Integrity db -> writeJournal plantId es db = Db.Ok db' -> Integrity db'.
Proof.
  induction es as [|e es IH]; intros db db' Hint H.
  - inversion H. subst. exact Hint.
  - cbn [writeJournal] in H. apply andThen_ok in H.
    destruct H as (db1 & H1 & H2).
    apply (IH db1 db'); [|exact H2].
    exact (insertJournalEntry_integrity _ _ _ _ _ _ _ Hint H1).
Qed.

Lemma writePlants_tables (areaId : string) (ps : list Plant) :
  forall db db',
    writePlants areaId ps db = Db.Ok db' ->
    Db.areas db' = Db.areas db
    /\ Db.plants db' = Db.plants db ++ map (rowOfPlant areaId) ps
    /\ Db.journal_entries db'
       = Db.journal_entries db ++ journalRowsForPlants ps.
Proof.
  induction ps as [|p ps IH]; intros db db' H.
  - inversion H. subst. cbn. rewrite !app_nil_r. auto.
  - cbn [writePlants] in H. apply andThen_ok in H.
    destruct H as (db2 & H12 & H3). apply andThen_ok in H12.
    destruct H12 as (db1 & H1 & H2). apply insertPlant_ok in H1.
    destruct H1 as (_ & _ & ->). apply writeJournal_tables in H2.
    destruct H2 as (Ha2 & Hp2 & Hj2). apply IH in H3.
    destruct H3 as (Ha & Hp & Hj). rewrite Ha, Hp, Hj, Ha2, Hp2, Hj2.
    cbn. rewrite <- !app_assoc. auto.
Qed.

Lemma writePlants_integrity (areaId : string) (ps : list Plant) :
  forall db db',
    Integrity db -> writePlants areaId ps db = Db.Ok db' -> Integrity db'.
Proof.
  induction ps as [|p ps IH]; intros db db' Hint H.
  - inversion H. subst. exact Hint.
  - cbn [writePlants] in H. apply andThen_ok in H.
    destruct H as (db2 & H12 & H3). apply andThen_ok in H12.
    destruct H12 as (db1 & H1 & H2).
    apply (IH db2 db'); [|exact H3].
    apply (writeJournal_integrity (plant_id p) (plant_journal p) db1 db2);
      [|exact H2].
    exact (insertPlant_integrity _ _ _ _ _ _ _ _ _ _ Hint H1).
Qed.

Lemma writeAreas_tables (l : list Area) :
  forall db db',
    writeAreas l db = Db.Ok db' ->
    Db.areas db' = Db.areas db ++ map rowOfArea l
    /\ Db.plants db' = Db.plants db ++ plantRowsFor l
    /\ Db.journal_entries db' = Db.journal_entries db ++ journalRowsFor l.
Proof.
  induction l as [|a l IH]; intros db db' H.
  - inversion H. subst. cbn. rewrite !app_nil_r. auto.
  - cbn [writeAreas] in H. apply andThen_ok in H.
    destruct H as (db2 & H12 & H3). apply andThen_ok in H12.
    destruct H12 as (db1 & H1 & H2). apply insertArea_ok in H1.
    destruct H1 as (_ & ->). apply writePlants_tables in H2.
    destruct H2 as (Ha2 & Hp2 & Hj2). apply IH in H3.
    destruct H3 as (Ha & Hp & Hj). rewrite Ha, Hp, Hj, Ha2, Hp2, Hj2.
    cbn. rewrite <- !app_assoc. auto.
Qed.

Lemma writeAreas_integrity (l : list Area) :
  forall db db',
    Integrity db -> writeAreas l db = Db.Ok db' -> Integrity db'.
Proof.
  induction l as [|a l IH]; intros db db' Hint H.
  - inversion H. subst. exact Hint.
  - cbn [writeAreas] in H. apply andThen_ok in H.
    destruct H as (db2 & H12 & H3). apply andThen_ok in H12.
    destruct H12 as (db1 & H1 & H2).
    apply (IH db2 db'); [|exact H3].
    apply (writePlants_integrity (area_id a) (area_plants a) db1 db2);
      [|exact H2].
    exact (insertArea_integrity _ _ _ _ _ _ Hint H1).
Qed.

Lemma filter_none {A : Type} (f : A -> bool) (l : list A) :
  (forall x, In x l -> f x = false) -> filter f l = [].
Proof.
  intros H. induction l as [|x l IH]; [reflexivity|].
  cbn. rewrite (H x (or_introl eq_refl)). apply IH.
  intros y Hy. apply H. right. exact Hy.
Qed.

Lemma filter_all {A : Type} (f : A -> bool) (l : list A) :
  (forall x, In x l -> f x = true) -> filter f l = l.
Proof.
  intros H. induction l as [|x l IH]; [reflexivity|].
  cbn. rewrite (H x (or_introl eq_refl)). f_equal. apply IH.
  intros y Hy. apply H. right. exact Hy.
Qed.

Lemma NoDup_app_inv {A : Type} (l1 l2 : list A) :
  NoDup (l1 ++ l2) ->
  NoDup l1 /\ NoDup l2 /\ forall x, In x l1 -> ~ In x l2.
Proof.
  induction l1 as [|y l1 IH]; cbn; intros H.
  - repeat split; [constructor|exact H|contradiction].
  - inversion H as [|? ? Hnot Hrest]. subst.
    destruct (IH Hrest) as (H1 & H2 & Hdis). repeat split.
    + constructor; [|exact H1]. intros Hin. apply Hnot.
      apply in_or_app. left. exact Hin.
    + exact H2.
    + intros x [->|Hx] Hx2.
      * apply Hnot. apply in_or_app. right. exact Hx2.
      * exact (Hdis x Hx Hx2).
Qed.

Section ByParent.
Context {A B : Type} (keyA : A -> string) (keyB : B -> string)
        (f : A -> list B).

(** Children grouped under parents with distinct keys: selecting by a
    parent's key gives that parent's children, in their order. *)
Lemma children_of_none (l : list A) (x : string) :
  (forall y b, In y l -> In b (f y) -> keyB b = keyA y) ->
  ~ In x (map keyA l) ->
  filter (fun b => keyB b =? x) (flat_map f l) = [].
Proof.
  intros Hkey Hx. apply filter_none. intros b Hb.
  apply in_flat_map in Hb. destruct Hb as (y & Hy & Hb).
  apply String.eqb_neq. rewrite (Hkey y b Hy Hb). intros E.
  apply Hx. rewrite <- E. apply in_map. exact Hy.
Qed.

Lemma children_of_one (l : list A) (a : A) :
  (forall y b, In y l -> In b (f y) -> keyB b = keyA y) ->
  NoDup (map keyA l) -> In a l ->
  filter (fun b => keyB b =? keyA a) (flat_map f l) = f a.
Proof.
  induction l as [|y l IH]; intros Hkey Hnd Ha; [contradiction|].
  cbn [map] in Hnd. inversion Hnd as [|? ? Hnot Hrest]. subst.
  cbn [flat_map]. rewrite filter_app.
  assert (Hkey' : forall z b, In z l -> In b (f z) -> keyB b = keyA z)
    by (intros z b Hz; apply Hkey; right; exact Hz).
  destruct Ha as [->|Ha].
  - rewrite (children_of_none l (keyA a) Hkey' Hnot), app_nil_r.
    apply filter_all. intros b Hb. apply String.eqb_eq.
    apply (Hkey a b); [left; reflexivity|exact Hb].
  - rewrite (IH Hkey' Hrest Ha).
    rewrite filter_none; [reflexivity|].
    intros b Hb. apply String.eqb_neq.
    rewrite (Hkey y b (or_introl eq_refl) Hb). intros E.
    apply Hnot. rewrite E. apply in_map. exact Ha.
Qed.
End ByParent.

Lemma journalRowsFor_flat (l : list Area) :
  journalRowsFor l = journalRowsForPlants (flat_map area_plants l).
Proof.
  unfold journalRowsFor, journalRowsForPlants.
  induction l as [|a l IH]; [reflexivity|].
  cbn [flat_map]. rewrite flat_map_app, IH. reflexivity.
Qed.

Lemma plantRowsFor_ids (l : list Area) :
  map Db.pr_id (plantRowsFor l) = map plant_id (flat_map area_plants l).
Proof.
  unfold plantRowsFor. induction l as [|a l IH]; [reflexivity|].
  cbn [flat_map]. rewrite !map_app, IH, map_map. reflexivity.
Qed.

(** A store with integrity holds no plant of an area it does not have,
    and no journal entry of a plant it does not have. *)
Lemma no_plants_of_unknown_area (db : Db.Database) (x : string) :
  Integrity db -> ~ In x (map Db.ar_id (Db.areas db)) ->
  filter (fun p => Db.pr_area_id p =? x) (Db.plants db) = [].
Proof.
  intros Hint Hx. apply filter_none. intros p Hp.
  apply String.eqb_neq. intros E. apply Hx. rewrite <- E.
  apply hasArea_In. exact (plantRefs db Hint p Hp).
Qed.

Lemma no_entries_of_unknown_plant (db : Db.Database) (x : string) :
  Integrity db -> ~ In x (map Db.pr_id (Db.plants db)) ->
  filter (fun e => Db.jr_plant_id e =? x) (Db.journal_entries db) = [].
Proof.
  intros Hint Hx. apply filter_none. intros e He.
  apply String.eqb_neq. intros E. apply Hx. rewrite <- E.
  apply hasPlant_In. exact (entryRefs db Hint e He).
Qed.

(** What [loadAllAreas] returns once a collection has been appended to
    the three tables of a store with integrity. *)
Lemma load_written (l : list Area) (db db' : Db.Database) :
  Integrity db -> Integrity db' ->
  Db.areas db' = Db.areas db ++ map rowOfArea l ->
  Db.plants db' = Db.plants db ++ plantRowsFor l ->
  Db.journal_entries db' = Db.journal_entries db ++ journalRowsFor l ->
  Db.loadAllAreas db' = Db.loadAllAreas db ++ l.
Proof.
  intros Hint Hint' Ha Hp Hj.
  pose proof (areaKeys db' Hint') as HA. rewrite Ha, map_app, map_map in HA.
  change (map (fun x => Db.ar_id (rowOfArea x)) l) with (map area_id l) in HA.
  apply NoDup_app_inv in HA. destruct HA as (_ & HAnew & HAdis).
  pose proof (plantKeys db' Hint') as HP.
  rewrite Hp, map_app, plantRowsFor_ids in HP.
  apply NoDup_app_inv in HP. destruct HP as (_ & HPnew & HPdis).
  assert (HkeyP :
            forall y b, In y l ->
                        In b (map (rowOfPlant (area_id y)) (area_plants y)) ->
                        Db.pr_area_id b = area_id y).
  { intros y b _ Hb. apply in_map_iff in Hb. destruct Hb as (q & <- & _).
    reflexivity. }
  assert (HkeyJ :
            forall y b, In y (flat_map area_plants l) ->
                        In b (map (rowOfEntry (plant_id y)) (plant_journal y)) ->
                        Db.jr_plant_id b = plant_id y).
  { intros y b _ Hb. apply in_map_iff in Hb. destruct Hb as (q & <- & _).
    reflexivity. }
  assert (Hplants :
            forall x, Db.plantRowsOf x db'
                      = Db.plantRowsOf x db
                        ++ filter (fun p => Db.pr_area_id p =? x)
                                  (plantRowsFor l)).
  { intros x. unfold Db.plantRowsOf. rewrite Hp. apply filter_app. }
  assert (Hjournal :
            forall x, Db.journalRowsOf x db'
                      = Db.journalRowsOf x db
                        ++ filter (fun e => Db.jr_plant_id e =? x)
                                  (journalRowsForPlants (flat_map area_plants l))).
  { intros x. unfold Db.journalRowsOf.
    rewrite Hj, journalRowsFor_flat. apply filter_app. }
  unfold Db.loadAllAreas. rewrite Ha, map_app. f_equal.
  - (* the areas the store held before *)
    apply map_ext_in. intros r Hr. unfold Db.areaOfRow. f_equal.
    rewrite Hplants. unfold plantRowsFor.
    rewrite (children_of_none area_id Db.pr_area_id _ l (Db.ar_id r) HkeyP),
      app_nil_r.
    2:{ apply HAdis. apply in_map. exact Hr. }
    apply map_ext_in. intros p Hpin. apply filter_In in Hpin.
    destruct Hpin as [Hpin _]. unfold Db.plantOfRow. f_equal. f_equal.
    rewrite Hjournal. unfold journalRowsForPlants.
    rewrite (children_of_none plant_id Db.jr_plant_id _ _ (Db.pr_id p) HkeyJ),
      app_nil_r; [reflexivity|].
    apply HPdis. apply in_map. exact Hpin.
  - (* the areas written *)
    rewrite map_map. rewrite <- (map_id l) at 2.
    apply map_ext_in. intros a Hain.
    assert (Hfresh : ~ In (area_id a) (map Db.ar_id (Db.areas db))).
    { intros Hold. apply (HAdis (area_id a) Hold). apply in_map. exact Hain. }
    unfold Db.areaOfRow.
    change (Db.ar_id (rowOfArea a)) with (area_id a).
    rewrite Hplants. unfold Db.plantRowsOf at 1.
    rewrite (no_plants_of_unknown_area db (area_id a) Hint Hfresh).
    cbn [app]. unfold plantRowsFor.
    rewrite (children_of_one area_id Db.pr_area_id _ l a HkeyP HAnew Hain).
    rewrite map_map. destruct a as [aid aname aemoji acreated aplants].
    cbn [rowOfArea Db.ar_id Db.ar_name Db.ar_emoji Db.ar_created_at
           area_id area_name area_emoji area_createdAt area_plants] in *.
    f_equal. rewrite <- (map_id aplants) at 2.
    apply map_ext_in. intros p Hpin.
    assert (Hpall : In p (flat_map area_plants l)).
    { apply in_flat_map. eexists. split; [exact Hain|exact Hpin]. }
    assert (Hpfresh : ~ In (plant_id p) (map Db.pr_id (Db.plants db))).
    { intros Hold. apply (HPdis (plant_id p) Hold). apply in_map. exact Hpall. }
    unfold Db.plantOfRow.
    change (Db.pr_id (rowOfPlant aid p)) with (plant_id p).
    rewrite Hjournal. unfold Db.journalRowsOf at 1.
    rewrite (no_entries_of_unknown_plant db (plant_id p) Hint Hpfresh).
    cbn [app]. unfold journalRowsForPlants.
    rewrite (children_of_one plant_id Db.jr_plant_id _ _ p HkeyJ HPnew Hpall).
    rewrite map_map. destruct p as [pid s1 s2 s3 s4 pd st pj].
    cbn [rowOfPlant Db.pr_id Db.pr_seed_id Db.pr_seed_title
           Db.pr_seed_category Db.pr_seed_image Db.pr_planted_date
           Db.pr_stage plant_id plant_seedId plant_seedTitle
           plant_seedCategory plant_seedImage plant_plantedDate plant_stage
           plant_journal].
    f_equal. rewrite <- (map_id pj) at 2. apply map_ext.
    intros [eid edate etext etype]. reflexivity.
Qed.

(** Areas written with the insert functions are loaded back as they
    were, after whatever the store held before. *)
Lemma write_then_load (l : list Area) (db db' : Db.Database) :
  Integrity db -> writeAreas l db = Db.Ok db' ->
  Db.loadAllAreas db' = Db.loadAllAreas db ++ l.
Proof.
  intros Hint H.
  pose proof (writeAreas_integrity l db db' Hint H) as Hint'.
  destruct (writeAreas_tables l db db' H) as (Ha & Hp & Hj).
  exact (load_written l db db' Hint Hint' Ha Hp Hj).
Qed.

(** *** Custom seeds *)

Lemma insertCustomSeed_ok (seed : CustomSeed) (db db' : Db.Database) :
  Db.insertCustomSeed seed db = Db.Ok db' ->
  exists row,
    Db.custom_seeds db' = Db.custom_seeds db ++ [row]
    /\ Db.seedOfRow row = Some (asLoaded seed)
    /\ Db.cr_planting_seasons row
       = option_map Json.stringify (seed_planting_seasons seed)
    /\ Db.cr_suitable_for_containers row
       = Db.ofBool (seed_suitable_for_containers seed)
    /\ Db.cr_requires_trellis row = Db.ofBool (seed_requires_trellis seed)
    /\ Db.cr_drought_tolerant row = Db.ofBool (seed_drought_tolerant seed)
    /\ Db.cr_is_custom row = 1%Z.
Proof.
  unfold Db.insertCustomSeed. destruct (Db.hasSeed (seed_id seed) db);
    [discriminate|].
  intros H. inversion H as [E]. clear H E. eexists.
  split; [reflexivity|]. split; [|repeat split].
  unfold Db.seedOfRow, asLoaded.
  cbn [Db.cr_planting_seasons Db.cr_id Db.cr_title Db.cr_category
         Db.cr_scientific_name Db.cr_description Db.cr_image_url
         Db.cr_best_months Db.cr_sun_requirements Db.cr_watering
         Db.cr_frost_tolerance Db.cr_difficulty Db.cr_plant_life
         Db.cr_suitable_for_containers Db.cr_requires_trellis
         Db.cr_days_to_germination Db.cr_days_to_harvest Db.cr_sowing_depth
         Db.cr_spacing Db.cr_companion_plants Db.cr_plant_height
         Db.cr_drought_tolerant Db.cr_is_custom].
  assert (Hseasons :
            Db.seasonsOfColumn
              (option_map Json.stringify (seed_planting_seasons seed))
            = Some (Js.nullish (seed_planting_seasons seed) [])).
  { destruct (seed_planting_seasons seed) as [arr|]; [|reflexivity].
    cbn [option_map Db.seasonsOfColumn Js.nullish].
    rewrite stringify_truthy. apply parse_stringify. }
  rewrite Hseasons.
  destruct (seed_suitable_for_containers seed),
    (seed_requires_trellis seed), (seed_drought_tolerant seed); reflexivity.
Qed.

Lemma mapThrowing_snoc {A B : Type} (f : A -> option B) (l : list A) (x : A)
      (ys : list B) (y : B) :
  Db.mapThrowing f l = Some ys -> f x = Some y ->
  Db.mapThrowing f (l ++ [x]) = Some (ys ++ [y]).
Proof.
  revert ys. induction l as [|a l IH]; intros ys Hl Hx.
  - inversion Hl. subst. cbn. rewrite Hx. reflexivity.
  - cbn in Hl |- *. destruct (f a) as [b|]; [|discriminate].
    destruct (Db.mapThrowing f l) as [bs|]; [|discriminate].
    inversion Hl. subst. rewrite (IH bs eq_refl Hx). reflexivity.
Qed.

(** *** The writes of a collection with fresh, distinct ids succeed *)

Lemma fresh_key {R : Type} (key : R -> string) (t : list R) (i : string)
      (rest : list string) :
  NoDup (map key t ++ i :: rest) ->
  existsb (fun r => key r =? i) t = false.
Proof.
  intros H. apply hasKey_false. apply NoDup_app_inv in H.
  destruct H as (_ & _ & Hdis). intros Hin.
  apply (Hdis i Hin). left. reflexivity.
Qed.

Lemma NoDup_app_front {A : Type} (a b c : list A) :
  NoDup (a ++ b ++ c) -> NoDup (a ++ b).
Proof.
  rewrite app_assoc. intros H. apply NoDup_app_inv in H. tauto.
Qed.

Lemma writeJournal_succeeds (plantId : string) (es : list JournalEntry) :
  forall db,
    Db.hasPlant plantId db = true ->
    NoDup (map Db.jr_id (Db.journal_entries db) ++ map entry_id es) ->
    exists db', writeJournal plantId es db = Db.Ok db'.
Proof.
  induction es as [|e es IH]; intros db Hp Hnd; [exists db; reflexivity|].
  cbn [writeJournal map] in *. unfold Db.insertJournalEntry, Db.hasEntry.
  rewrite (fresh_key Db.jr_id _ _ _ Hnd), Hp. cbn [negb andThen].
  apply IH; [exact Hp|].
  cbn. rewrite map_app, <- app_assoc. exact Hnd.
Qed.

Lemma writePlants_succeeds (areaId : string) (ps : list Plant) :
  forall db,
    Db.hasArea areaId db = true ->
    NoDup (map Db.pr_id (Db.plants db) ++ map plant_id ps) ->
    NoDup (map Db.jr_id (Db.journal_entries db)
             ++ map entry_id (flat_map plant_journal ps)) ->
    exists db', writePlants areaId ps db = Db.Ok db'.
Proof.
  induction ps as [|p ps IH]; intros db Ha Hp Hj; [exists db; reflexivity|].
  cbn [writePlants map flat_map] in *. unfold Db.insertPlant, Db.hasPlant.
  rewrite (fresh_key Db.pr_id _ _ _ Hp), Ha. cbn [negb andThen].
  set (db1 := Db.withPlants db _).
  rewrite map_app in Hj.
  destruct (writeJournal_succeeds (plant_id p) (plant_journal p) db1)
    as [db2 H2].
  { unfold db1, Db.hasPlant. cbn. rewrite existsb_app. cbn.
    rewrite String.eqb_refl. apply orb_true_iff. right. reflexivity. }
  { exact (NoDup_app_front _ _ _ Hj). }
  rewrite H2. cbn [andThen].
  destruct (writeJournal_tables _ _ _ _ H2) as (Ha2 & Hp2 & Hj2).
  apply IH.
  - unfold Db.hasArea. rewrite Ha2. exact Ha.
  - rewrite Hp2. unfold db1. cbn. rewrite map_app, <- app_assoc. exact Hp.
  - rewrite Hj2. unfold db1. cbn. rewrite map_app, map_map, <- app_assoc.
    exact Hj.
Qed.

(** A collection whose area, plant and entry ids are distinct from each
    other and from those the store holds is written without a rejection. *)
Lemma writeAreas_succeeds (l : list Area) :
  forall db,
    NoDup (map Db.ar_id (Db.areas db) ++ map area_id l) ->
    NoDup (map Db.pr_id (Db.plants db)
             ++ map plant_id (flat_map area_plants l)) ->
    NoDup (map Db.jr_id (Db.journal_entries db)
             ++ map entry_id
                  (flat_map plant_journal (flat_map area_plants l))) ->
    exists db', writeAreas l db = Db.Ok db'.
Proof.
  induction l as [|a l IH]; intros db Ha Hp Hj; [exists db; reflexivity|].
  cbn [writeAreas map flat_map] in *. unfold Db.insertArea, Db.hasArea.
  rewrite (fresh_key Db.ar_id _ _ _ Ha). cbn [andThen].
  set (db1 := Db.withAreas db _).
  rewrite flat_map_app, map_app in Hj. rewrite map_app in Hp.
  destruct (writePlants_succeeds (area_id a) (area_plants a) db1)
    as [db2 H2].
  { unfold db1, Db.hasArea. cbn. rewrite existsb_app. cbn.
    rewrite String.eqb_refl. apply orb_true_iff. right. reflexivity. }
  { exact (NoDup_app_front _ _ _ Hp). }
  { exact (NoDup_app_front _ _ _ Hj). }
  rewrite H2. cbn [andThen].
  destruct (writePlants_tables _ _ _ _ H2) as (Ha2 & Hp2 & Hj2).
  apply IH.
  - rewrite Ha2. unfold db1. cbn. rewrite map_app, <- app_assoc. exact Ha.
  - rewrite Hp2. unfold db1. cbn. rewrite map_app, map_map, <- app_assoc.
    exact Hp.
  - rewrite Hj2. unfold db1. cbn. unfold journalRowsForPlants.
    rewrite map_app, <- app_assoc.
    replace (map Db.jr_id
               (flat_map (fun p => map (rowOfEntry (plant_id p)) (plant_journal p))
                         (area_plants a)))
      with (map entry_id (flat_map plant_journal (area_plants a))); [exact Hj|].
    clear. induction (area_plants a) as [|p ps IHp]; [reflexivity|].
    cbn [flat_map]. rewrite !map_app, IHp, map_map. reflexivity.
Qed.

(** C7. Areas with their plants and journals, written with the insert
    functions in list order to a store with integrity, are returned by
    [loadAllAreas] exactly as written, in the order written, after the
    areas the store held before (so from an empty store the load is the
    collection itself); and the writes of a collection whose ids are
    distinct and new to the store all succeed.  A custom seed with a new id
    is written by [insertCustomSeed], and one written is
    returned by [loadAllCustomSeeds] last, with its three flags as the
    booleans written, [isCustom] set, and its [planting_seasons] array as
    written. *)
Theorem write_then_load_round_trip :
  (forall (l : list Area) (db db' : Db.Database),
      Integrity db ->
      writeAreas l db = Db.Ok db' ->
      Db.loadAllAreas db' = Db.loadAllAreas db ++ l
      /\ (Db.loadAllAreas db = [] -> Db.loadAllAreas db' = l))
  /\ (forall (l : list Area) (db : Db.Database),
         Integrity db ->
         NoDup (map Db.ar_id (Db.areas db) ++ map area_id l) ->
         NoDup (map Db.pr_id (Db.plants db)
                  ++ map plant_id (flat_map area_plants l)) ->
         NoDup (map Db.jr_id (Db.journal_entries db)
                  ++ map entry_id
                       (flat_map plant_journal (flat_map area_plants l))) ->
         exists db',
           writeAreas l db = Db.Ok db'
           /\ Db.loadAllAreas db' = Db.loadAllAreas db ++ l)
  /\ (forall (seed : CustomSeed) (db : Db.Database),
         Db.hasSeed (seed_id seed) db = false ->
         exists db', Db.insertCustomSeed seed db = Db.Ok db')
  /\ (forall (seed : CustomSeed) (db db' : Db.Database)
             (before : list CustomSeed),
         Db.insertCustomSeed seed db = Db.Ok db' ->
         Db.loadAllCustomSeeds db = Some before ->
         exists loaded,
           Db.loadAllCustomSeeds db' = Some (before ++ [loaded])
           /\ loaded = asLoaded seed
           /\ seed_suitable_for_containers loaded
              = seed_suitable_for_containers seed
           /\ seed_requires_trellis loaded = seed_requires_trellis seed
           /\ seed_drought_tolerant loaded = seed_drought_tolerant seed
           /\ seed_isCustom loaded = true
           /\ (forall arr, seed_planting_seasons seed = Some arr ->
                           seed_planting_seasons loaded = Some arr)).
Proof.
  refine (conj _ (conj _ (conj _ _))).
  - intros l db db' Hint H.
    pose proof (write_then_load l db db' Hint H) as Hload.
    split; [exact Hload|]. intros Hnone. rewrite Hload, Hnone. reflexivity.
  - intros l db Hint Ha Hp Hj.
    destruct (writeAreas_succeeds l db Ha Hp Hj) as [db' H].
    exists db'. split; [exact H|]. exact (write_then_load l db db' Hint H).
  - intros seed db Hfresh. unfold Db.insertCustomSeed. rewrite Hfresh.
    eexists. reflexivity.
  - intros seed db db' before H Hbefore.
    apply insertCustomSeed_ok in H.
    destruct H as (row & Hrows & Hrow & _).
    exists (asLoaded seed). unfold Db.loadAllCustomSeeds. rewrite Hrows.
    split; [exact (mapThrowing_snoc _ _ _ _ _ Hbefore Hrow)|].
    repeat split. intros arr Harr. cbn. rewrite Harr. reflexivity.
Qed.

Lemma write_then_load_round_trip_witness :
  exists dbA dbS,
    Integrity Db.emptyDatabase
    /\ writeAreas (Garden.areas Sample.grownWorld) Db.emptyDatabase
       = Db.Ok dbA
    /\ Db.loadAllAreas dbA = Garden.areas Sample.grownWorld
    /\ Db.insertCustomSeed Sample.tomato Db.emptyDatabase = Db.Ok dbS
    /\ Db.loadAllCustomSeeds dbS = Some [Sample.tomato].
Proof.
  destruct (writeAreas (Garden.areas Sample.grownWorld) Db.emptyDatabase)
    as [dbA|e] eqn:HA; [|vm_compute in HA; discriminate].
  destruct (Db.insertCustomSeed Sample.tomato Db.emptyDatabase)
    as [dbS|e] eqn:HS; [|vm_compute in HS; discriminate].
  exists dbA, dbS.
  destruct write_then_load_round_trip as (Hareas & _ & _ & Hseeds).
  split; [exact emptyDatabase_integrity|]. split; [reflexivity|].
  split.
  - apply (Hareas _ Db.emptyDatabase dbA emptyDatabase_integrity HA).
    reflexivity.
  - split; [reflexivity|].
    destruct (Hseeds Sample.tomato Db.emptyDatabase dbS [] HS eq_refl)
      as (loaded & Hload & -> & _).
    exact Hload.
Defined.

(* ================================================================= *)
(** ** The theorems at the sample garden *)



Lemma journal_stage_consistency_witness :
  exists p0 p,
    findPlant "a" "b" (Garden.areas Sample.planterWorld) = Some p0
    /\ plant_stage p0 = None /\ plant_journal p0 = []
    /\ matched 0 [Advance "planted"; Advance "sprouted";
                  Rollback (Some "planted")] = true
    /\ findPlant "a" "b"
         (Garden.areas
            (stageCalls "a" "b"
               [Advance "planted"; Advance "sprouted";
                Rollback (Some "planted")] Sample.planterWorld))
       = Some p
    /\ Z.of_nat (stageCount (plant_journal p)) = 1%Z.
Proof.
  destruct (findPlant "a" "b" (Garden.areas Sample.planterWorld))
    as [p0|] eqn:Hp0; [|discriminate].
  assert (Hs : plant_stage p0 = None) by (inversion Hp0; reflexivity).
  assert (Hj : plant_journal p0 = []) by (inversion Hp0; reflexivity).
  destruct (journal_stage_consistency "a" "b"
              [Advance "planted"; Advance "sprouted"; Rollback (Some "planted")]
              Sample.planterWorld p0 Hp0 Hs Hj eq_refl) as [Hcount _].
  destruct (Hcount [Advance "planted"; Advance "sprouted";
                    Rollback (Some "planted")] [] eq_refl)
    as (p & Hp & Hc).
  exists p0, p. repeat split; try assumption.
Defined.

(* ================================================================= *)
(** * Further properties *)

(** ** The key-value store *)

Lemma kv_find_updated (k k' : string) (v : option string)
      (t : list (string * option string)) :
  find (fun r => fst r =? k')
       (map (fun r => if fst r =? k then (fst r, v) else r) t)
  = if k =? k'
    then option_map (fun r => (fst r, v)) (find (fun r => fst r =? k') t)
    else find (fun r => fst r =? k') t.
Proof.
  induction t as [|[key val] t IH]; [destruct (k =? k'); reflexivity|].
  cbn [map find fst].
  destruct (String.eqb_spec key k) as [Ek|Ek];
    destruct (String.eqb_spec k k') as [Ek'|Ek'];
    destruct (String.eqb_spec key k') as [Ekk|Ekk];
    cbn [fst find option_map]; subst;
    rewrite ?String.eqb_refl; try congruence; try reflexivity;
    try (apply String.eqb_neq in Ekk; rewrite Ekk; exact IH).
Qed.

Lemma kv_find_appended (k k' : string) (v : option string)
      (t : list (string * option string)) :
  existsb (fun r => fst r =? k) t = false ->
  find (fun r => fst r =? k') (t ++ [(k, v)])
  = if k =? k' then Some (k, v) else find (fun r => fst r =? k') t.
Proof.
  intros Habsent. induction t as [|[key val] t IH].
  - cbn. destruct (k =? k'); reflexivity.
  - cbn [existsb fst] in Habsent. apply orb_false_iff in Habsent.
    destruct Habsent as [Hkey Hrest]. cbn [app find fst].
    apply String.eqb_neq in Hkey.
    destruct (String.eqb_spec key k') as [Ekk|Ekk].
    + subst. apply String.eqb_neq in Hkey. rewrite String.eqb_sym, Hkey.
      reflexivity.
    + exact (IH Hrest).
Qed.

Lemma kv_find_filtered (k k' : string) (t : list (string * option string)) :
  find (fun r => fst r =? k') (filter (fun r => negb (fst r =? k)) t)
  = if k =? k' then None else find (fun r => fst r =? k') t.
Proof.
  induction t as [|[key val] t IH]; [destruct (k =? k'); reflexivity|].
  cbn [filter find fst].
  destruct (String.eqb_spec key k) as [Ek|Ek];
    destruct (String.eqb_spec k k') as [Ek'|Ek'];
    destruct (String.eqb_spec key k') as [Ekk|Ekk];
    cbn [negb fst find]; subst;
    rewrite ?String.eqb_refl; try congruence; try reflexivity;
    try exact IH;
    try (apply String.eqb_neq in Ekk; rewrite Ekk; exact IH).
Qed.

(** X1. [kvSet(key, value)] with a key always succeeds; a following
    [kvGet(key)] returns the value set, [kvGet] of every other key returns
    what it returned before, and the garden tables are untouched. *)
Theorem kvSet_then_kvGet :
  forall (k : string) (v : option string) (db : Db.Database),
  exists db',
    Kv.kvSet (Some k) v db = Db.Ok db'
    /\ Kv.kvGet (Some k) db' = v
    /\ (forall k', k' <> k -> Kv.kvGet (Some k') db' = Kv.kvGet (Some k') db)
    /\ Db.areas db' = Db.areas db
    /\ Db.plants db' = Db.plants db
    /\ Db.journal_entries db' = Db.journal_entries db
    /\ Db.custom_seeds db' = Db.custom_seeds db.
Proof.
  intros k v db. unfold Kv.kvSet.
  destruct (existsb (fun r => fst r =? k) (Db.kv_store db)) eqn:Hhas.
  - eexists. split; [reflexivity|]. unfold Kv.kvGet. cbn [Db.kv_store Kv.withKv].
    split.
    + rewrite kv_find_updated, String.eqb_refl.
      apply existsb_exists in Hhas. destruct Hhas as (r & Hr & Er).
      destruct (find (fun r => fst r =? k) (Db.kv_store db)) as [row|] eqn:F.
      * reflexivity.
      * exfalso. exact (eq_true_false_abs _ Er (find_none _ _ F r Hr)).
    + split; [|repeat split]. intros k' Hne. rewrite kv_find_updated.
      apply not_eq_sym in Hne. apply String.eqb_neq in Hne. rewrite Hne.
      reflexivity.
  - eexists. split; [reflexivity|]. unfold Kv.kvGet. cbn [Db.kv_store Kv.withKv].
    split.
    + rewrite kv_find_appended by exact Hhas. rewrite String.eqb_refl.
      reflexivity.
    + split; [|repeat split]. intros k' Hne.
      rewrite kv_find_appended by exact Hhas.
      apply not_eq_sym in Hne. apply String.eqb_neq in Hne. rewrite Hne.
      reflexivity.
Qed.

(** X2. [kvRemove(key)] always succeeds; afterwards [kvGet(key)] is
    [null], every other key reads as before, and the garden tables are
    untouched.  [kvGet] of a key never set is [null]. *)
Theorem kvRemove_then_kvGet :
  forall (k : string) (db : Db.Database),
  exists db',
    Kv.kvRemove (Some k) db = Db.Ok db'
    /\ Kv.kvGet (Some k) db' = None
    /\ (forall k', k' <> k -> Kv.kvGet (Some k') db' = Kv.kvGet (Some k') db)
    /\ Db.areas db' = Db.areas db
    /\ Db.plants db' = Db.plants db
    /\ Db.journal_entries db' = Db.journal_entries db
    /\ Db.custom_seeds db' = Db.custom_seeds db
    /\ Kv.kvGet (Some k) Db.emptyDatabase = None.
Proof.
  intros k db. eexists. split; [reflexivity|].
  unfold Kv.kvGet. cbn [Db.kv_store Kv.withKv]. split.
  - rewrite kv_find_filtered, String.eqb_refl. reflexivity.
  - split; [|repeat split]. intros k' Hne. rewrite kv_find_filtered.
    apply not_eq_sym in Hne. apply String.eqb_neq in Hne. rewrite Hne.
    reflexivity.
Qed.

Lemma kv_keys_updated (k : string) (v : option string)
      (t : list (string * option string)) :
  map fst (map (fun r => if fst r =? k then (fst r, v) else r) t) = map fst t.
Proof.
  rewrite map_map. apply map_ext. intros r.
  destruct (fst r =? k); reflexivity.
Qed.

(** X3. The upsert of [kvSet] never duplicates a key: keys that are
    distinct stay distinct under [kvSet] and [kvRemove], setting a key that
    is present keeps the number of rows, and of two [kvSet] of the same key
    the second alone decides the store. *)
Theorem kvSet_is_an_upsert :
  forall (k : string) (v1 v2 : option string) (db db1 : Db.Database),
    NoDup (map fst (Db.kv_store db)) ->
    Kv.kvSet (Some k) v1 db = Db.Ok db1 ->
    NoDup (map fst (Db.kv_store db1))
    /\ (In k (map fst (Db.kv_store db)) ->
        List.length (Db.kv_store db1) = List.length (Db.kv_store db))
    /\ Kv.kvSet (Some k) v2 db1 = Kv.kvSet (Some k) v2 db
    /\ (forall db2, Kv.kvRemove (Some k) db1 = Db.Ok db2 ->
                    NoDup (map fst (Db.kv_store db2))
                    /\ ~ In k (map fst (Db.kv_store db2))).
Proof.
  intros k v1 v2 db db1 Hnd H. unfold Kv.kvSet in *.
  destruct (existsb (fun r => fst r =? k) (Db.kv_store db)) eqn:Hhas;
    inversion H as [E]; clear H E; cbn [Db.kv_store Kv.withKv].
  - refine (conj _ (conj _ (conj _ _))).
    + rewrite kv_keys_updated. exact Hnd.
    + intros _. apply length_map.
    + match goal with
      | |- (if ?c then _ else _) = _ => assert (Hstill : c = true)
      end.
      { apply (hasKey_In fst). rewrite kv_keys_updated.
        apply (hasKey_In fst). exact Hhas. }
      rewrite Hstill. unfold Kv.withKv. cbn. f_equal. f_equal.
      rewrite map_map. apply map_ext. intros r.
      destruct (fst r =? k) eqn:Er; cbn [fst]; rewrite Er; reflexivity.
    + intros db2 H2. inversion H2 as [E]. clear H2 E.
      cbn [Db.kv_store Kv.withKv]. split.
      * apply keys_filter. rewrite kv_keys_updated. exact Hnd.
      * intros Hin. apply in_map_iff in Hin. destruct Hin as (r & Er & Hr).
        apply filter_In in Hr. destruct Hr as [_ Hkeep].
        apply String.eqb_eq in Er. rewrite Er in Hkeep. discriminate.
  - refine (conj _ (conj _ (conj _ _))).
    + apply keys_snoc; [exact Hnd|]. apply (hasKey_false fst). exact Hhas.
    + intros Hin. apply (hasKey_In fst) in Hin. congruence.
    + rewrite existsb_app. cbn [existsb fst]. rewrite String.eqb_refl.
      rewrite Hhas. cbn [orb]. unfold Kv.withKv. cbn. f_equal. f_equal.
      rewrite map_app. cbn [map fst]. rewrite String.eqb_refl. f_equal.
      rewrite <- (map_id (Db.kv_store db)) at 2. apply map_ext_in.
      intros r Hr. cbn beta.
      match goal with
      | |- (if ?c then _ else _) = _ => destruct c eqn:Er; [|reflexivity]
      end.
      exfalso. assert (existsb (fun r => fst r =? k) (Db.kv_store db) = true)
        by (apply existsb_exists; exists r; auto).
      congruence.
    + intros db2 H2. inversion H2 as [E]. clear H2 E.
      cbn [Db.kv_store Kv.withKv]. split.
      * apply keys_filter. apply keys_snoc; [exact Hnd|].
        apply (hasKey_false fst). exact Hhas.
      * intros Hin. apply in_map_iff in Hin. destruct Hin as (r & Er & Hr).
        apply filter_In in Hr. destruct Hr as [_ Hkeep].
        apply String.eqb_eq in Er. rewrite Er in Hkeep. discriminate.
Qed.

Lemma kvSet_is_an_upsert_witness :
  NoDup (map fst (Db.kv_store Plot.prefs))
  /\ exists db1,
       Kv.kvSet (Some "daily_notif_id") (Some "n1") Plot.prefs = Db.Ok db1
       /\ NoDup (map fst (Db.kv_store db1))
       /\ Kv.kvSet (Some "daily_notif_id") (Some "n2") db1
          = Kv.kvSet (Some "daily_notif_id") (Some "n2") Plot.prefs.
Proof.
  assert (Hnd : NoDup (map fst (Db.kv_store Plot.prefs)))
    by (cbn; repeat constructor; intros []).
  split; [exact Hnd|].
  destruct (Kv.kvSet (Some "daily_notif_id") (Some "n1") Plot.prefs)
    as [db1|e] eqn:Hset; [|discriminate].
  destruct (kvSet_is_an_upsert "daily_notif_id" (Some "n1") (Some "n2")
              Plot.prefs db1 Hnd Hset) as (H1 & _ & H3 & _).
  exists db1. repeat split; assumption.
Defined.

(** ** The daily reminder *)

Lemma kvGet_after_kvRemove (k : string) (db db' : Db.Database) :
  Kv.kvRemove (Some k) db = Db.Ok db' -> Kv.kvGet (Some k) db' = None.
Proof.
  intros H. inversion H as [E]. clear H E. unfold Kv.kvGet.
  cbn [Db.kv_store Kv.withKv].
  rewrite kv_find_filtered, String.eqb_refl. reflexivity.
Qed.

Lemma kvGet_after_kvSet (k : string) (v : option string)
      (db db' : Db.Database) :
  Kv.kvSet (Some k) v db = Db.Ok db' -> Kv.kvGet (Some k) db' = v.
Proof.
  unfold Kv.kvSet.
  destruct (existsb (fun r => fst r =? k) (Db.kv_store db)) eqn:Hhas;
    intros H; inversion H as [E]; clear H E; unfold Kv.kvGet;
    cbn [Db.kv_store Kv.withKv].
  - rewrite kv_find_updated, String.eqb_refl.
    apply existsb_exists in Hhas. destruct Hhas as (r & Hr & Er).
    destruct (find (fun r => fst r =? k) (Db.kv_store db)) as [row|] eqn:F;
      [reflexivity|].
    exfalso. exact (eq_true_false_abs _ Er (find_none _ _ F r Hr)).
  - rewrite kv_find_appended by exact Hhas. rewrite String.eqb_refl.
    reflexivity.
Qed.

(** After [cancelDaily] on a device that holds at most the recorded
    reminder, no reminder is scheduled and none is recorded. *)
Lemma cancelDaily_clears (d : Reminder.Device) :
  Reminder.onWeb d = false ->
  (Reminder.scheduled d = []
   /\ Kv.kvGet (Some Reminder.DAILY_NOTIF_ID_KEY) (Reminder.disk d) = None)
  \/ (exists id t,
         Js.truthy id = true
         /\ Kv.kvGet (Some Reminder.DAILY_NOTIF_ID_KEY) (Reminder.disk d)
            = Some id
         /\ Reminder.scheduled d = [(id, t)]) ->
  snd (Reminder.cancelDaily d) = None
  /\ Reminder.scheduled (fst (Reminder.cancelDaily d)) = []
  /\ Kv.kvGet (Some Reminder.DAILY_NOTIF_ID_KEY)
              (Reminder.disk (fst (Reminder.cancelDaily d))) = None
  /\ Reminder.onWeb (fst (Reminder.cancelDaily d)) = false
  /\ Reminder.notifIds (fst (Reminder.cancelDaily d)) = Reminder.notifIds d.
Proof.
  intros Hweb Hinv. unfold Reminder.cancelDaily. rewrite Hweb.
  destruct Hinv as [[Hs Hk]|(id & t & Hid & Hk & Hs)]; rewrite Hk.
  - auto.
  - rewrite Hid.
    destruct (Kv.kvRemove (Some Reminder.DAILY_NOTIF_ID_KEY) (Reminder.disk d))
      as [disk'|e] eqn:Hrem; [|discriminate].
    cbn [fst snd Reminder.scheduled Reminder.disk Reminder.onWeb
           Reminder.notifIds].
    rewrite Hs. cbn. rewrite String.eqb_refl. cbn.
    repeat split; try assumption.
    exact (kvGet_after_kvRemove _ _ _ Hrem).
Qed.

Lemma call_keeps_one_reminder (c : Reminder.Call) (d : Reminder.Device) :
  (forall n, Js.truthy (Reminder.notifIds d n) = true) ->
  Reminder.onWeb d = false ->
  (Reminder.scheduled d = []
   /\ Kv.kvGet (Some Reminder.DAILY_NOTIF_ID_KEY) (Reminder.disk d) = None)
  \/ (exists id t,
         Js.truthy id = true
         /\ Kv.kvGet (Some Reminder.DAILY_NOTIF_ID_KEY) (Reminder.disk d)
            = Some id
         /\ Reminder.scheduled d = [(id, t)]) ->
  let d' := Reminder.call c d in
  (forall n, Js.truthy (Reminder.notifIds d' n) = true)
  /\ Reminder.onWeb d' = false
  /\ ((Reminder.scheduled d' = []
       /\ Kv.kvGet (Some Reminder.DAILY_NOTIF_ID_KEY) (Reminder.disk d') = None)
      \/ (exists id t,
             Js.truthy id = true
             /\ Kv.kvGet (Some Reminder.DAILY_NOTIF_ID_KEY) (Reminder.disk d')
                = Some id
             /\ Reminder.scheduled d' = [(id, t)]))
  /\ (forall h m, c = Reminder.Schedule h m ->
                  exists id, Reminder.scheduled d' = [(id, (h, m))]).
Proof.
  intros Hids Hweb Hinv. cbn zeta.
  destruct (cancelDaily_clears d Hweb Hinv) as (Hok & Hs & Hk & Hw & Hn).
  destruct c as [h m|]; cbn [Reminder.call].
  - unfold Reminder.scheduleDaily. rewrite Hweb.
    destruct (Reminder.cancelDaily d) as [d1 [e|]]; cbn [fst snd] in *;
      [discriminate Hok|].
    destruct (Kv.kvSet (Some Reminder.DAILY_NOTIF_ID_KEY)
                (Some (Reminder.notifIds d1 (Reminder.notifTaken d1)))
                (Reminder.disk d1)) as [disk'|e] eqn:Hset;
      [|unfold Kv.kvSet in Hset;
        destruct (existsb _ _) in Hset; discriminate Hset].
    cbn [fst Reminder.scheduled Reminder.disk Reminder.onWeb Reminder.notifIds].
    rewrite Hs, Hn. cbn [app].
    refine (conj Hids (conj Hw (conj _ _))).
    + right. exists (Reminder.notifIds d (Reminder.notifTaken d1)), (h, m).
      split; [apply Hids|]. split; [|reflexivity].
      rewrite <- Hn. exact (kvGet_after_kvSet _ _ _ _ Hset).
    + intros h' m' E. inversion E. subst. eexists. reflexivity.
  - rewrite Hn. refine (conj Hids (conj Hw (conj _ _))).
    + left. split; assumption.
    + intros h m E. discriminate.
Qed.

(** X4. Reminders never stack.  On a device that starts without a
    scheduled reminder and without a recorded id, and whose notification
    service hands out non-empty ids, after any sequence of [scheduleDaily]
    and [cancelDaily] calls at most one reminder is scheduled, it is the one
    whose id the key-value store records, and right after a [scheduleDaily]
    it is the one for the hour and minute just given. *)
Theorem reminders_never_stack :
  forall (cs : list Reminder.Call) (d : Reminder.Device),
    (forall n, Js.truthy (Reminder.notifIds d n) = true) ->
    Reminder.onWeb d = false ->
    Reminder.scheduled d = [] ->
    Kv.kvGet (Some Reminder.DAILY_NOTIF_ID_KEY) (Reminder.disk d) = None ->
    let d' := Reminder.calls cs d in
    (List.length (Reminder.scheduled d') <= 1)%nat
    /\ match Kv.kvGet (Some Reminder.DAILY_NOTIF_ID_KEY) (Reminder.disk d') with
       | Some id => exists t, Reminder.scheduled d' = [(id, t)]
       | None => Reminder.scheduled d' = []
       end
    /\ (forall h m,
           exists id,
             Reminder.scheduled (Reminder.call (Reminder.Schedule h m) d')
             = [(id, (h, m))]).
Proof.
  intros cs d Hids Hweb Hs Hk. cbn zeta.
  assert (Hinv :
            (forall n, Js.truthy (Reminder.notifIds (Reminder.calls cs d) n)
                       = true)
            /\ Reminder.onWeb (Reminder.calls cs d) = false
            /\ ((Reminder.scheduled (Reminder.calls cs d) = []
                 /\ Kv.kvGet (Some Reminder.DAILY_NOTIF_ID_KEY)
                             (Reminder.disk (Reminder.calls cs d)) = None)
                \/ (exists id t,
                       Js.truthy id = true
                       /\ Kv.kvGet (Some Reminder.DAILY_NOTIF_ID_KEY)
                                   (Reminder.disk (Reminder.calls cs d))
                          = Some id
                       /\ Reminder.scheduled (Reminder.calls cs d)
                          = [(id, t)]))).
  { assert (H0 :
              (Reminder.scheduled d = []
               /\ Kv.kvGet (Some Reminder.DAILY_NOTIF_ID_KEY) (Reminder.disk d)
                  = None)
              \/ (exists id t,
                     Js.truthy id = true
                     /\ Kv.kvGet (Some Reminder.DAILY_NOTIF_ID_KEY)
                                 (Reminder.disk d) = Some id
                     /\ Reminder.scheduled d = [(id, t)]))
      by (left; auto).
    clear Hs Hk. revert d Hids Hweb H0. unfold Reminder.calls.
    induction cs as [|c cs IH]; intros d Hids Hweb H0; [auto|].
    cbn [fold_left].
    destruct (call_keeps_one_reminder c d Hids Hweb H0) as (H1 & H2 & H3 & _).
    exact (IH _ H1 H2 H3). }
  destruct Hinv as (Hids' & Hweb' & Hone).
  refine (conj _ (conj _ _)).
  - destruct Hone as [[Hs' _]|(id & t & _ & _ & Hs')]; rewrite Hs'; cbn; lia.
  - destruct Hone as [[Hs' Hk']|(id & t & _ & Hk' & Hs')]; rewrite Hk'.
    + exact Hs'.
    + exists t. exact Hs'.
  - intros h m.
    destruct (call_keeps_one_reminder (Reminder.Schedule h m) _ Hids' Hweb' Hone)
      as (_ & _ & _ & Hlast).
    exact (Hlast h m eq_refl).
Qed.

Lemma reminders_never_stack_witness :
  Reminder.scheduled Plot.phone = []
  /\ Kv.kvGet (Some Reminder.DAILY_NOTIF_ID_KEY) (Reminder.disk Plot.phone)
     = None
  /\ (List.length
        (Reminder.scheduled
           (Reminder.calls [Reminder.Schedule 8 0; Reminder.Schedule 9 30]
                           Plot.phone)) <= 1)%nat
  /\ Reminder.scheduled
       (Reminder.calls [Reminder.Schedule 8 0; Reminder.Schedule 9 30]
                       Plot.phone)
     = [("nb", (9%Z, 30%Z))].
Proof.
  split; [reflexivity|]. split; [reflexivity|].
  destruct (reminders_never_stack
              [Reminder.Schedule 8 0; Reminder.Schedule 9 30] Plot.phone
              (fun n => eq_refl) eq_refl eq_refl eq_refl) as (H & _).
  split; [exact H|reflexivity].
Defined.

(** X5. The hour buttons stay on the clock: for an hour of the day and a
    step of one hour either way, [handleHourChange] computes an hour of the
    day, the step forward from 23 is 0 and the step back from 0 is 23, and
    a step forward undoes a step back and conversely. *)
Theorem nextHour_wraps :
  forall h : Z,
    (0 <= h < 24)%Z ->
    (0 <= Reminder.nextHour h 1 < 24)%Z
    /\ (0 <= Reminder.nextHour h (-1) < 24)%Z
    /\ Reminder.nextHour (Reminder.nextHour h 1) (-1) = h
    /\ Reminder.nextHour (Reminder.nextHour h (-1)) 1 = h
    /\ Reminder.nextHour 23 1 = 0%Z
    /\ Reminder.nextHour 0 (-1) = 23%Z.
Proof.
  intros h Hh. unfold Reminder.nextHour.
  assert (Hcases : exists n : nat, (n < 24)%nat /\ h = Z.of_nat n).
  { exists (Z.to_nat h). split; lia. }
  destruct Hcases as (n & Hn & ->).
  do 24 (destruct n as [|n]; [vm_compute; repeat split; congruence|]).
  lia.
Qed.

Lemma nextHour_wraps_witness :
  (0 <= 23 < 24)%Z
  /\ (0 <= Reminder.nextHour 23 1 < 24)%Z
  /\ Reminder.nextHour (Reminder.nextHour 23 1) (-1) = 23%Z.
Proof.
  assert (H : (0 <= 23 < 24)%Z) by (split; [discriminate|reflexivity]).
  destruct (nextHour_wraps 23 H) as (H1 & _ & H3 & _).
  split; [exact H|]. split; [exact H1|exact H3].
Defined.

(** ** What the load returns after one write *)

Lemma everyPlant_ext (f g : Plant -> Plant) (l : list Area) :
  (forall a q, In a l -> In q (area_plants a) -> f q = g q) ->
  everyPlant f l = everyPlant g l.
Proof.
  intros H. unfold everyPlant. apply map_ext_in. intros a Ha. f_equal.
  apply map_ext_in. intros q Hq. exact (H a q Ha Hq).
Qed.

Lemma everyPlant_fixed (f : Plant -> Plant) (l : list Area) :
  (forall a q, In a l -> In q (area_plants a) -> f q = q) ->
  everyPlant f l = l.
Proof.
  intros H. unfold everyPlant.
  transitivity (map (fun a : Area => a) l); [|apply map_id].
  apply map_ext_in. intros a Ha.
  transitivity (Garden.withPlants a (area_plants a));
    [|apply withPlants_same].
  f_equal. transitivity (map (fun q : Plant => q) (area_plants a));
    [|apply map_id].
  apply map_ext_in. intros q Hq. exact (H a q Ha Hq).
Qed.

Lemma withJournal_same (q : Plant) : Garden.withJournal q (plant_journal q) = q.
Proof. destruct q. reflexivity. Qed.

(** A write that leaves the area rows and the plant rows alone changes
    the loaded journals only. *)
Lemma load_journal_change
      (h : string -> list JournalEntry -> list JournalEntry)
      (db db' : Db.Database) :
  Db.areas db' = Db.areas db ->
  Db.plants db' = Db.plants db ->
  (forall i,
      map Db.entryOfRow (Db.journalRowsOf i db')
      = h i (map Db.entryOfRow (Db.journalRowsOf i db))) ->
  Db.loadAllAreas db'
  = everyPlant (fun q => Garden.withJournal q (h (plant_id q) (plant_journal q)))
               (Db.loadAllAreas db).
Proof.
  intros Ha Hp Hj. unfold Db.loadAllAreas, everyPlant. rewrite Ha, map_map.
  apply map_ext. intros r. unfold Db.areaOfRow, Garden.withPlants.
  cbn [area_id area_name area_emoji area_createdAt area_plants]. f_equal.
  unfold Db.plantRowsOf. rewrite Hp, map_map. apply map_ext. intros pr.
  unfold Db.plantOfRow, Garden.withJournal.
  cbn [plant_id plant_seedId plant_seedTitle plant_seedCategory
         plant_seedImage plant_plantedDate plant_stage plant_journal].
  f_equal. apply Hj.
Qed.

Lemma loadAllAreas_insertJournalEntry (i p d t ty : string)
      (db db' : Db.Database) :
  Db.insertJournalEntry (Some i) (Some p) (Some d) (Some t) (Some ty) db
  = Db.Ok db' ->
  Db.loadAllAreas db'
  = everywhere p
      (fun q => Garden.withJournal q (plant_journal q ++ [mkEntry i d t ty]))
      (Db.loadAllAreas db).
Proof.
  intros H. apply insertJournalEntry_ok in H. destruct H as (_ & _ & ->).
  rewrite (load_journal_change
             (fun k j => if k =? p then j ++ [mkEntry i d t ty] else j) db);
    try reflexivity.
  - unfold everywhere. apply everyPlant_ext. intros a q _ _.
    destruct (plant_id q =? p); [reflexivity|apply withJournal_same].
  - intros k. unfold Db.journalRowsOf. cbn [Db.journal_entries Db.withJournal].
    rewrite filter_app, map_app. cbn [filter Db.jr_plant_id].
    rewrite (String.eqb_sym p k).
    destruct (k =? p); cbn [map app]; [reflexivity|apply app_nil_r].
Qed.

Lemma loadAllAreas_deleteJournalEntry (i : string) (db db' : Db.Database) :
  Db.deleteJournalEntry (Some i) db = Db.Ok db' ->
  Db.loadAllAreas db'
  = everyPlant
      (fun q => Garden.withJournal q
                  (filter (fun e => negb (entry_id e =? i)) (plant_journal q)))
      (Db.loadAllAreas db).
Proof.
  intros H. inversion H as [E]. clear H E.
  apply (load_journal_change
           (fun _ j => filter (fun e => negb (entry_id e =? i)) j) db);
    try reflexivity.
  intros k. unfold Db.journalRowsOf. cbn [Db.journal_entries Db.withJournal].
  rewrite filter_of_map. cbn [entry_id Db.entryOfRow]. f_equal.
  apply filter_swap.
Qed.

(** The last element of a filtered list splits the list. *)
Lemma pop_filter_split {A : Type} (f : A -> bool) (l : list A) (x : A) :
  Js.pop (filter f l) = Some x ->
  exists before after,
    l = before ++ x :: after /\ f x = true /\ filter f after = [].
Proof.
  induction l as [|y l IH]; [discriminate|].
  cbn [filter]. destruct (f y) eqn:Hy.
  - destruct (filter f l) as [|z rest] eqn:Hl.
    + cbn [Js.pop]. intros E. inversion E. subst y.
      exists [], l. auto.
    + intros E. change (Js.pop (z :: rest) = Some x) in E.
      destruct (IH E) as (before & after & -> & Hx & Ha).
      exists (y :: before), after. auto.
  - intros E. destruct (IH E) as (before & after & -> & Hx & Ha).
    exists (y :: before), after. auto.
Qed.

Lemma pop_filter_none {A : Type} (f : A -> bool) (l : list A) :
  Js.pop (filter f l) = None -> filter f l = [].
Proof.
  induction (filter f l) as [|y r IH]; [reflexivity|].
  destruct r as [|z r]; [discriminate|]. intros E.
  change (Js.pop (z :: r) = None) in E. specialize (IH E). discriminate.
Qed.

Lemma trimmedJournal_split (before after : list JournalEntry)
      (e : JournalEntry) :
  isStage e = true -> filter isStage after = [] ->
  Garden.trimmedJournal (before ++ e :: after) = before ++ after.
Proof.
  intros He Ha. unfold Garden.trimmedJournal.
  rewrite lastStageIndex_split by assumption.
  unfold Js.filteri. apply (filteriFrom_drop before after e 0).
Qed.

Lemma trimmedJournal_none (j : list JournalEntry) :
  filter isStage j = [] -> Garden.trimmedJournal j = j.
Proof.
  intros H. unfold Garden.trimmedJournal.
  rewrite lastStageIndex_none by exact H. reflexivity.
Qed.

Lemma loadAllAreas_deleteLastStageEntry (p : string) (db db' : Db.Database) :
  NoDup (map Db.jr_id (Db.journal_entries db)) ->
  Db.deleteLastStageEntry (Some p) db = Db.Ok db' ->
  Db.loadAllAreas db'
  = everywhere p
      (fun q => Garden.withJournal q (Garden.trimmedJournal (plant_journal q)))
      (Db.loadAllAreas db).
Proof.
  intros Hnd H.
  assert (Hstage : forall l,
             filter isStage (map Db.entryOfRow l)
             = map Db.entryOfRow (filter (fun r => Db.jr_type r =? "stage") l)).
  { intros l. rewrite filter_of_map. reflexivity. }
  assert (Hboth : filter (fun r => Db.jr_type r =? "stage")
                         (Db.journalRowsOf p db)
                  = filter (fun r => (Db.jr_plant_id r =? p)
                                     && (Db.jr_type r =? "stage"))
                           (Db.journal_entries db)).
  { unfold Db.journalRowsOf. generalize (Db.journal_entries db). intros l.
    induction l as [|r l IH]; [reflexivity|].
    cbn [filter]. destruct (Db.jr_plant_id r =? p); cbn [filter andb];
      rewrite IH; reflexivity. }
  unfold Db.deleteLastStageEntry, Db.lastStageEntryId in H.
  destruct (Js.pop (filter (fun r => (Db.jr_plant_id r =? p)
                                     && (Db.jr_type r =? "stage"))
                           (Db.journal_entries db))) as [r0|] eqn:Hpop;
    cbn [option_map] in H; injection H as <-.
  - rewrite <- Hboth in Hpop.
    destruct (pop_filter_split _ _ _ Hpop) as (B & A & HJ & Hr0 & HA).
    assert (Hin0 : In r0 (Db.journal_entries db)).
    { assert (Hin : In r0 (Db.journalRowsOf p db))
        by (rewrite HJ; apply in_or_app; right; left; reflexivity).
      apply filter_In in Hin. tauto. }
    assert (Hp0 : Db.jr_plant_id r0 = p).
    { assert (Hin : In r0 (Db.journalRowsOf p db))
        by (rewrite HJ; apply in_or_app; right; left; reflexivity).
      apply filter_In in Hin. apply String.eqb_eq. tauto. }
    rewrite (load_journal_change
               (fun k j => if k =? p then Garden.trimmedJournal j else j) db);
      try reflexivity.
    + unfold everywhere. apply everyPlant_ext. intros a q _ _.
      destruct (plant_id q =? p); [reflexivity|apply withJournal_same].
    + intros k. unfold Db.journalRowsOf at 1.
      cbn [Db.journal_entries Db.withJournal]. rewrite filter_swap.
      fold (Db.journalRowsOf k db).
      destruct (String.eqb_spec k p) as [->|Hk].
      * rewrite HJ. rewrite map_app. cbn [map].
        rewrite trimmedJournal_split.
        -- rewrite <- map_app. f_equal.
           assert (HndJ : NoDup (map Db.jr_id (B ++ r0 :: A))).
           { rewrite <- HJ. apply keys_filter. exact Hnd. }
           rewrite map_app in HndJ. cbn [map] in HndJ.
           pose proof (NoDup_remove_2 _ _ _ HndJ) as Hfresh.
           rewrite filter_app. cbn [filter]. rewrite String.eqb_refl.
           cbn [negb]. f_equal; apply filter_all; intros x Hx;
             apply negb_true_iff; apply String.eqb_neq; intros Ex;
             apply Hfresh; apply in_or_app; [left|right];
             rewrite <- Ex; apply in_map; exact Hx.
        -- exact Hr0.
        -- rewrite Hstage, HA. reflexivity.
      * f_equal. apply filter_all. intros x Hx.
        apply negb_true_iff, String.eqb_neq. intros Ex.
        apply filter_In in Hx. destruct Hx as (Hx & Hxk).
        apply String.eqb_eq in Hxk.
        assert (x = r0) by (apply (key_unique Db.jr_id _ _ _ Hnd Hx Hin0 Ex)).
        subst x. congruence.
  - apply pop_filter_none in Hpop. rewrite <- Hboth in Hpop.
    rewrite <- (everyPlant_fixed (fun q => q) (Db.loadAllAreas db)) at 1
      by reflexivity.
    unfold everywhere. apply everyPlant_ext. intros a q Ha Hq.
    destruct (String.eqb_spec (plant_id q) p) as [Hqp|_]; [|reflexivity].
    unfold Db.loadAllAreas in Ha. apply in_map_iff in Ha.
    destruct Ha as (ar & <- & _). cbn [area_plants Db.areaOfRow] in Hq.
    apply in_map_iff in Hq. destruct Hq as (pr & <- & _).
    cbn [plant_id Db.plantOfRow] in Hqp. subst p.
    unfold Db.plantOfRow at 2. unfold Garden.withJournal.
    cbn [plant_id plant_seedId plant_seedTitle plant_seedCategory
           plant_seedImage plant_plantedDate plant_stage plant_journal].
    unfold Db.plantOfRow. f_equal. symmetry. apply trimmedJournal_none.
    rewrite Hstage, Hpop. reflexivity.
Qed.

Lemma withStageJournal_same (q : Plant) :
  Garden.withStageJournal q (plant_stage q) (plant_journal q) = q.
Proof. destruct q. reflexivity. Qed.

Lemma plantOfRow_same_journal (db db' : Db.Database) (r : Db.PlantRow) :
  Db.journal_entries db' = Db.journal_entries db ->
  Db.plantOfRow db' r = Db.plantOfRow db r.
Proof.
  intros H. unfold Db.plantOfRow, Db.journalRowsOf. rewrite H. reflexivity.
Qed.

(** A write that leaves the area rows and the journal alone and rewrites
    plant rows in place, keeping their id and area, rewrites the loaded
    plants in place. *)
Lemma load_plant_change (u : Db.PlantRow -> Db.PlantRow) (g : Plant -> Plant)
      (db db' : Db.Database) :
  Db.areas db' = Db.areas db ->
  Db.journal_entries db' = Db.journal_entries db ->
  Db.plants db' = map u (Db.plants db) ->
  (forall r, Db.pr_area_id (u r) = Db.pr_area_id r) ->
  (forall r, Db.plantOfRow db (u r) = g (Db.plantOfRow db r)) ->
  Db.loadAllAreas db' = everyPlant g (Db.loadAllAreas db).
Proof.
  intros Ha Hj Hp Hu Hg. unfold Db.loadAllAreas, everyPlant.
  rewrite Ha, map_map. apply map_ext. intros r.
  unfold Db.areaOfRow, Garden.withPlants.
  cbn [area_id area_name area_emoji area_createdAt area_plants]. f_equal.
  unfold Db.plantRowsOf. rewrite Hp, filter_of_map, !map_map.
  rewrite (filter_ext _ (fun p => Db.pr_area_id p =? Db.ar_id r))
    by (intros x; rewrite Hu; reflexivity).
  apply map_ext. intros x.
  rewrite (plantOfRow_same_journal db db') by exact Hj. apply Hg.
Qed.

Lemma loadAllAreas_updatePlantStage (i : string) (stage : option string)
      (db db' : Db.Database) :
  Db.updatePlantStage (Some i) stage db = Db.Ok db' ->
  Db.loadAllAreas db'
  = everywhere i
      (fun q => Garden.withStageJournal q stage (plant_journal q))
      (Db.loadAllAreas db).
Proof.
  intros H. injection H as <-. unfold everywhere.
  apply (load_plant_change
           (fun r => if Db.pr_id r =? i
                     then Db.mkPlantRow (Db.pr_id r) (Db.pr_area_id r)
                            (Db.pr_seed_id r) (Db.pr_seed_title r)
                            (Db.pr_seed_category r) (Db.pr_seed_image r)
                            (Db.pr_planted_date r) stage
                     else r));
    try reflexivity.
  - intros r. destruct (Db.pr_id r =? i); reflexivity.
  - intros r. cbn [plant_id Db.plantOfRow].
    destruct (Db.pr_id r =? i); reflexivity.
Qed.

Lemma loadAllAreas_insertPlant (i a d : string) (s t c im st : option string)
      (db db' : Db.Database) :
  Integrity db ->
  Db.insertPlant (Some i) (Some a) s t c im (Some d) st db = Db.Ok db' ->
  Db.loadAllAreas db'
  = Garden.onArea a
      (fun ar => Garden.withPlants ar
                   (area_plants ar ++ [mkPlant i s t c im d st []]))
      (Db.loadAllAreas db).
Proof.
  intros Hi H. apply insertPlant_ok in H. destruct H as (Hfresh & _ & ->).
  unfold Db.loadAllAreas, Garden.onArea. cbn [Db.areas Db.withPlants].
  rewrite map_map. apply map_ext. intros r.
  cbn [area_id Db.areaOfRow].
  assert (Hnone : Db.journalRowsOf i db = []).
  { apply no_entries_of_unknown_plant; [exact Hi|].
    apply (hasKey_false Db.pr_id). exact Hfresh. }
  unfold Db.areaOfRow, Garden.withPlants.
  cbn [area_id area_name area_emoji area_createdAt area_plants].
  unfold Db.plantRowsOf. cbn [Db.plants Db.withPlants].
  rewrite filter_app. cbn [filter Db.pr_area_id].
  rewrite (String.eqb_sym a (Db.ar_id r)).
  destruct (Db.ar_id r =? a).
  - f_equal. rewrite map_app. cbn [map].
    apply f_equal2; [apply map_ext; intros x; apply plantOfRow_same_journal;
                     reflexivity|].
    f_equal.
    unfold Db.plantOfRow. cbn [Db.pr_id Db.pr_seed_id Db.pr_seed_title
        Db.pr_seed_category Db.pr_seed_image Db.pr_planted_date Db.pr_stage].
      change (Db.journalRowsOf i
                (Db.withPlants db
                   (Db.plants db ++ [Db.mkPlantRow i a s t c im d st])))
        with (Db.journalRowsOf i db).
    rewrite Hnone. reflexivity.
  - f_equal. rewrite app_nil_r.
    apply map_ext. intros x. apply plantOfRow_same_journal. reflexivity.
Qed.

Lemma loadAllAreas_insertArea (i n e c : string) (db db' : Db.Database) :
  Integrity db ->
  Db.insertArea (Some i) (Some n) (Some e) (Some c) db = Db.Ok db' ->
  Db.loadAllAreas db' = Db.loadAllAreas db ++ [mkArea i n e c []].
Proof.
  intros Hi H.
  pose proof (insertArea_integrity _ _ _ _ _ _ Hi H) as Hi'.
  apply insertArea_ok in H. destruct H as (_ & ->).
  apply (load_written [mkArea i n e c []] db); try assumption;
    cbn; rewrite ?app_nil_r; reflexivity.
Qed.

Lemma loadAllAreas_updateArea (i n e : string) (db db' : Db.Database) :
  Db.updateArea (Some i) (Some n) (Some e) db = Db.Ok db' ->
  Db.loadAllAreas db'
  = Garden.onArea i
      (fun a => mkArea (area_id a) n e (area_createdAt a) (area_plants a))
      (Db.loadAllAreas db).
Proof.
  unfold Db.updateArea. destruct (Db.hasArea i db) eqn:Hhas;
    intros H; injection H as <-.
  - unfold Db.loadAllAreas, Garden.onArea. cbn [Db.areas Db.withAreas].
    rewrite !map_map. apply map_ext. intros r. cbn [area_id Db.areaOfRow].
    destruct (Db.ar_id r =? i); reflexivity.
  - symmetry. apply onArea_fixed. intros a Ha Hid. exfalso.
    unfold Db.loadAllAreas in Ha. apply in_map_iff in Ha.
    destruct Ha as (r & <- & Hr). cbn [area_id Db.areaOfRow] in Hid.
    assert (Hin : Db.hasArea i db = true)
      by (apply hasArea_In; rewrite <- Hid; apply in_map; exact Hr).
    congruence.
Qed.

(** ** Ids of a loaded garden *)

Section Grouped.
Context {A B : Type} (keyA : A -> string) (keyB parent : B -> string).

(** Rows selected by the key of their parent, parent after parent. *)
Lemma grouped_In (parents : list A) (l : list B) (b : B) :
  In b (flat_map (fun a => filter (fun x => parent x =? keyA a) l) parents)
  <-> In b l /\ In (parent b) (map keyA parents).
Proof.
  rewrite in_flat_map. split.
  - intros (a & Ha & Hb). apply filter_In in Hb. destruct Hb as (Hb & E).
    apply String.eqb_eq in E. split; [exact Hb|].
    rewrite E. apply in_map. exact Ha.
  - intros (Hb & Hp). apply in_map_iff in Hp. destruct Hp as (a & E & Ha).
    exists a. split; [exact Ha|]. apply filter_In. split; [exact Hb|].
    apply String.eqb_eq. symmetry. exact E.
Qed.

Lemma grouped_keys (parents : list A) (l : list B) :
  NoDup (map keyA parents) -> NoDup (map keyB l) ->
  NoDup (map keyB
           (flat_map (fun a => filter (fun x => parent x =? keyA a) l)
                     parents)).
Proof.
  intros Hp Hl. induction parents as [|a ps IH]; [constructor|].
  cbn [map] in Hp. inversion Hp as [|? ? Hnot Hrest]. subst.
  cbn [flat_map]. rewrite map_app. apply NoDup_app.
  - apply keys_filter. exact Hl.
  - apply IH. exact Hrest.
  - intros k Hk1 Hk2.
    apply in_map_iff in Hk1. destruct Hk1 as (x & Ex & Hx).
    apply in_map_iff in Hk2. destruct Hk2 as (y & Ey & Hy).
    apply filter_In in Hx. destruct Hx as (Hx & Px).
    apply String.eqb_eq in Px.
    apply grouped_In in Hy. destruct Hy as (Hy & Py).
    assert (x = y) by (apply (key_unique keyB l); congruence).
    subst y. apply Hnot. rewrite <- Px. exact Py.
Qed.
End Grouped.

(** The sample worlds agree with their stores. *)
Lemma planterWorld_in_sync : InSync Sample.planterWorld Sample.planterDb.
Proof.
  split; [apply flush_integrity; exact emptyDatabase_integrity|].
  vm_compute. reflexivity.
Qed.

Lemma grownWorld_in_sync : InSync Sample.grownWorld Sample.grownDb.
Proof.
  split; [apply flush_integrity; exact emptyDatabase_integrity|].
  vm_compute. reflexivity.
Qed.

Lemma plantOnlyInb_sound (areaId plantId : string) (l : list Area) :
  plantOnlyInb areaId plantId l = true -> plantOnlyIn areaId plantId l.
Proof.
  intros H a q Ha Hq E. unfold plantOnlyInb in H.
  pose proof (proj1 (forallb_forall _ _) H a Ha) as Hrow.
  apply orb_true_iff in Hrow. destruct Hrow as [Hrow|Hrow].
  - apply String.eqb_eq. exact Hrow.
  - pose proof (proj1 (forallb_forall _ _) Hrow q Hq) as Hq'.
    apply negb_true_iff, String.eqb_neq in Hq'. contradiction.
Qed.

Lemma entryOnlyInb_sound (areaId plantId entryId : string) (l : list Area) :
  entryOnlyInb areaId plantId entryId l = true ->
  entryOnlyIn areaId plantId entryId l.
Proof.
  intros H a q e Ha Hq He E. unfold entryOnlyInb in H.
  pose proof (proj1 (forallb_forall _ _) H a Ha) as Hrow.
  pose proof (proj1 (forallb_forall _ _) Hrow q Hq) as Hcell.
  apply orb_true_iff in Hcell. destruct Hcell as [Hcell|Hcell].
  - apply andb_true_iff in Hcell. destruct Hcell as (H1 & H2).
    split; apply String.eqb_eq; assumption.
  - pose proof (proj1 (forallb_forall _ _) Hcell e He) as He'.
    apply negb_true_iff, String.eqb_neq in He'. contradiction.
Qed.

Lemma seedling_only_in_planter :
  plantOnlyIn "a" "b" (Garden.areas Sample.planterWorld).
Proof. apply plantOnlyInb_sound. vm_compute. reflexivity. Qed.

Lemma firstPlant_only_in_planter :
  plantOnlyIn "a" "b" (Garden.areas Sample.grownWorld).
Proof. apply plantOnlyInb_sound. vm_compute. reflexivity. Qed.

Lemma firstNote_only_in_firstPlant :
  entryOnlyIn "a" "b" "e" (Garden.areas Sample.grownWorld).
Proof. apply entryOnlyInb_sound. vm_compute. reflexivity. Qed.

Lemma loaded_area_ids (db : Db.Database) :
  map area_id (Db.loadAllAreas db) = map Db.ar_id (Db.areas db).
Proof. unfold Db.loadAllAreas. rewrite map_map. reflexivity. Qed.

Lemma loaded_plants (db : Db.Database) :
  flat_map area_plants (Db.loadAllAreas db)
  = map (Db.plantOfRow db)
        (flat_map (fun r => Db.plantRowsOf (Db.ar_id r) db) (Db.areas db)).
Proof.
  unfold Db.loadAllAreas. generalize (Db.areas db). intros l.
  induction l as [|r l IH]; [reflexivity|].
  cbn [map flat_map]. rewrite map_app, IH. reflexivity.
Qed.

Lemma loaded_entries (db : Db.Database) :
  flat_map plant_journal (flat_map area_plants (Db.loadAllAreas db))
  = map Db.entryOfRow
        (flat_map (fun p => Db.journalRowsOf (Db.pr_id p) db)
                  (flat_map (fun r => Db.plantRowsOf (Db.ar_id r) db)
                            (Db.areas db))).
Proof.
  rewrite loaded_plants.
  generalize (flat_map (fun r => Db.plantRowsOf (Db.ar_id r) db) (Db.areas db)).
  intros l. induction l as [|p l IH]; [reflexivity|].
  cbn [map flat_map]. rewrite map_app, IH. reflexivity.
Qed.

Lemma plant_rows_loaded (db : Db.Database) (r : Db.PlantRow) :
  Integrity db -> In r (Db.plants db) ->
  In r (flat_map (fun a => Db.plantRowsOf (Db.ar_id a) db) (Db.areas db)).
Proof.
  intros Hi Hr. unfold Db.plantRowsOf.
  apply (grouped_In Db.ar_id Db.pr_area_id). split; [exact Hr|].
  apply hasArea_In. apply (plantRefs db Hi). exact Hr.
Qed.

Lemma entry_rows_loaded (db : Db.Database) (e : Db.JournalRow) :
  Integrity db -> In e (Db.journal_entries db) ->
  In e (flat_map (fun p => Db.journalRowsOf (Db.pr_id p) db)
                 (flat_map (fun a => Db.plantRowsOf (Db.ar_id a) db)
                           (Db.areas db))).
Proof.
  intros Hi He. unfold Db.journalRowsOf.
  apply (grouped_In Db.pr_id Db.jr_plant_id). split; [exact He|].
  pose proof (entryRefs db Hi e He) as Hp. apply hasPlant_In in Hp.
  apply in_map_iff in Hp. destruct Hp as (r & <- & Hr).
  apply in_map. apply plant_rows_loaded; assumption.
Qed.

Lemma loaded_plant_ids_unique (db : Db.Database) :
  Integrity db ->
  NoDup (map Db.pr_id
           (flat_map (fun a => Db.plantRowsOf (Db.ar_id a) db) (Db.areas db))).
Proof.
  intros Hi. unfold Db.plantRowsOf.
  apply (grouped_keys Db.ar_id Db.pr_id Db.pr_area_id).
  - exact (areaKeys db Hi).
  - exact (plantKeys db Hi).
Qed.

Lemma fresh_plant_in_store (w : Garden.World) (db : Db.Database) (i : string) :
  InSync w db ->
  ~ In i (map plant_id (flat_map area_plants (Garden.areas w))) ->
  Db.hasPlant i db = false.
Proof.
  intros (Hi & Hl) Hfresh. apply (hasKey_false Db.pr_id). intros Hin.
  apply Hfresh. rewrite <- Hl, loaded_plants, map_map.
  apply in_map_iff in Hin. destruct Hin as (r & <- & Hr).
  apply (in_map (fun x => plant_id (Db.plantOfRow db x))).
  apply plant_rows_loaded; assumption.
Qed.

Lemma fresh_entry_in_store (w : Garden.World) (db : Db.Database) (i : string) :
  InSync w db ->
  ~ In i (map entry_id
            (flat_map plant_journal
                      (flat_map area_plants (Garden.areas w)))) ->
  Db.hasEntry i db = false.
Proof.
  intros (Hi & Hl) Hfresh. apply (hasKey_false Db.jr_id). intros Hin.
  apply Hfresh. rewrite <- Hl, loaded_entries, map_map.
  apply in_map_iff in Hin. destruct Hin as (r & <- & Hr).
  apply (in_map (fun x => entry_id (Db.entryOfRow x))).
  apply entry_rows_loaded; assumption.
Qed.

Lemma fresh_area_in_store (w : Garden.World) (db : Db.Database) (i : string) :
  InSync w db ->
  ~ In i (map area_id (Garden.areas w)) ->
  Db.hasArea i db = false.
Proof.
  intros (Hi & Hl) Hfresh. apply (hasKey_false Db.ar_id).
  rewrite <- loaded_area_ids, Hl. exact Hfresh.
Qed.

(** X6. What [loadAllAreas] returns from a store that keeps its
    constraints has no id twice: not among the areas, not among the plants
    of all areas together, not among the journal entries of all plants
    together; and it leaves nothing out: every plant row and every journal
    row of the store is found in it. *)
Theorem loaded_ids_are_unique :
  forall db : Db.Database,
    Integrity db ->
    let l := Db.loadAllAreas db in
    NoDup (map area_id l)
    /\ NoDup (map plant_id (flat_map area_plants l))
    /\ NoDup (map entry_id (flat_map plant_journal (flat_map area_plants l)))
    /\ (forall r, In r (Db.plants db) ->
                  exists a q, In a l /\ In q (area_plants a)
                              /\ area_id a = Db.pr_area_id r
                              /\ q = Db.plantOfRow db r)
    /\ (forall e, In e (Db.journal_entries db) ->
                  exists a q, In a l /\ In q (area_plants a)
                              /\ plant_id q = Db.jr_plant_id e
                              /\ In (Db.entryOfRow e) (plant_journal q)).
Proof.
  intros db Hi. cbn zeta.
  assert (Hplant : forall r, In r (Db.plants db) ->
             exists a q, In a (Db.loadAllAreas db) /\ In q (area_plants a)
                         /\ area_id a = Db.pr_area_id r
                         /\ q = Db.plantOfRow db r).
  { intros r Hr.
    pose proof (plantRefs db Hi r Hr) as Ha. apply hasArea_In in Ha.
    apply in_map_iff in Ha. destruct Ha as (ar & Ea & Har).
    exists (Db.areaOfRow db ar), (Db.plantOfRow db r).
    refine (conj _ (conj _ (conj Ea eq_refl))).
    - unfold Db.loadAllAreas. apply in_map. exact Har.
    - cbn [area_plants Db.areaOfRow]. apply in_map. apply filter_In.
      split; [exact Hr|]. apply String.eqb_eq. symmetry. exact Ea. }
  refine (conj _ (conj _ (conj _ (conj Hplant _)))).
  - rewrite loaded_area_ids. exact (areaKeys db Hi).
  - rewrite loaded_plants, map_map.
    exact (loaded_plant_ids_unique db Hi).
  - rewrite loaded_entries, map_map. unfold Db.journalRowsOf.
    apply (grouped_keys Db.pr_id Db.jr_id Db.jr_plant_id).
    + exact (loaded_plant_ids_unique db Hi).
    + exact (entryKeys db Hi).
  - intros e He.
    pose proof (entryRefs db Hi e He) as Hp. apply hasPlant_In in Hp.
    apply in_map_iff in Hp. destruct Hp as (r & Er & Hr).
    destruct (Hplant r Hr) as (a & q & Ha & Hq & _ & ->).
    exists a, (Db.plantOfRow db r).
    refine (conj Ha (conj Hq (conj Er _))).
    cbn [plant_journal Db.plantOfRow]. apply in_map. apply filter_In.
    split; [exact He|]. apply String.eqb_eq. symmetry. exact Er.
Qed.

Lemma loaded_ids_are_unique_witness :
  Integrity Sample.grownDb
  /\ map plant_id (flat_map area_plants (Db.loadAllAreas Sample.grownDb))
     = ["b"; "f"]
  /\ NoDup (map plant_id
              (flat_map area_plants (Db.loadAllAreas Sample.grownDb))).
Proof.
  assert (Hint : Integrity Sample.grownDb)
    by (apply flush_integrity; exact emptyDatabase_integrity).
  destruct (loaded_ids_are_unique Sample.grownDb Hint) as (_ & H & _).
  split; [exact Hint|]. split; [vm_compute; reflexivity|exact H].
Defined.

(** ** Memory and durable store agree after every mutation *)

Lemma skipn_past {A : Type} (l x : list A) : skipn (List.length l) (l ++ x) = x.
Proof. induction l as [|y l IH]; [reflexivity|exact IH]. Qed.

Lemma settle_one (c : Persist.DbCall) (db : Db.Database) :
  Persist.flush [Persist.Background c] db
  = match Persist.runCall c db with
    | Db.Ok db' => db'
    | Db.Err _ => db
    end.
Proof.
  unfold Persist.flush. cbn [fold_left Persist.perform Persist.settleEach].
  unfold Persist.attempt. cbn [hd]. destruct (Persist.runCall c db); reflexivity.
Qed.

Lemma settle_two (c1 c2 : Persist.DbCall) (db : Db.Database) :
  Persist.flush [Persist.PromiseAll [c1; c2]] db
  = let db1 := match Persist.runCall c1 db with
               | Db.Ok db' => db'
               | Db.Err _ => db
               end in
    match Persist.runCall c2 db1 with
    | Db.Ok db' => db'
    | Db.Err _ => db1
    end.
Proof.
  unfold Persist.flush. cbn [fold_left Persist.perform Persist.settleEach].
  unfold Persist.attempt. cbn [hd tl].
  destruct (Persist.runCall c1 db) as [db1|e]; cbn zeta;
    [destruct (Persist.runCall c2 db1)|destruct (Persist.runCall c2 db)];
    reflexivity.
Qed.

Lemma settle_transaction (c1 c2 : Persist.DbCall) (db : Db.Database) :
  Persist.flush [Persist.InTransaction [c1; c2]] db
  = match Persist.runCall c1 db with
    | Db.Ok db1 =>
        match Persist.runCall c2 db1 with
        | Db.Ok db2 => db2
        | Db.Err _ => db
        end
    | Db.Err _ => db
    end.
Proof.
  unfold Persist.flush. cbn [fold_left Persist.perform].
  unfold Persist.withTransactionAsync.
  cbn [Persist.awaitEach Persist.attempt hd tl].
  destruct (Persist.runCall c1 db) as [db1|e]; [|reflexivity].
  destruct (Persist.runCall c2 db1); reflexivity.
Qed.

Lemma everywhere_absent (plantId : string) (f : Plant -> Plant)
      (db : Db.Database) :
  Db.hasPlant plantId db = false ->
  everywhere plantId f (Db.loadAllAreas db) = Db.loadAllAreas db.
Proof.
  intros H. apply everyPlant_fixed. intros a q Ha Hq.
  destruct (String.eqb_spec (plant_id q) plantId) as [E|_]; [|reflexivity].
  pose proof (loaded_plant_has_row db a q Ha Hq) as Hhas. congruence.
Qed.

Lemma onArea_absent (areaId : string) (g : Area -> Area) (db : Db.Database) :
  Db.hasArea areaId db = false ->
  Garden.onArea areaId g (Db.loadAllAreas db) = Db.loadAllAreas db.
Proof.
  intros H. apply onArea_fixed. intros a Ha Hid. exfalso.
  assert (Hin : In areaId (map area_id (Db.loadAllAreas db)))
    by (rewrite <- Hid; apply in_map; exact Ha).
  rewrite loaded_area_ids in Hin. apply hasArea_In in Hin. congruence.
Qed.

(** When the plants with an id are all in the areas with [areaId], a
    change to the plant in that area is the change to the plant wherever
    it is. *)
Lemma everywhere_onPlant (areaId plantId : string) (f : Plant -> Plant)
      (l : list Area) :
  plantOnlyIn areaId plantId l ->
  everywhere plantId f l = Garden.onPlant areaId plantId f l.
Proof.
  intros Honly. unfold everywhere, everyPlant, Garden.onPlant, Garden.onArea.
  apply map_ext_in. intros a Ha.
  destruct (String.eqb_spec (area_id a) areaId) as [_|Hne]; [reflexivity|].
  transitivity (Garden.withPlants a (area_plants a)); [|apply withPlants_same].
  f_equal. apply map_without_target. intros q Hq E.
  apply Hne. exact (Honly a q Ha Hq E).
Qed.

Lemma everyPlant_filter_onArea (areaId plantId : string) (l : list Area) :
  plantOnlyIn areaId plantId l ->
  map (fun a => Garden.withPlants a
                  (filter (fun p => negb (plant_id p =? plantId))
                          (area_plants a))) l
  = Garden.onArea areaId
      (fun a => Garden.withPlants a
                  (filter (fun p => negb (plant_id p =? plantId))
                          (area_plants a))) l.
Proof.
  intros Honly. unfold Garden.onArea. apply map_ext_in. intros a Ha.
  destruct (String.eqb_spec (area_id a) areaId) as [_|Hne]; [reflexivity|].
  transitivity (Garden.withPlants a (area_plants a)); [|apply withPlants_same].
  f_equal. apply filter_without_target. intros q Hq E.
  apply Hne. exact (Honly a q Ha Hq E).
Qed.

Lemma everyPlant_unjournal_onPlant (areaId plantId entryId : string)
      (l : list Area) :
  entryOnlyIn areaId plantId entryId l ->
  everyPlant
    (fun q => Garden.withJournal q
                (filter (fun e => negb (entry_id e =? entryId))
                        (plant_journal q))) l
  = Garden.onPlant areaId plantId
      (fun q => Garden.withJournal q
                  (filter (fun e => negb (entry_id e =? entryId))
                          (plant_journal q))) l.
Proof.
  intros Honly. unfold everyPlant, Garden.onPlant, Garden.onArea.
  apply map_ext_in. intros a Ha.
  assert (Hkeep : forall q, In q (area_plants a) ->
             (area_id a <> areaId \/ plant_id q <> plantId) ->
             Garden.withJournal q
               (filter (fun e => negb (entry_id e =? entryId))
                       (plant_journal q)) = q).
  { intros q Hq Hne.
    transitivity (Garden.withJournal q (plant_journal q));
      [|apply withJournal_same].
    f_equal. apply filter_all. intros e He.
    apply negb_true_iff, String.eqb_neq. intros E.
    destruct (Honly a q e Ha Hq He E) as (E1 & E2). tauto. }
  destruct (String.eqb_spec (area_id a) areaId) as [_|Hne].
  - f_equal. apply map_ext_in. intros q Hq.
    destruct (String.eqb_spec (plant_id q) plantId) as [_|Hnq];
      [reflexivity|].
    apply Hkeep; [exact Hq|right; exact Hnq].
  - transitivity (Garden.withPlants a (area_plants a));
      [|apply withPlants_same].
    f_equal. transitivity (map (fun q : Plant => q) (area_plants a));
      [|apply map_id].
    apply map_ext_in. intros q Hq. apply Hkeep; [exact Hq|left; exact Hne].
Qed.

Lemma createArea_agrees :
  forall (name emoji : string) (w : Garden.World) (db : Db.Database),
    InSync w db ->
    ~ In (Garden.idSource w (Garden.idsTaken w))
         (map area_id (Garden.areas w)) ->
    InSync (Garden.exec (Garden.createArea name (Some emoji)) w)
           (settled (Garden.createArea name (Some emoji)) w db).
Proof.
  intros name emoji w db Hsync Hfresh.
  pose proof (fresh_area_in_store w db _ Hsync Hfresh) as Hno.
  destruct Hsync as (Hi & Hl).
  unfold settled, dispatchedBy, Garden.exec.
  cbn -[Js.trim skipn Persist.flush Db.loadAllAreas].
  rewrite skipn_past, settle_one. cbn [Persist.runCall].
  destruct (Db.insertArea _ _ _ _ db) as [db'|e] eqn:Hins.
  - split; [exact (insertArea_integrity _ _ _ _ _ _ Hi Hins)|].
    rewrite (loadAllAreas_insertArea _ _ _ _ _ _ Hi Hins), Hl. reflexivity.
  - exfalso. unfold Db.insertArea in Hins. rewrite Hno in Hins. discriminate.
Qed.

(** X7. [createArea] called with an emoji, as [handleCreate] calls it
    (and a call that leaves the emoji out is by the default parameter the
    call with the plant pot), keeps memory and the durable store in
    agreement: when the store loads to the areas in memory and the id
    [makeId] hands out is not the id of an area in memory, then after
    [createArea] and its insert the store loads to the areas in memory,
    which are the old ones followed by the new area with the trimmed name,
    that emoji, the date of today and no plant. *)
Theorem createArea_in_sync :
  forall (name emoji : string) (w : Garden.World) (db : Db.Database),
    InSync w db ->
    ~ In (Garden.idSource w (Garden.idsTaken w))
         (map area_id (Garden.areas w)) ->
    InSync (Garden.exec (Garden.createArea name (Some emoji)) w)
           (settled (Garden.createArea name (Some emoji)) w db)
    /\ Db.loadAllAreas (settled (Garden.createArea name (Some emoji)) w db)
       = Garden.areas w
           ++ [mkArea (Garden.idSource w (Garden.idsTaken w)) (Js.trim name)
                      emoji (Garden.clockIso w) []].
Proof.
  intros name emoji w db Hsync Hfresh.
  pose proof (createArea_agrees name emoji w db Hsync Hfresh) as Hafter.
  split; [exact Hafter|].
  destruct Hafter as (_ & Hload). rewrite Hload. reflexivity.
Qed.

Lemma createArea_in_sync_witness :
  InSync Sample.planterWorld Sample.planterDb
  /\ ~ In (Garden.idSource Sample.planterWorld
                           (Garden.idsTaken Sample.planterWorld))
          (map area_id (Garden.areas Sample.planterWorld))
  /\ InSync (Garden.exec (Garden.createArea " Herbs " (Some "🌿"))
                         Sample.planterWorld)
            (settled (Garden.createArea " Herbs " (Some "🌿"))
                     Sample.planterWorld Sample.planterDb)
  /\ map area_name
         (Db.loadAllAreas
            (settled (Garden.createArea " Herbs " (Some "🌿"))
                     Sample.planterWorld Sample.planterDb))
     = ["Planter Box 1"; "Herbs"].
Proof.
  assert (Hfresh : ~ In (Garden.idSource Sample.planterWorld
                                         (Garden.idsTaken Sample.planterWorld))
                        (map area_id (Garden.areas Sample.planterWorld)))
    by (vm_compute; intros [H|[]]; discriminate H).
  split; [exact planterWorld_in_sync|]. split; [exact Hfresh|].
  split; [|vm_compute; reflexivity].
  exact (proj1 (createArea_in_sync " Herbs " "🌿" Sample.planterWorld
                  Sample.planterDb planterWorld_in_sync Hfresh)).
Defined.

Lemma everywhere_twice (plantId : string) (f g : Plant -> Plant)
      (l : list Area) :
  (forall q, plant_id (g q) = plant_id q) ->
  everywhere plantId f (everywhere plantId g l)
  = everywhere plantId (fun q => f (g q)) l.
Proof.
  intros Hg. unfold everywhere, everyPlant. rewrite map_map.
  apply map_ext. intros a. unfold Garden.withPlants.
  cbn [area_id area_name area_emoji area_createdAt area_plants].
  f_equal. rewrite map_map. apply map_ext. intros q.
  destruct (plant_id q =? plantId) eqn:E; [rewrite Hg, E|rewrite E];
    reflexivity.
Qed.

(** The insert of a plant without journal, settled: the plant is appended
    to the areas with the id, and to none when the store has no such
    area. *)
Lemma insertPlant_settled (areaId : string) (p : Plant) (db : Db.Database) :
  Integrity db ->
  Db.hasPlant (plant_id p) db = false ->
  plant_journal p = [] ->
  Db.loadAllAreas
    (Persist.flush [Persist.Background (Garden.insertPlantOf areaId p)] db)
  = Garden.onArea areaId
      (fun a => Garden.withPlants a (area_plants a ++ [p]))
      (Db.loadAllAreas db).
Proof.
  intros Hi Hno Hj. rewrite settle_one.
  unfold Garden.insertPlantOf. cbn [Persist.runCall].
  destruct (Db.insertPlant _ _ _ _ _ _ _ _ db) as [db'|e] eqn:Hins.
  - rewrite (loadAllAreas_insertPlant _ _ _ _ _ _ _ _ _ _ Hi Hins).
    destruct p as [i s t c im d st j]. cbn in Hj. subst j. reflexivity.
  - unfold Db.insertPlant in Hins. rewrite Hno in Hins.
    destruct (Db.hasArea areaId db) eqn:Ha; cbn in Hins; [discriminate|].
    symmetry. apply onArea_absent. exact Ha.
Qed.

(** The insert of a journal entry, settled: the entry is appended to the
    journal of the plants with the id, and to none when the store has no
    such plant. *)
Lemma insertEntry_settled (plantId : string) (e : JournalEntry)
      (db : Db.Database) :
  Db.hasEntry (entry_id e) db = false ->
  Db.loadAllAreas
    (match Persist.runCall (Garden.insertEntryOf plantId e) db with
     | Db.Ok db' => db'
     | Db.Err _ => db
     end)
  = everywhere plantId
      (fun q => Garden.withJournal q (plant_journal q ++ [e]))
      (Db.loadAllAreas db).
Proof.
  intros Hno. unfold Garden.insertEntryOf. cbn [Persist.runCall].
  destruct (Db.insertJournalEntry _ _ _ _ _ db) as [db'|err] eqn:Hins.
  - rewrite (loadAllAreas_insertJournalEntry _ _ _ _ _ _ _ Hins).
    destruct e. reflexivity.
  - unfold Db.insertJournalEntry in Hins. rewrite Hno in Hins.
    destruct (Db.hasPlant plantId db) eqn:Hp; cbn in Hins; [discriminate|].
    symmetry. apply everywhere_absent. exact Hp.
Qed.

Lemma addPlantToArea_agrees :
  forall (areaId : string) (seed : CatalogItem) (w : Garden.World)
         (db : Db.Database),
    InSync w db ->
    ~ In (Garden.idSource w (Garden.idsTaken w))
         (map plant_id (flat_map area_plants (Garden.areas w))) ->
    InSync (Garden.exec (Garden.addPlantToArea areaId seed) w)
           (settled (Garden.addPlantToArea areaId seed) w db)
    /\ (~ In areaId (map area_id (Garden.areas w)) ->
        Garden.areas (Garden.exec (Garden.addPlantToArea areaId seed) w)
        = Garden.areas w
        /\ settled (Garden.addPlantToArea areaId seed) w db = db).
Proof.
  intros areaId seed w db Hsync Hfresh.
  pose proof (fresh_plant_in_store w db _ Hsync Hfresh) as Hno.
  pose proof Hsync as (Hi & Hl).
  unfold settled, dispatchedBy, Garden.exec.
  cbn -[skipn Persist.flush Db.loadAllAreas Garden.insertPlantOf
              Garden.plantOfSeed].
  rewrite skipn_past. split.
  - split; [apply flush_integrity; exact Hi|].
    rewrite (insertPlant_settled _ (Garden.plantOfSeed _ _ _) _ Hi Hno eq_refl),
      Hl.
    reflexivity.
  - intros Harea.
    pose proof (fresh_area_in_store w db _ Hsync Harea) as Hnoarea.
    split.
    + rewrite <- Hl. apply onArea_absent. exact Hnoarea.
    + rewrite settle_one. unfold Garden.insertPlantOf. cbn [Persist.runCall].
      unfold Db.insertPlant. cbn [plant_id plant_plantedDate Garden.plantOfSeed].
      rewrite Hno, Hnoarea. reflexivity.
Qed.

(** X8. [addPlantToArea] keeps memory and the durable store in
    agreement when the id [makeId] hands out is not the id of a plant in
    memory; this includes the call with the id of no area, which changes
    neither. *)
Theorem addPlantToArea_in_sync :
  forall (areaId : string) (seed : CatalogItem) (w : Garden.World)
         (db : Db.Database),
    InSync w db ->
    ~ In (Garden.idSource w (Garden.idsTaken w))
         (map plant_id (flat_map area_plants (Garden.areas w))) ->
    InSync (Garden.exec (Garden.addPlantToArea areaId seed) w)
           (settled (Garden.addPlantToArea areaId seed) w db)
    /\ (~ In areaId (map area_id (Garden.areas w)) ->
        Garden.areas (Garden.exec (Garden.addPlantToArea areaId seed) w)
        = Garden.areas w
        /\ settled (Garden.addPlantToArea areaId seed) w db = db).
Proof. exact addPlantToArea_agrees. Qed.

Lemma addPlantToArea_in_sync_witness :
  InSync Sample.planterWorld Sample.planterDb
  /\ ~ In (Garden.idSource Sample.planterWorld
                           (Garden.idsTaken Sample.planterWorld))
          (map plant_id
               (flat_map area_plants (Garden.areas Sample.planterWorld)))
  /\ InSync (Garden.exec (Garden.addPlantToArea "a" Sample.lettuce)
                         Sample.planterWorld)
            (settled (Garden.addPlantToArea "a" Sample.lettuce)
                     Sample.planterWorld Sample.planterDb).
Proof.
  assert (Hfresh : ~ In (Garden.idSource Sample.planterWorld
                                         (Garden.idsTaken Sample.planterWorld))
                        (map plant_id
                             (flat_map area_plants
                                       (Garden.areas Sample.planterWorld))))
    by (vm_compute; intros [H|[]]; discriminate H).
  split; [exact planterWorld_in_sync|]. split; [exact Hfresh|].
  exact (proj1 (addPlantToArea_in_sync "a" Sample.lettuce Sample.planterWorld
                  Sample.planterDb planterWorld_in_sync Hfresh)).
Defined.

Lemma addCustomPlantToArea_agrees :
  forall (areaId name : string) (category : option string)
         (w : Garden.World) (db : Db.Database),
    InSync w db ->
    ~ In (Garden.idSource w (Garden.idsTaken w))
         (map plant_id (flat_map area_plants (Garden.areas w))) ->
    InSync (Garden.exec (Garden.addCustomPlantToArea areaId name category) w)
           (settled (Garden.addCustomPlantToArea areaId name category) w db).
Proof.
  intros areaId name category w db Hsync Hfresh.
  pose proof (fresh_plant_in_store w db _ Hsync Hfresh) as Hno.
  destruct Hsync as (Hi & Hl).
  unfold settled, dispatchedBy, Garden.exec.
  cbn -[skipn Persist.flush Db.loadAllAreas Garden.insertPlantOf Js.trim
              Js.orElse].
  rewrite skipn_past.
  split; [apply flush_integrity; exact Hi|].
  rewrite (insertPlant_settled _ (mkPlant _ _ _ _ _ _ _ _) _ Hi Hno eq_refl),
    Hl.
  reflexivity.
Qed.

(** X9. [addCustomPlantToArea] keeps memory and the durable store in
    agreement when the id [makeId] hands out is not the id of a plant in
    memory. *)
Theorem addCustomPlantToArea_in_sync :
  forall (areaId name : string) (category : option string)
         (w : Garden.World) (db : Db.Database),
    InSync w db ->
    ~ In (Garden.idSource w (Garden.idsTaken w))
         (map plant_id (flat_map area_plants (Garden.areas w))) ->
    InSync (Garden.exec (Garden.addCustomPlantToArea areaId name category) w)
           (settled (Garden.addCustomPlantToArea areaId name category) w db).
Proof. exact addCustomPlantToArea_agrees. Qed.

Lemma addCustomPlantToArea_in_sync_witness :
  InSync Sample.planterWorld Sample.planterDb
  /\ ~ In (Garden.idSource Sample.planterWorld
                           (Garden.idsTaken Sample.planterWorld))
          (map plant_id
               (flat_map area_plants (Garden.areas Sample.planterWorld)))
  /\ InSync (Garden.exec (Garden.addCustomPlantToArea "a" "Mint" (Some "Herb"))
                         Sample.planterWorld)
            (settled (Garden.addCustomPlantToArea "a" "Mint" (Some "Herb"))
                     Sample.planterWorld Sample.planterDb).
Proof.
  assert (Hfresh : ~ In (Garden.idSource Sample.planterWorld
                                         (Garden.idsTaken Sample.planterWorld))
                        (map plant_id
                             (flat_map area_plants
                                       (Garden.areas Sample.planterWorld))))
    by (vm_compute; intros [H|[]]; discriminate H).
  split; [exact planterWorld_in_sync|]. split; [exact Hfresh|].
  exact (addCustomPlantToArea_in_sync "a" "Mint" (Some "Herb")
           Sample.planterWorld Sample.planterDb planterWorld_in_sync Hfresh).
Defined.

Lemma createAreaAndAddPlant_agrees :
  forall (name emoji : string) (seed : CatalogItem) (w : Garden.World)
         (db : Db.Database),
    InSync w db ->
    ~ In (Garden.idSource w (Garden.idsTaken w))
         (map area_id (Garden.areas w)) ->
    ~ In (Garden.idSource w (S (Garden.idsTaken w)))
         (map plant_id (flat_map area_plants (Garden.areas w))) ->
    InSync (Garden.exec
              (Garden.createAreaAndAddPlant name (Some emoji) seed) w)
           (settled (Garden.createAreaAndAddPlant name (Some emoji) seed)
                    w db).
Proof.
  intros name emoji seed w db Hsync Hfa Hfp.
  pose proof (fresh_area_in_store w db _ Hsync Hfa) as Hnoa.
  pose proof (fresh_plant_in_store w db _ Hsync Hfp) as Hnop.
  destruct Hsync as (Hi & Hl).
  unfold settled, dispatchedBy, Garden.exec.
  cbn -[skipn Persist.flush Db.loadAllAreas Garden.insertPlantOf Js.trim
              Js.nullish Garden.plantOfSeed].
  rewrite skipn_past.
  split; [apply flush_integrity; exact Hi|].
  rewrite settle_transaction. cbn [Persist.runCall].
  destruct (Db.insertArea _ _ _ _ db) as [db1|e] eqn:Hins1;
    [|exfalso; unfold Db.insertArea in Hins1; rewrite Hnoa in Hins1;
      discriminate].
  pose proof (insertArea_integrity _ _ _ _ _ _ Hi Hins1) as Hi1.
  pose proof (loadAllAreas_insertArea _ _ _ _ _ _ Hi Hins1) as Hl1.
  assert (Hnop1 : Db.hasPlant (Garden.idSource w (S (Garden.idsTaken w))) db1
                  = false).
  { apply insertArea_ok in Hins1. destruct Hins1 as (_ & ->). exact Hnop. }
  assert (Hhas1 : Db.hasArea (Garden.idSource w (Garden.idsTaken w)) db1
                  = true).
  { apply insertArea_ok in Hins1. destruct Hins1 as (_ & ->).
    apply hasArea_In. cbn [Db.areas Db.withAreas]. rewrite map_app.
    apply in_or_app. right. left. reflexivity. }
  unfold Garden.insertPlantOf. cbn [Persist.runCall].
  destruct (Db.insertPlant _ _ _ _ _ _ _ _ db1) as [db2|e] eqn:Hins2.
  - rewrite (loadAllAreas_insertPlant _ _ _ _ _ _ _ _ _ _ Hi1 Hins2), Hl1, Hl.
    cbn [Garden.areas]. unfold Garden.onArea. rewrite map_app.
    cbn [map area_id]. rewrite String.eqb_refl.
    apply f_equal2; [|destruct seed; reflexivity].
    transitivity (map (fun a : Area => a) (Garden.areas w)); [|apply map_id].
    apply map_ext_in. intros a Ha.
    destruct (String.eqb_spec (area_id a)
                (Garden.idSource w (Garden.idsTaken w))) as [E|_];
      [|reflexivity].
    exfalso. apply Hfa. rewrite <- E. apply in_map. exact Ha.
  - exfalso. unfold Db.insertPlant in Hins2.
    cbn [plant_id plant_plantedDate Garden.plantOfSeed] in Hins2.
    rewrite Hnop1, Hhas1 in Hins2. discriminate.
Qed.

(** X10. [createAreaAndAddPlant] called with an emoji, as
    [handleCreateAndAdd] calls it, keeps memory and the durable store in
    agreement when the first id [makeId] hands out is not the id of an
    area in memory and the second not the id of a plant in memory: the
    transaction commits and the store loads to the old areas followed by
    the new area, with the trimmed name and that emoji, holding its one
    plant. *)
Theorem createAreaAndAddPlant_in_sync :
  forall (name emoji : string) (seed : CatalogItem) (w : Garden.World)
         (db : Db.Database),
    InSync w db ->
    ~ In (Garden.idSource w (Garden.idsTaken w))
         (map area_id (Garden.areas w)) ->
    ~ In (Garden.idSource w (S (Garden.idsTaken w)))
         (map plant_id (flat_map area_plants (Garden.areas w))) ->
    InSync (Garden.exec
              (Garden.createAreaAndAddPlant name (Some emoji) seed) w)
           (settled (Garden.createAreaAndAddPlant name (Some emoji) seed)
                    w db)
    /\ Db.loadAllAreas
         (settled (Garden.createAreaAndAddPlant name (Some emoji) seed) w db)
       = Garden.areas w
           ++ [mkArea (Garden.idSource w (Garden.idsTaken w)) (Js.trim name)
                      emoji (Garden.clockIso w)
                      [Garden.plantOfSeed
                         (Garden.idSource w (S (Garden.idsTaken w))) seed
                         (Garden.clockIso w)]].
Proof.
  intros name emoji seed w db Hsync Hfa Hfp.
  pose proof (createAreaAndAddPlant_agrees name emoji seed w db Hsync Hfa Hfp)
    as Hafter.
  split; [exact Hafter|].
  destruct Hafter as (_ & Hload). rewrite Hload. reflexivity.
Qed.

Lemma createAreaAndAddPlant_in_sync_witness :
  InSync Sample.planterWorld Sample.planterDb
  /\ map area_id
         (Db.loadAllAreas
            (settled
               (Garden.createAreaAndAddPlant "Herb bed" (Some "🌿")
                                             Sample.lettuce)
               Sample.planterWorld Sample.planterDb))
     = ["a"; "c"]
  /\ InSync (Garden.exec
               (Garden.createAreaAndAddPlant "Herb bed" (Some "🌿")
                                             Sample.lettuce)
               Sample.planterWorld)
            (settled
               (Garden.createAreaAndAddPlant "Herb bed" (Some "🌿")
                                             Sample.lettuce)
               Sample.planterWorld Sample.planterDb).
Proof.
  assert (Hfa : ~ In (Garden.idSource Sample.planterWorld
                                      (Garden.idsTaken Sample.planterWorld))
                     (map area_id (Garden.areas Sample.planterWorld)))
    by (vm_compute; intros [H|[]]; discriminate H).
  assert (Hfp : ~ In (Garden.idSource Sample.planterWorld
                                      (S (Garden.idsTaken Sample.planterWorld)))
                     (map plant_id
                          (flat_map area_plants
                                    (Garden.areas Sample.planterWorld))))
    by (vm_compute; intros [H|[]]; discriminate H).
  split; [exact planterWorld_in_sync|]. split; [vm_compute; reflexivity|].
  exact (proj1 (createAreaAndAddPlant_in_sync "Herb bed" "🌿" Sample.lettuce
                  Sample.planterWorld Sample.planterDb planterWorld_in_sync
                  Hfa Hfp)).
Defined.

Lemma updatePlantStage_agrees :
  forall (areaId plantId stage : string) (w : Garden.World)
         (db : Db.Database),
    Js.inherits stage = false ->
    InSync w db ->
    ~ In (Garden.idSource w (Garden.idsTaken w))
         (map entry_id
              (flat_map plant_journal
                        (flat_map area_plants (Garden.areas w)))) ->
    plantOnlyIn areaId plantId (Garden.areas w) ->
    InSync (Garden.exec (Garden.updatePlantStage areaId plantId stage) w)
           (settled (Garden.updatePlantStage areaId plantId stage) w db).
Proof.
  intros areaId plantId stage w db _ Hsync Hfresh Honly.
  pose proof (fresh_entry_in_store w db _ Hsync Hfresh) as Hno.
  destruct Hsync as (Hi & Hl).
  unfold settled, dispatchedBy, Garden.exec.
  cbn -[skipn Persist.flush Db.loadAllAreas Garden.insertEntryOf
              Garden.stageEntry].
  rewrite skipn_past.
  split; [apply flush_integrity; exact Hi|].
  rewrite settle_two. cbn zeta. cbn [Persist.runCall].
  destruct (Db.updatePlantStage (Some plantId) (Some stage) db)
    as [db1|e] eqn:Hup; [|discriminate].
  assert (Hno1 : Db.hasEntry
                   (entry_id (Garden.stageEntry
                                (Garden.idSource w (Garden.idsTaken w))
                                (Garden.clockToday w) stage)) db1 = false).
  { injection Hup as <-. exact Hno. }
  rewrite (insertEntry_settled _ _ _ Hno1).
  rewrite (loadAllAreas_updatePlantStage _ _ _ _ Hup).
  rewrite everywhere_twice by (intros q; reflexivity).
  rewrite Hl, (everywhere_onPlant areaId) by exact Honly.
  reflexivity.
Qed.

(** X11. [updatePlantStage] with a stage that is not named like a member
    every object inherits (the stages the buttons pass are not) keeps
    memory and the durable store in agreement when the id [makeId] hands
    out is not the id of a journal entry in memory and the plants with the
    plant id are in the areas with the area id only; this includes the
    call with the id of no plant.  The text bound to the insert is the
    text [STAGE_LABELS[stage] || stage]. *)
Theorem updatePlantStage_in_sync :
  forall (areaId plantId stage : string) (w : Garden.World)
         (db : Db.Database),
    Js.inherits stage = false ->
    InSync w db ->
    ~ In (Garden.idSource w (Garden.idsTaken w))
         (map entry_id
              (flat_map plant_journal
                        (flat_map area_plants (Garden.areas w)))) ->
    plantOnlyIn areaId plantId (Garden.areas w) ->
    InSync (Garden.exec (Garden.updatePlantStage areaId plantId stage) w)
           (settled (Garden.updatePlantStage areaId plantId stage) w db)
    /\ dispatchedBy (Garden.updatePlantStage areaId plantId stage) w
       = [Persist.PromiseAll
            [ Persist.UpdatePlantStage (Some plantId) (Some stage);
              Persist.InsertJournalEntry
                (Some (Garden.idSource w (Garden.idsTaken w)))
                (Some plantId) (Some (Garden.clockToday w))
                (Garden.stageText stage) (Some "stage") ]].
Proof.
  intros areaId plantId stage w db Hplain Hsync Hfresh Honly.
  split;
    [exact (updatePlantStage_agrees areaId plantId stage w db Hplain Hsync
              Hfresh Honly)|].
  unfold dispatchedBy, Garden.exec.
  cbn -[skipn Garden.stageEntry Garden.stageText].
  rewrite skipn_past.
  rewrite (stageText_written (Garden.idSource w (Garden.idsTaken w))
             (Garden.clockToday w) stage Hplain).
  reflexivity.
Qed.

Lemma updatePlantStage_in_sync_witness :
  Js.inherits "planted" = false
  /\ InSync Sample.planterWorld Sample.planterDb
  /\ plantOnlyIn "a" "b" (Garden.areas Sample.planterWorld)
  /\ InSync (Garden.exec (Garden.updatePlantStage "a" "b" "planted")
                         Sample.planterWorld)
            (settled (Garden.updatePlantStage "a" "b" "planted")
                     Sample.planterWorld Sample.planterDb).
Proof.
  assert (Hfresh : ~ In (Garden.idSource Sample.planterWorld
                                         (Garden.idsTaken Sample.planterWorld))
                        (map entry_id
                             (flat_map plant_journal
                                (flat_map area_plants
                                          (Garden.areas Sample.planterWorld)))))
    by (vm_compute; intros []).
  split; [reflexivity|].
  split; [exact planterWorld_in_sync|].
  split; [exact seedling_only_in_planter|].
  exact (proj1 (updatePlantStage_in_sync "a" "b" "planted" Sample.planterWorld
                  Sample.planterDb eq_refl planterWorld_in_sync Hfresh
                  seedling_only_in_planter)).
Defined.

Lemma rollbackPlantStage_agrees :
  forall (areaId plantId : string) (stage : option string)
         (w : Garden.World) (db : Db.Database),
    InSync w db ->
    plantOnlyIn areaId plantId (Garden.areas w) ->
    InSync (Garden.exec (Garden.rollbackPlantStage areaId plantId stage) w)
           (settled (Garden.rollbackPlantStage areaId plantId stage) w db).
Proof.
  intros areaId plantId stage w db (Hi & Hl) Honly.
  unfold settled, dispatchedBy, Garden.exec.
  cbn -[skipn Persist.flush Db.loadAllAreas Garden.trimmedJournal].
  rewrite skipn_past.
  split; [apply flush_integrity; exact Hi|].
  rewrite settle_two. cbn zeta. cbn [Persist.runCall].
  destruct (Db.updatePlantStage (Some plantId) stage db)
    as [db1|e] eqn:Hup; [|discriminate].
  assert (Hnd1 : NoDup (map Db.jr_id (Db.journal_entries db1))).
  { injection Hup as <-. exact (entryKeys db Hi). }
  destruct (Db.deleteLastStageEntry (Some plantId) db1) as [db2|e] eqn:Hdel.
  - rewrite (loadAllAreas_deleteLastStageEntry _ _ _ Hnd1 Hdel).
    rewrite (loadAllAreas_updatePlantStage _ _ _ _ Hup).
    rewrite everywhere_twice by (intros q; reflexivity).
    rewrite Hl, (everywhere_onPlant areaId) by exact Honly.
    reflexivity.
  - exfalso. unfold Db.deleteLastStageEntry in Hdel.
    destruct (Db.lastStageEntryId (Some plantId) db1); discriminate.
Qed.

(** X12. [rollbackPlantStage] keeps memory and the durable store in
    agreement when the plants with the plant id are in the areas with the
    area id only: the entry the [DELETE] with its subquery removes is the
    entry the index filter removes in memory. *)
Theorem rollbackPlantStage_in_sync :
  forall (areaId plantId : string) (stage : option string)
         (w : Garden.World) (db : Db.Database),
    InSync w db ->
    plantOnlyIn areaId plantId (Garden.areas w) ->
    InSync (Garden.exec (Garden.rollbackPlantStage areaId plantId stage) w)
           (settled (Garden.rollbackPlantStage areaId plantId stage) w db).
Proof. exact rollbackPlantStage_agrees. Qed.

Lemma rollbackPlantStage_in_sync_witness :
  InSync Sample.grownWorld Sample.grownDb
  /\ plantOnlyIn "a" "b" (Garden.areas Sample.grownWorld)
  /\ InSync (Garden.exec (Garden.rollbackPlantStage "a" "b" (Some "planted"))
                         Sample.grownWorld)
            (settled (Garden.rollbackPlantStage "a" "b" (Some "planted"))
                     Sample.grownWorld Sample.grownDb).
Proof.
  split; [exact grownWorld_in_sync|].
  split; [exact firstPlant_only_in_planter|].
  exact (rollbackPlantStage_in_sync "a" "b" (Some "planted") Sample.grownWorld
           Sample.grownDb grownWorld_in_sync firstPlant_only_in_planter).
Defined.

Lemma addJournalEntry_agrees :
  forall (areaId plantId text : string) (w : Garden.World)
         (db : Db.Database),
    InSync w db ->
    ~ In (Garden.idSource w (Garden.idsTaken w))
         (map entry_id
              (flat_map plant_journal
                        (flat_map area_plants (Garden.areas w)))) ->
    plantOnlyIn areaId plantId (Garden.areas w) ->
    InSync (Garden.exec (Garden.addJournalEntry areaId plantId text) w)
           (settled (Garden.addJournalEntry areaId plantId text) w db).
Proof.
  intros areaId plantId text w db Hsync Hfresh Honly.
  pose proof (fresh_entry_in_store w db _ Hsync Hfresh) as Hno.
  destruct Hsync as (Hi & Hl).
  unfold settled, dispatchedBy, Garden.exec.
  cbn -[skipn Persist.flush Db.loadAllAreas Garden.insertEntryOf
              Garden.noteEntry].
  rewrite skipn_past.
  split; [apply flush_integrity; exact Hi|].
  rewrite settle_one.
  rewrite (insertEntry_settled _ (Garden.noteEntry _ _ _) _ Hno).
  rewrite Hl, (everywhere_onPlant areaId) by exact Honly.
  reflexivity.
Qed.

(** X13. [addJournalEntry] keeps memory and the durable store in
    agreement when the id [makeId] hands out is not the id of a journal
    entry in memory and the plants with the plant id are in the areas with
    the area id only. *)
Theorem addJournalEntry_in_sync :
  forall (areaId plantId text : string) (w : Garden.World)
         (db : Db.Database),
    InSync w db ->
    ~ In (Garden.idSource w (Garden.idsTaken w))
         (map entry_id
              (flat_map plant_journal
                        (flat_map area_plants (Garden.areas w)))) ->
    plantOnlyIn areaId plantId (Garden.areas w) ->
    InSync (Garden.exec (Garden.addJournalEntry areaId plantId text) w)
           (settled (Garden.addJournalEntry areaId plantId text) w db).
Proof. exact addJournalEntry_agrees. Qed.

Lemma addJournalEntry_in_sync_witness :
  InSync Sample.grownWorld Sample.grownDb
  /\ plantOnlyIn "a" "b" (Garden.areas Sample.grownWorld)
  /\ InSync (Garden.exec (Garden.addJournalEntry "a" "b" "Watered")
                         Sample.grownWorld)
            (settled (Garden.addJournalEntry "a" "b" "Watered")
                     Sample.grownWorld Sample.grownDb).
Proof.
  assert (Hfresh : ~ In (Garden.idSource Sample.grownWorld
                                         (Garden.idsTaken Sample.grownWorld))
                        (map entry_id
                             (flat_map plant_journal
                                (flat_map area_plants
                                          (Garden.areas Sample.grownWorld)))))
    by (vm_compute; intros [H|[H|[H|[]]]]; discriminate H).
  split; [exact grownWorld_in_sync|].
  split; [exact firstPlant_only_in_planter|].
  exact (addJournalEntry_in_sync "a" "b" "Watered" Sample.grownWorld
           Sample.grownDb grownWorld_in_sync Hfresh
           firstPlant_only_in_planter).
Defined.

Lemma removeJournalEntry_agrees :
  forall (areaId plantId entryId : string) (w : Garden.World)
         (db : Db.Database),
    InSync w db ->
    entryOnlyIn areaId plantId entryId (Garden.areas w) ->
    InSync (Garden.exec (Garden.removeJournalEntry areaId plantId entryId) w)
           (settled (Garden.removeJournalEntry areaId plantId entryId) w db).
Proof.
  intros areaId plantId entryId w db (Hi & Hl) Honly.
  unfold settled, dispatchedBy, Garden.exec.
  cbn -[skipn Persist.flush Db.loadAllAreas].
  rewrite skipn_past.
  split; [apply flush_integrity; exact Hi|].
  rewrite settle_one. cbn [Persist.runCall].
  destruct (Db.deleteJournalEntry (Some entryId) db) as [db1|e] eqn:Hdel;
    [|discriminate].
  rewrite (loadAllAreas_deleteJournalEntry _ _ _ Hdel), Hl.
  apply everyPlant_unjournal_onPlant. exact Honly.
Qed.

(** X14. [removeJournalEntry] keeps memory and the durable store in
    agreement when the entries with the entry id are in the journal of the
    plant with the plant id in the area with the area id only. *)
Theorem removeJournalEntry_in_sync :
  forall (areaId plantId entryId : string) (w : Garden.World)
         (db : Db.Database),
    InSync w db ->
    entryOnlyIn areaId plantId entryId (Garden.areas w) ->
    InSync (Garden.exec (Garden.removeJournalEntry areaId plantId entryId) w)
           (settled (Garden.removeJournalEntry areaId plantId entryId) w db).
Proof. exact removeJournalEntry_agrees. Qed.

Lemma removeJournalEntry_in_sync_witness :
  InSync Sample.grownWorld Sample.grownDb
  /\ entryOnlyIn "a" "b" "e" (Garden.areas Sample.grownWorld)
  /\ InSync (Garden.exec (Garden.removeJournalEntry "a" "b" "e")
                         Sample.grownWorld)
            (settled (Garden.removeJournalEntry "a" "b" "e")
                     Sample.grownWorld Sample.grownDb).
Proof.
  split; [exact grownWorld_in_sync|].
  split; [exact firstNote_only_in_firstPlant|].
  exact (removeJournalEntry_in_sync "a" "b" "e" Sample.grownWorld
           Sample.grownDb grownWorld_in_sync firstNote_only_in_firstPlant).
Defined.

Lemma removePlantFromArea_agrees :
  forall (areaId plantId : string) (w : Garden.World) (db : Db.Database),
    InSync w db ->
    plantOnlyIn areaId plantId (Garden.areas w) ->
    InSync (Garden.exec (Garden.removePlantFromArea areaId plantId) w)
           (settled (Garden.removePlantFromArea areaId plantId) w db).
Proof.
  intros areaId plantId w db (Hi & Hl) Honly.
  unfold settled, dispatchedBy, Garden.exec.
  cbn -[skipn Persist.flush Db.loadAllAreas].
  rewrite skipn_past.
  split; [apply flush_integrity; exact Hi|].
  rewrite settle_one. cbn [Persist.runCall].
  destruct (Db.deletePlant (Some plantId) db) as [db1|e] eqn:Hdel;
    [|discriminate].
  rewrite (loadAllAreas_deletePlant _ _ _ Hdel), Hl.
  apply everyPlant_filter_onArea. exact Honly.
Qed.

(** X15. [removePlantFromArea] keeps memory and the durable store in
    agreement when the plants with the plant id are in the areas with the
    area id only. *)
Theorem removePlantFromArea_in_sync :
  forall (areaId plantId : string) (w : Garden.World) (db : Db.Database),
    InSync w db ->
    plantOnlyIn areaId plantId (Garden.areas w) ->
    InSync (Garden.exec (Garden.removePlantFromArea areaId plantId) w)
           (settled (Garden.removePlantFromArea areaId plantId) w db).
Proof. exact removePlantFromArea_agrees. Qed.

Lemma removePlantFromArea_in_sync_witness :
  InSync Sample.grownWorld Sample.grownDb
  /\ plantOnlyIn "a" "b" (Garden.areas Sample.grownWorld)
  /\ InSync (Garden.exec (Garden.removePlantFromArea "a" "b")
                         Sample.grownWorld)
            (settled (Garden.removePlantFromArea "a" "b")
                     Sample.grownWorld Sample.grownDb).
Proof.
  split; [exact grownWorld_in_sync|].
  split; [exact firstPlant_only_in_planter|].
  exact (removePlantFromArea_in_sync "a" "b" Sample.grownWorld Sample.grownDb
           grownWorld_in_sync firstPlant_only_in_planter).
Defined.

Lemma deleteArea_agrees :
  forall (areaId : string) (w : Garden.World) (db : Db.Database),
    InSync w db ->
    InSync (Garden.exec (Garden.deleteArea areaId) w)
           (settled (Garden.deleteArea areaId) w db).
Proof.
  intros areaId w db (Hi & Hl).
  unfold settled, dispatchedBy, Garden.exec.
  cbn -[skipn Persist.flush Db.loadAllAreas].
  rewrite skipn_past.
  split; [apply flush_integrity; exact Hi|].
  rewrite settle_one. cbn [Persist.runCall].
  destruct (Db.deleteArea (Some areaId) db) as [db1|e] eqn:Hdel;
    [|discriminate].
  rewrite (loadAllAreas_deleteArea _ _ _ Hi Hdel), Hl. reflexivity.
Qed.

(** X16. [deleteArea] keeps memory and the durable store in agreement,
    whatever the id. *)
Theorem deleteArea_in_sync :
  forall (areaId : string) (w : Garden.World) (db : Db.Database),
    InSync w db ->
    InSync (Garden.exec (Garden.deleteArea areaId) w)
           (settled (Garden.deleteArea areaId) w db).
Proof. exact deleteArea_agrees. Qed.

Lemma deleteArea_in_sync_witness :
  InSync Sample.grownWorld Sample.grownDb
  /\ InSync (Garden.exec (Garden.deleteArea "a") Sample.grownWorld)
            (settled (Garden.deleteArea "a") Sample.grownWorld Sample.grownDb).
Proof.
  split; [exact grownWorld_in_sync|].
  exact (deleteArea_in_sync "a" Sample.grownWorld Sample.grownDb
           grownWorld_in_sync).
Defined.

Lemma renameArea_with_emoji_agrees :
  forall (areaId newName newEmoji : string) (w : Garden.World)
         (db : Db.Database),
    InSync w db ->
    InSync (Garden.exec (Garden.renameArea areaId newName (Some newEmoji)) w)
           (settled (Garden.renameArea areaId newName (Some newEmoji)) w db).
Proof.
  intros areaId newName newEmoji w db (Hi & Hl).
  unfold settled, dispatchedBy, Garden.exec.
  cbn -[skipn Persist.flush Db.loadAllAreas Js.trim].
  rewrite skipn_past.
  split; [apply flush_integrity; exact Hi|].
  rewrite settle_one. cbn [Persist.runCall].
  destruct (Db.updateArea (Some areaId) (Some (Js.trim newName))
              (Some newEmoji) db) as [db1|e] eqn:Hup.
  - rewrite (loadAllAreas_updateArea _ _ _ _ _ Hup), Hl. reflexivity.
  - exfalso. unfold Db.updateArea in Hup.
    destruct (Db.hasArea areaId db); discriminate.
Qed.

(** X17. [renameArea] called with an emoji, as the edit dialog calls it,
    keeps memory and the durable store in agreement, whatever the id. *)
Theorem renameArea_with_emoji_in_sync :
  forall (areaId newName newEmoji : string) (w : Garden.World)
         (db : Db.Database),
    InSync w db ->
    InSync (Garden.exec (Garden.renameArea areaId newName (Some newEmoji)) w)
           (settled (Garden.renameArea areaId newName (Some newEmoji)) w db).
Proof. exact renameArea_with_emoji_agrees. Qed.

Lemma renameArea_with_emoji_in_sync_witness :
  InSync Sample.grownWorld Sample.grownDb
  /\ InSync (Garden.exec (Garden.renameArea "a" " Balcony " (Some "🏡"))
                         Sample.grownWorld)
            (settled (Garden.renameArea "a" " Balcony " (Some "🏡"))
                     Sample.grownWorld Sample.grownDb).
Proof.
  split; [exact grownWorld_in_sync|].
  exact (renameArea_with_emoji_in_sync "a" " Balcony " "🏡" Sample.grownWorld
           Sample.grownDb grownWorld_in_sync).
Defined.

(** ** The ids the screens pass *)

Section SameKey.
Context {A B : Type} (k : B -> string) (f : A -> list B).

(** Children with distinct keys across all parents: equal keys mean the
    same child of the same parent. *)
Lemma same_key_same_parent (l : list A) (a a' : A) (b b' : B) :
  NoDup (map k (flat_map f l)) ->
  In a l -> In a' l -> In b (f a) -> In b' (f a') -> k b = k b' ->
  a = a' /\ b = b'.
Proof.
  induction l as [|x l IH]; intros Hnd Ha Ha' Hb Hb' E; [contradiction|].
  cbn [flat_map] in Hnd. rewrite map_app in Hnd.
  destruct (NoDup_app_inv _ _ Hnd) as (Hx & Hl & Hdis).
  assert (Hclash : forall y c d, In y l -> In c (f x) -> In d (f y) ->
                                 k c = k d -> False).
  { intros y c d Hy Hc Hd Ecd. apply (Hdis (k c)).
    - apply in_map. exact Hc.
    - rewrite Ecd. apply in_map. apply in_flat_map. exists y. auto. }
  destruct Ha as [<-|Ha], Ha' as [<-|Ha'].
  - split; [reflexivity|]. apply (key_unique k (f x)); assumption.
  - exfalso. exact (Hclash a' b b' Ha' Hb Hb' E).
  - exfalso. exact (Hclash a b' b Ha Hb' Hb (eq_sym E)).
  - exact (IH Hl Ha Ha' Hb Hb' E).
Qed.
End SameKey.

Lemma loaded_plant_ids_nodup (db : Db.Database) :
  Integrity db ->
  NoDup (map plant_id (flat_map area_plants (Db.loadAllAreas db))).
Proof.
  intros Hi. rewrite loaded_plants, map_map.
  exact (loaded_plant_ids_unique db Hi).
Qed.

Lemma loaded_entry_ids_nodup (db : Db.Database) :
  Integrity db ->
  NoDup (map entry_id
           (flat_map plant_journal
                     (flat_map area_plants (Db.loadAllAreas db)))).
Proof.
  intros Hi. rewrite loaded_entries, map_map. unfold Db.journalRowsOf.
  apply (grouped_keys Db.pr_id Db.jr_id Db.jr_plant_id).
  - exact (loaded_plant_ids_unique db Hi).
  - exact (entryKeys db Hi).
Qed.

Lemma displayed_ids_name_one_thing :
  forall (w : Garden.World) (db : Db.Database) (a : Area) (q : Plant),
    InSync w db ->
    In a (Garden.areas w) -> In q (area_plants a) ->
    plantOnlyIn (area_id a) (plant_id q) (Garden.areas w)
    /\ (forall e, In e (plant_journal q) ->
                  entryOnlyIn (area_id a) (plant_id q) (entry_id e)
                              (Garden.areas w)).
Proof.
  intros w db a q (Hi & Hl) Ha Hq.
  pose proof (loaded_plant_ids_nodup db Hi) as Hp.
  pose proof (loaded_entry_ids_nodup db Hi) as He.
  rewrite Hl in Hp, He. split.
  - intros a' q' Ha' Hq' E.
    destruct (same_key_same_parent plant_id area_plants _ a' a q' q
                Hp Ha' Ha Hq' Hq E) as (-> & _).
    reflexivity.
  - intros e Hin a' q' e' Ha' Hq' Hin' E.
    assert (Hqall : In q (flat_map area_plants (Garden.areas w)))
      by (apply in_flat_map; exists a; auto).
    assert (Hqall' : In q' (flat_map area_plants (Garden.areas w)))
      by (apply in_flat_map; exists a'; auto).
    destruct (same_key_same_parent entry_id plant_journal _ q' q e' e
                He Hqall' Hqall Hin' Hin E) as (-> & _).
    destruct (same_key_same_parent plant_id area_plants _ a' a q q
                Hp Ha' Ha Hq' Hq eq_refl) as (-> & _).
    split; reflexivity.
Qed.

(** X18. The ids a screen takes from the areas in memory name one thing:
    when memory agrees with a store that keeps its constraints, a plant
    shown in an area has an id no plant of another area has, and an entry
    shown in its journal has an id no entry of another plant or area
    has. *)
Theorem displayed_ids_are_unambiguous :
  forall (w : Garden.World) (db : Db.Database) (a : Area) (q : Plant),
    InSync w db ->
    In a (Garden.areas w) -> In q (area_plants a) ->
    plantOnlyIn (area_id a) (plant_id q) (Garden.areas w)
    /\ (forall e, In e (plant_journal q) ->
                  entryOnlyIn (area_id a) (plant_id q) (entry_id e)
                              (Garden.areas w)).
Proof. exact displayed_ids_name_one_thing. Qed.

Lemma displayed_ids_are_unambiguous_witness :
  InSync Sample.grownWorld Sample.grownDb
  /\ In Plot.planter (Garden.areas Sample.grownWorld)
  /\ In Plot.firstPlant (area_plants Plot.planter)
  /\ plantOnlyIn (area_id Plot.planter) (plant_id Plot.firstPlant)
                 (Garden.areas Sample.grownWorld).
Proof.
  assert (Ha : In Plot.planter (Garden.areas Sample.grownWorld))
    by (vm_compute; left; reflexivity).
  assert (Hq : In Plot.firstPlant (area_plants Plot.planter))
    by (vm_compute; left; reflexivity).
  split; [exact grownWorld_in_sync|]. split; [exact Ha|]. split; [exact Hq|].
  exact (proj1 (displayed_ids_are_unambiguous Sample.grownWorld Sample.grownDb
                  Plot.planter Plot.firstPlant grownWorld_in_sync Ha Hq)).
Defined.

(** ** Two steps or one *)

(** X19. On the store of [GardenContext.js], [createArea] followed by
    [addPlantToArea] with the id of the new area ends with the areas of
    [createAreaAndAddPlant], through two transitions instead of one, when
    the id of the new area is not the id of an area in memory; and when
    memory agrees with the durable store and the id of the new plant is
    not the id of a plant in memory, the two separate inserts leave the
    store as the transaction does. *)
Theorem createThenAdd_ends_as_createAreaAndAddPlant :
  forall (name : string) (emoji : option string) (seed : CatalogItem)
         (w : Garden.World),
    ~ In (Garden.idSource w (Garden.idsTaken w))
         (map area_id (Garden.areas w)) ->
    let one := Garden.exec (Garden.createAreaAndAddPlant name emoji seed) w in
    let two := Garden.exec (createThenAdd name emoji seed) w in
    Garden.areas two = Garden.areas one
    /\ Garden.idsTaken two = Garden.idsTaken one
    /\ Garden.transitions one
       = Garden.transitions w ++ [Garden.areas one]
    /\ Garden.transitions two
       = Garden.transitions w
           ++ [Garden.areas w
                 ++ [Garden.result (Garden.createArea name emoji) w];
               Garden.areas one]
    /\ (forall db,
           InSync w db ->
           ~ In (Garden.idSource w (S (Garden.idsTaken w)))
                (map plant_id (flat_map area_plants (Garden.areas w))) ->
           settled (createThenAdd name emoji seed) w db
           = settled (Garden.createAreaAndAddPlant name emoji seed) w db).
Proof.
  intros name emoji seed w Hfa. cbn zeta.
  assert (Hareas :
            Garden.areas (Garden.exec (createThenAdd name emoji seed) w)
            = Garden.areas
                (Garden.exec (Garden.createAreaAndAddPlant name emoji seed) w)).
  { unfold Garden.exec, createThenAdd.
    cbn -[Js.trim Js.nullish Garden.plantOfSeed].
    unfold Garden.onArea. rewrite map_app. cbn [map area_id].
    rewrite String.eqb_refl. apply f_equal2; [|reflexivity].
    transitivity (map (fun a : Area => a) (Garden.areas w)); [|apply map_id].
    apply map_ext_in. intros a Ha.
    destruct (String.eqb_spec (area_id a)
                (Garden.idSource w (Garden.idsTaken w))) as [E|_];
      [|reflexivity].
    exfalso. apply Hfa. rewrite <- E. apply in_map. exact Ha. }
  refine (conj Hareas (conj eq_refl (conj eq_refl (conj _ _)))).
  - rewrite <- Hareas. unfold Garden.exec, Garden.result, createThenAdd.
    cbn -[Js.trim Js.nullish Garden.plantOfSeed].
    rewrite <- app_assoc. reflexivity.
  - intros db Hsync Hfp.
    pose proof (fresh_area_in_store w db _ Hsync Hfa) as Hnoa.
    pose proof (fresh_plant_in_store w db _ Hsync Hfp) as Hnop.
    unfold settled, dispatchedBy, Garden.exec, createThenAdd.
    cbn -[skipn Persist.flush Js.trim Js.nullish Garden.plantOfSeed
                Garden.insertPlantOf].
    rewrite <- app_assoc, !skipn_past. cbn [app].
    rewrite settle_transaction.
    unfold Persist.flush. cbn [fold_left Persist.perform Persist.settleEach].
    unfold Persist.attempt. cbn [hd Persist.runCall].
    destruct (Db.insertArea _ _ _ _ db) as [db1|e] eqn:Hins1.
    + unfold Garden.insertPlantOf. cbn [Persist.runCall].
      destruct (Db.insertPlant _ _ _ _ _ _ _ _ db1) as [db2|e] eqn:Hins2;
        [reflexivity|].
      exfalso. unfold Db.insertPlant in Hins2.
      cbn [plant_id plant_plantedDate Garden.plantOfSeed] in Hins2.
      apply insertArea_ok in Hins1. destruct Hins1 as (_ & ->).
      change (Db.hasPlant (Garden.idSource w (S (Garden.idsTaken w)))
                (Db.withAreas db
                   (Db.areas db ++
                      [Db.mkAreaRow (Garden.idSource w (Garden.idsTaken w))
                         (Js.trim name) (Js.nullish emoji "🪴")
                         (Garden.clockIso w)])))
        with (Db.hasPlant (Garden.idSource w (S (Garden.idsTaken w))) db)
        in Hins2.
      rewrite Hnop in Hins2.
      unfold Db.hasArea in Hins2. cbn [Db.areas Db.withAreas] in Hins2.
      rewrite existsb_app in Hins2. cbn [existsb Db.ar_id] in Hins2.
      rewrite String.eqb_refl, orb_true_r in Hins2. discriminate.
    + exfalso. unfold Db.insertArea in Hins1. rewrite Hnoa in Hins1.
      discriminate.
Qed.

Lemma createThenAdd_ends_as_createAreaAndAddPlant_witness :
  ~ In (Garden.idSource Sample.planterWorld
                        (Garden.idsTaken Sample.planterWorld))
       (map area_id (Garden.areas Sample.planterWorld))
  /\ Garden.areas
       (Garden.exec (createThenAdd "Herb bed" None Sample.lettuce)
                    Sample.planterWorld)
     = Garden.areas
         (Garden.exec
            (Garden.createAreaAndAddPlant "Herb bed" None Sample.lettuce)
            Sample.planterWorld).
Proof.
  assert (Hfa : ~ In (Garden.idSource Sample.planterWorld
                                      (Garden.idsTaken Sample.planterWorld))
                     (map area_id (Garden.areas Sample.planterWorld)))
    by (vm_compute; intros [H|[]]; discriminate H).
  split; [exact Hfa|].
  exact (proj1 (createThenAdd_ends_as_createAreaAndAddPlant "Herb bed" None
                  Sample.lettuce Sample.planterWorld Hfa)).
Defined.

(** X20. In the provider that saves whole lists ([save([...areas, area])]
    on the [areas] of the current render), [createArea] followed by
    [addPlantToArea] within one render loses the new area: the last list
    saved is the old areas with the plant added to those that already had
    the new id, so it is as long as the old list, and it is the old list
    itself when the new id is not among its ids; [createAreaAndAddPlant]
    saves the old areas followed by the new area with its plant. *)
Theorem snapshot_two_steps_lose_the_area :
  forall (name : string) (emoji : option string) (seed : CatalogItem)
         (r : Snapshot.Render),
    let two := snd (Snapshot.createThenAdd name emoji seed r) in
    let one := snd (Snapshot.createAreaAndAddPlant name emoji seed r) in
    let area := fst (Snapshot.createAreaAndAddPlant name emoji seed r) in
    List.length (Snapshot.nextAreas two) = List.length (Snapshot.areas r)
    /\ map area_id (Snapshot.nextAreas two) = map area_id (Snapshot.areas r)
    /\ (~ In (area_id area) (map area_id (Snapshot.areas r)) ->
        Snapshot.nextAreas two = Snapshot.areas r)
    /\ (exists plantRecord,
           Snapshot.nextAreas one
           = Snapshot.areas r ++ [Garden.withPlants area [plantRecord]])
    /\ List.length (Snapshot.nextAreas one)
       = S (List.length (Snapshot.areas r)).
Proof.
  intros name emoji seed r. cbn zeta.
  unfold Snapshot.nextAreas, Snapshot.createThenAdd,
    Snapshot.createAreaAndAddPlant.
  cbn -[Js.trim Js.nullish Js.pop Garden.onArea Snapshot.plantOfSeed].
  rewrite !pop_last.
  refine (conj _ (conj _ (conj _ (conj _ _)))).
  - unfold Garden.onArea. apply length_map.
  - apply onArea_ids. intros a. reflexivity.
  - intros Hfresh. apply onArea_fixed. intros a Ha E. exfalso.
    apply Hfresh. rewrite <- E. apply in_map. exact Ha.
  - eexists. reflexivity.
  - rewrite length_app. cbn [List.length]. lia.
Qed.

(** ** The plant count *)

Lemma totalPlants_from (l : list Area) (n : nat) :
  fold_left (fun sum a => sum + List.length (area_plants a))%nat l n
  = (n + List.length (flat_map area_plants l))%nat.
Proof.
  revert n. induction l as [|a l IH]; intros n; cbn [fold_left flat_map].
  - cbn. lia.
  - rewrite IH, length_app. lia.
Qed.

Lemma totalPlants_length (l : list Area) :
  Garden.totalPlants l = List.length (flat_map area_plants l).
Proof. unfold Garden.totalPlants. rewrite totalPlants_from. reflexivity. Qed.

Lemma totalPlants_cons (a : Area) (l : list Area) :
  Garden.totalPlants (a :: l)
  = (List.length (area_plants a) + Garden.totalPlants l)%nat.
Proof. rewrite !totalPlants_length. cbn [flat_map]. apply length_app. Qed.

Lemma totalPlants_app (l1 l2 : list Area) :
  Garden.totalPlants (l1 ++ l2)
  = (Garden.totalPlants l1 + Garden.totalPlants l2)%nat.
Proof.
  rewrite !totalPlants_length, flat_map_app. apply length_app.
Qed.

Lemma totalPlants_onArea_same (areaId : string) (g : Area -> Area)
      (l : list Area) :
  (forall a, List.length (area_plants (g a)) = List.length (area_plants a)) ->
  Garden.totalPlants (Garden.onArea areaId g l) = Garden.totalPlants l.
Proof.
  intros Hg. induction l as [|a l IH]; [reflexivity|].
  unfold Garden.onArea in *. cbn [map]. rewrite !totalPlants_cons, IH.
  destruct (area_id a =? areaId); [rewrite Hg|]; reflexivity.
Qed.

Lemma totalPlants_onArea_append (areaId : string) (p : Plant) (l : list Area) :
  Garden.totalPlants
    (Garden.onArea areaId
       (fun a => Garden.withPlants a (area_plants a ++ [p])) l)
  = (Garden.totalPlants l
     + List.length (filter (fun a => (area_id a =? areaId)%string) l))%nat.
Proof.
  induction l as [|a l IH]; [reflexivity|].
  unfold Garden.onArea in *. cbn [map filter]. rewrite !totalPlants_cons, IH.
  destruct (area_id a =? areaId); cbn [area_plants Garden.withPlants];
    [rewrite length_app; cbn [List.length]|]; lia.
Qed.

Lemma filter_split_length {A : Type} (t : A -> bool) (l : list A) :
  (List.length (filter t l) + List.length (filter (fun x => negb (t x)) l))%nat
  = List.length l.
Proof.
  induction l as [|x l IH]; [reflexivity|].
  cbn [filter]. destruct (t x); cbn [negb List.length]; lia.
Qed.

Lemma totalPlants_onArea_remove (areaId plantId : string) (l : list Area) :
  (Garden.totalPlants
     (Garden.onArea areaId
        (fun a => Garden.withPlants a
                    (filter (fun p => negb (plant_id p =? plantId)%string)
                            (area_plants a))) l)
   + List.length
       (filter (fun p => (plant_id p =? plantId)%string)
               (flat_map area_plants
                         (filter (fun a => (area_id a =? areaId)%string) l))))%nat
  = Garden.totalPlants l.
Proof.
  induction l as [|a l IH]; [reflexivity|].
  unfold Garden.onArea in *. cbn [map filter]. rewrite !totalPlants_cons.
  destruct (area_id a =? areaId).
  - cbn [flat_map area_plants Garden.withPlants].
    rewrite filter_app, length_app.
    pose proof (filter_split_length (fun p => (plant_id p =? plantId)%string)
                                    (area_plants a)).
    lia.
  - lia.
Qed.

(** X21. What the plant count of the garden screen does under the
    mutations: it is the number of plants of all areas together; renaming,
    stage changes and journal changes keep it; adding a plant raises it by
    the number of areas with the id; removing a plant lowers it by the
    number of plants with the plant id in the areas with the area id;
    [createArea] keeps it, [createAreaAndAddPlant] raises it by one and
    [deleteArea] lowers it by the number of plants of the areas with the
    id. *)
Theorem totalPlants_under_the_mutations :
  forall w : Garden.World,
    let n := Garden.totalPlants (Garden.areas w) in
    n = List.length (flat_map area_plants (Garden.areas w))
    /\ (forall m,
           Garden.totalPlants (Garden.areas (mutate m w))
           = match m with
             | AddPlantToArea a _ | AddCustomPlantToArea a _ _ =>
                 n + List.length (filter (fun x => (area_id x =? a)%string)
                                         (Garden.areas w))
             | RemovePlantFromArea a p =>
                 n - List.length
                       (filter (fun q => (plant_id q =? p)%string)
                               (flat_map area_plants
                                  (filter (fun x => (area_id x =? a)%string)
                                          (Garden.areas w))))
             | _ => n
             end%nat)
    /\ (forall name emoji,
           Garden.totalPlants
             (Garden.areas (Garden.exec (Garden.createArea name emoji) w))
           = n)
    /\ (forall name emoji seed,
           Garden.totalPlants
             (Garden.areas
                (Garden.exec (Garden.createAreaAndAddPlant name emoji seed) w))
           = S n)
    /\ (forall areaId,
           (Garden.totalPlants
              (Garden.areas (Garden.exec (Garden.deleteArea areaId) w))
            + plantsUnder areaId (Garden.areas w))%nat
           = n).
Proof.
  intros w. cbn zeta.
  refine (conj (totalPlants_length _) (conj _ (conj _ (conj _ _)))).
  - intros [a nm e|a s|a nm c|a p s|a p s|a p t|a p e|a p];
      unfold mutate, Garden.exec;
      cbn -[Js.trim Js.orElse Garden.onArea Garden.totalPlants
                    Garden.trimmedJournal Garden.plantOfSeed];
      try (unfold Garden.onPlant; apply totalPlants_onArea_same; intros x;
           cbn [area_plants Garden.withPlants]; try apply length_map;
           reflexivity);
      try apply totalPlants_onArea_append.
    pose proof (totalPlants_onArea_remove a p (Garden.areas w)). lia.
  - intros name emoji. unfold Garden.exec.
    cbn -[Js.trim Js.nullish Garden.totalPlants].
    rewrite totalPlants_app. unfold Garden.totalPlants at 2. cbn. lia.
  - intros name emoji seed. unfold Garden.exec.
    cbn -[Js.trim Js.nullish Garden.totalPlants Garden.plantOfSeed].
    rewrite totalPlants_app. unfold Garden.totalPlants at 2. cbn. lia.
  - intros areaId. unfold Garden.exec, plantsUnder.
    cbn -[Garden.totalPlants]. generalize (Garden.areas w). intros l.
    induction l as [|a l IH]; [reflexivity|].
    cbn [filter]. destruct (area_id a =? areaId); cbn [negb];
      rewrite !totalPlants_cons; lia.
Qed.

(** ** The area screen's two lists *)


(** ** The seed catalog *)

Lemma mapThrowing_keys {A B : Type} (f : A -> option B) (ka : A -> string)
      (kb : B -> string) (l : list A) (ys : list B) :
  (forall x y, f x = Some y -> kb y = ka x) ->
  Db.mapThrowing f l = Some ys -> map kb ys = map ka l.
Proof.
  intros Hk. revert ys. induction l as [|x l IH]; intros ys H.
  - injection H as <-. reflexivity.
  - cbn [Db.mapThrowing] in H. destruct (f x) as [y|] eqn:Ey; [|discriminate].
    destruct (Db.mapThrowing f l) as [r|]; [|discriminate].
    injection H as <-. cbn [map]. rewrite (Hk x y Ey), (IH r eq_refl).
    reflexivity.
Qed.

Lemma seedOfRow_id (row : Db.CustomSeedRow) (seed : CustomSeed) :
  Db.seedOfRow row = Some seed -> seed_id seed = Db.cr_id row.
Proof.
  unfold Db.seedOfRow.
  destruct (Db.seasonsOfColumn (Db.cr_planting_seasons row)); [|discriminate].
  intros H. injection H as <-. reflexivity.
Qed.

Lemma trimmedOrNull_nullish (x : option string) :
  Catalog.trimmedOrNull x = Js.orElse (Catalog.trimmedOrNull x) None.
Proof.
  unfold Catalog.trimmedOrNull, Js.orElse. destruct x as [s|]; [|reflexivity].
  destruct (Js.truthy (Js.trim s)) eqn:E; [rewrite E|]; reflexivity.
Qed.

(** A seed built by [addCustomSeedToCatalog] is read back as it is. *)
Lemma asLoaded_seedOfForm (id : string) (f : Catalog.SeedForm) :
  asLoaded (Catalog.seedOfForm id f) = Catalog.seedOfForm id f.
Proof.
  unfold asLoaded, Catalog.seedOfForm.
  cbn [seed_id seed_title seed_category seed_scientific_name seed_description
         seed_image_url seed_url seed_isCustom seed_planting_seasons
         seed_best_months seed_sun_requirements seed_watering
         seed_frost_tolerance seed_difficulty seed_plant_life
         seed_suitable_for_containers seed_requires_trellis
         seed_days_to_germination seed_days_to_harvest seed_sowing_depth
         seed_spacing seed_companion_plants seed_plant_height
         seed_drought_tolerant].
  assert (Hcat : Some (Js.nullish (Js.orElse (Catalog.category f)
                                             (Some "Vegetable")) "Vegetable")
                 = Js.orElse (Catalog.category f) (Some "Vegetable")).
  { unfold Js.orElse, Js.nullish. destruct (Catalog.category f) as [c|];
      [destruct (Js.truthy c)|]; reflexivity. }
  rewrite Hcat. reflexivity.
Qed.

(** X23. [addCustomSeedToCatalog] keeps the catalog in memory and the
    durable store in agreement: when the store loads to the custom seeds
    in memory and the new id is not the id of one of them, the insert is
    accepted and the store loads to the custom seeds in memory after the
    call, and the seed read back is the very record the function built
    and returned. *)
Theorem addCustomSeedToCatalog_in_sync :
  forall (id : string) (f : Catalog.SeedForm) (s : Catalog.Shelf)
         (db : Db.Database),
    Db.loadAllCustomSeeds db = Some (Catalog.customSeeds s) ->
    ~ In ("custom_" ++ id)%string (map seed_id (Catalog.customSeeds s)) ->
    let seed := fst (Catalog.addCustomSeedToCatalog id f s) in
    let s' := snd (Catalog.addCustomSeedToCatalog id f s) in
    Db.loadAllCustomSeeds (Catalog.settle [seed] db)
    = Some (Catalog.customSeeds s')
    /\ Catalog.customSeeds s' = Catalog.customSeeds s ++ [seed]
    /\ Catalog.inserts s' = Catalog.inserts s ++ [seed]
    /\ Db.hasSeed (seed_id seed) (Catalog.settle [seed] db) = true.
Proof.
  intros id f s db Hl Hfresh. cbn zeta.
  cbn [fst snd Catalog.addCustomSeedToCatalog Catalog.customSeeds
         Catalog.inserts Catalog.settle].
  assert (Hno : Db.hasSeed (seed_id (Catalog.seedOfForm id f)) db = false).
  { apply (hasKey_false Db.cr_id).
    rewrite <- (mapThrowing_keys Db.seedOfRow Db.cr_id seed_id _ _
                  seedOfRow_id Hl).
    exact Hfresh. }
  destruct (Db.insertCustomSeed (Catalog.seedOfForm id f) db)
    as [db'|e] eqn:Hins.
  - destruct (insertCustomSeed_ok _ _ _ Hins) as (row & Hrows & Hrow & _).
    refine (conj _ (conj eq_refl (conj eq_refl _))).
    + unfold Db.loadAllCustomSeeds. rewrite Hrows.
      rewrite asLoaded_seedOfForm in Hrow.
      apply mapThrowing_snoc; assumption.
    + apply (hasKey_In Db.cr_id). rewrite Hrows, map_app.
      apply in_or_app. right. left.
      symmetry. rewrite <- (seedOfRow_id row _ Hrow). reflexivity.
  - exfalso. unfold Db.insertCustomSeed in Hins. rewrite Hno in Hins.
    discriminate.
Qed.

Lemma addCustomSeedToCatalog_in_sync_witness :
  Db.loadAllCustomSeeds Db.emptyDatabase
  = Some (Catalog.customSeeds Plot.emptyShelf)
  /\ Db.loadAllCustomSeeds
       (Catalog.settle
          [fst (Catalog.addCustomSeedToCatalog "s1" Plot.tomatoForm
                                               Plot.emptyShelf)]
          Db.emptyDatabase)
     = Some (Catalog.customSeeds
               (snd (Catalog.addCustomSeedToCatalog "s1" Plot.tomatoForm
                                                    Plot.emptyShelf)))
  /\ map seed_title
         (Catalog.customSeeds
            (snd (Catalog.addCustomSeedToCatalog "s1" Plot.tomatoForm
                                                 Plot.emptyShelf)))
     = ["Tomato"].
Proof.
  split; [reflexivity|].
  split; [|reflexivity].
  exact (proj1 (addCustomSeedToCatalog_in_sync "s1" Plot.tomatoForm
                  Plot.emptyShelf Db.emptyDatabase eq_refl
                  (fun H : In ("custom_" ++ "s1")%string [] => H))).
Defined.

(** X24. [handleAddSeed] never puts a seed without a title on the shelf:
    when every custom seed has a non-empty title before, every one has
    after; a blank name leaves the shelf as it is, and any other name adds
    one seed whose id starts with [custom_] and whose title has no blank
    at either end of what was typed. *)
Theorem handleAddSeed_keeps_titles :
  forall (id : string) (form : Catalog.SeedForm) (s : Catalog.Shelf),
    (forall x, In x (Catalog.customSeeds s) ->
               Js.truthy (seed_title x) = true) ->
    let s' := Catalog.handleAddSeed id form s in
    (forall x, In x (Catalog.customSeeds s') ->
               Js.truthy (seed_title x) = true)
    /\ (Js.truthy (Js.trim (Catalog.name form)) = false -> s' = s)
    /\ (Js.truthy (Js.trim (Catalog.name form)) = true ->
        exists seed,
          Catalog.customSeeds s' = Catalog.customSeeds s ++ [seed]
          /\ Catalog.inserts s' = Catalog.inserts s ++ [seed]
          /\ seed_id seed = ("custom_" ++ id)%string
          /\ seed_title seed = Js.trim (Catalog.name form)
          /\ seed_isCustom seed = true).
Proof.
  intros id form s Hall. cbn zeta. unfold Catalog.handleAddSeed.
  destruct (Js.truthy (Js.trim (Catalog.name form))) eqn:Hname; cbn [negb].
  - refine (conj _ (conj _ _)).
    + intros x Hx.
      cbn [snd Catalog.addCustomSeedToCatalog Catalog.customSeeds] in Hx.
      apply in_app_or in Hx. destruct Hx as [Hx|[<-|[]]]; [auto|].
      exact Hname.
    + discriminate.
    + intros _. eexists. repeat split.
  - refine (conj Hall (conj (fun _ => eq_refl) _)). discriminate.
Qed.

Lemma handleAddSeed_keeps_titles_witness :
  (forall x, In x (Catalog.customSeeds Plot.emptyShelf) ->
             Js.truthy (seed_title x) = true)
  /\ (forall x,
         In x (Catalog.customSeeds
                 (Catalog.handleAddSeed "s1" Plot.tomatoForm Plot.emptyShelf)) ->
         Js.truthy (seed_title x) = true)
  /\ Catalog.handleAddSeed "s1" Catalog.INITIAL_FORM Plot.emptyShelf
     = Plot.emptyShelf.
Proof.
  assert (H0 : forall x, In x (Catalog.customSeeds Plot.emptyShelf) ->
                         Js.truthy (seed_title x) = true)
    by (intros x []).
  split; [exact H0|]. split.
  - exact (proj1 (handleAddSeed_keeps_titles "s1" Plot.tomatoForm
                    Plot.emptyShelf H0)).
  - exact (proj1 (proj2 (handleAddSeed_keeps_titles "s1" Catalog.INITIAL_FORM
                           Plot.emptyShelf H0)) eq_refl).
Defined.

(** X25. [toggleSeason] switches one season and nothing else: the season
    is chosen afterwards exactly when it was not before, every other
    season stays as it was, seasons chosen once stay chosen once, and
    switching a season on and off again gives the list back. *)
Theorem toggleSeason_switches :
  forall (s : string) (chosen : list string),
    (In s (Catalog.toggleSeason s chosen) <-> ~ In s chosen)
    /\ (forall x, x <> s ->
                  (In x (Catalog.toggleSeason s chosen) <-> In x chosen))
    /\ (NoDup chosen -> NoDup (Catalog.toggleSeason s chosen))
    /\ (~ In s chosen ->
        Catalog.toggleSeason s (Catalog.toggleSeason s chosen) = chosen).
Proof.
  intros s chosen. unfold Catalog.toggleSeason at 1 2 3.
  destruct (existsb (fun x => x =? s) chosen) eqn:Hin.
  - assert (Hs : In s chosen).
    { apply existsb_exists in Hin. destruct Hin as (x & Hx & E).
      apply String.eqb_eq in E. subst x. exact Hx. }
    refine (conj _ (conj _ (conj _ _))).
    + split; [|tauto]. intros H. apply filter_In in H.
      destruct H as (_ & H). rewrite String.eqb_refl in H. discriminate.
    + intros x Hx. rewrite filter_In. split; [tauto|].
      intros H. split; [exact H|].
      apply negb_true_iff, String.eqb_neq. exact Hx.
    + intros Hnd. apply NoDup_filter. exact Hnd.
    + tauto.
  - assert (Hs : ~ In s chosen).
    { intros H.
      assert (Ht : existsb (fun x => x =? s) chosen = true)
        by (apply existsb_exists; exists s; split;
            [exact H|apply String.eqb_refl]).
      congruence. }
    refine (conj _ (conj _ (conj _ _))).
    + split; [tauto|]. intros _. apply in_or_app. right. left. reflexivity.
    + intros x Hx. rewrite in_app_iff. cbn [In]. split; [|tauto].
      intros [H|[H|[]]]; [exact H|]. congruence.
    + intros Hnd. apply NoDup_app; [exact Hnd|repeat constructor; tauto|].
      intros x Hx [<-|[]]. exact (Hs Hx).
    + intros _. unfold Catalog.toggleSeason. rewrite Hin.
      rewrite existsb_app. cbn [existsb]. rewrite String.eqb_refl, orb_true_r.
      rewrite filter_app. cbn [filter]. rewrite String.eqb_refl. cbn [negb].
      rewrite app_nil_r. apply filter_all. intros x Hx.
      apply negb_true_iff, String.eqb_neq. intros E. subst x. exact (Hs Hx).
Qed.

(** ** One table at a time *)

Lemma runCall_frame (c : Persist.DbCall) (db db' : Db.Database) :
  Persist.runCall c db = Db.Ok db' ->
  Db.custom_seeds db' = Db.custom_seeds db
  /\ Db.kv_store db' = Db.kv_store db.
Proof.
  destruct c; cbn [Persist.runCall];
    unfold Db.insertArea, Db.updateArea, Db.deleteArea, Db.insertPlant,
      Db.updatePlantStage, Db.deletePlant, Db.insertJournalEntry,
      Db.deleteJournalEntry, Db.deleteLastStageEntry;
    intros H;
    repeat match type of H with
           | context [match ?x with _ => _ end] => destruct x
           end;
    try discriminate; injection H as <-; split; reflexivity.
Qed.

Lemma perform_frame (faults : list bool) (d : Persist.Dispatch)
      (db : Db.Database) :
  Db.custom_seeds (Persist.perform faults d db) = Db.custom_seeds db
  /\ Db.kv_store (Persist.perform faults d db) = Db.kv_store db.
Proof.
  assert (Hsettle : forall cs fs db0,
             Db.custom_seeds (Persist.settleEach fs cs db0)
             = Db.custom_seeds db0
             /\ Db.kv_store (Persist.settleEach fs cs db0) = Db.kv_store db0).
  { induction cs as [|c cs IH]; intros fs db0; [split; reflexivity|].
    cbn [Persist.settleEach]. unfold Persist.attempt.
    destruct (hd false fs); [apply IH|].
    destruct (Persist.runCall c db0) as [db1|e] eqn:E; [|apply IH].
    destruct (runCall_frame _ _ _ E) as (H1 & H2).
    destruct (IH (tl fs) db1) as (H3 & H4). split; congruence. }
  assert (Hawait : forall cs fs db0,
             Db.custom_seeds (fst (Persist.awaitEach fs cs db0))
             = Db.custom_seeds db0
             /\ Db.kv_store (fst (Persist.awaitEach fs cs db0))
                = Db.kv_store db0).
  { induction cs as [|c cs IH]; intros fs db0; [split; reflexivity|].
    cbn [Persist.awaitEach]. unfold Persist.attempt.
    destruct (hd false fs); [split; reflexivity|].
    destruct (Persist.runCall c db0) as [db1|e] eqn:E; [|split; reflexivity].
    destruct (runCall_frame _ _ _ E) as (H1 & H2).
    destruct (IH (tl fs) db1) as (H3 & H4). split; congruence. }
  destruct d as [c|cs|cs]; cbn [Persist.perform]; try apply Hsettle.
  unfold Persist.withTransactionAsync.
  specialize (Hawait cs faults db).
  destruct (Persist.awaitEach faults cs db) as [db1 [e|]]; cbn [fst] in *;
    [split; reflexivity|exact Hawait].
Qed.

Lemma flush_frame (ds : list Persist.Dispatch) (db : Db.Database) :
  Db.custom_seeds (Persist.flush ds db) = Db.custom_seeds db
  /\ Db.kv_store (Persist.flush ds db) = Db.kv_store db.
Proof.
  unfold Persist.flush. revert db.
  induction ds as [|d ds IH]; intros db; [split; reflexivity|].
  cbn [fold_left]. destruct (IH (Persist.perform [] d db)) as (H1 & H2).
  destruct (perform_frame [] d db) as (H3 & H4). split; congruence.
Qed.

Lemma settle_frame (seeds : list CustomSeed) (db : Db.Database) :
  Db.areas (Catalog.settle seeds db) = Db.areas db
  /\ Db.plants (Catalog.settle seeds db) = Db.plants db
  /\ Db.journal_entries (Catalog.settle seeds db) = Db.journal_entries db
  /\ Db.kv_store (Catalog.settle seeds db) = Db.kv_store db.
Proof.
  revert db. induction seeds as [|seed rest IH]; intros db;
    [repeat split|].
  cbn [Catalog.settle]. unfold Db.insertCustomSeed.
  destruct (Db.hasSeed (seed_id seed) db); [apply IH|].
  destruct (IH (Db.withCustomSeeds db
                  (Db.custom_seeds db ++
                     [Db.mkCustomSeedRow (seed_id seed) (seed_title seed)
                        (Js.nullish (seed_category seed) "Vegetable")
                        (seed_scientific_name seed) (seed_description seed)
                        (seed_image_url seed)
                        (option_map Json.stringify
                                    (seed_planting_seasons seed))
                        (seed_best_months seed) (seed_sun_requirements seed)
                        (seed_watering seed) (seed_frost_tolerance seed)
                        (seed_difficulty seed) (seed_plant_life seed)
                        (Db.ofBool (seed_suitable_for_containers seed))
                        (Db.ofBool (seed_requires_trellis seed))
                        (seed_days_to_germination seed)
                        (seed_days_to_harvest seed) (seed_sowing_depth seed)
                        (seed_spacing seed) (seed_companion_plants seed)
                        (seed_plant_height seed)
                        (Db.ofBool (seed_drought_tolerant seed)) 1%Z])))
    as (H1 & H2 & H3 & H4).
  repeat split; assumption.
Qed.

Lemma settle_loads (seeds : list CustomSeed) (db : Db.Database) :
  Db.loadAllCustomSeeds db <> None ->
  Db.loadAllCustomSeeds (Catalog.settle seeds db) <> None.
Proof.
  revert db. induction seeds as [|seed rest IH]; intros db Hl; [exact Hl|].
  cbn [Catalog.settle].
  destruct (Db.insertCustomSeed seed db) as [db'|e] eqn:Hins;
    [|apply IH; exact Hl].
  apply IH. destruct (insertCustomSeed_ok _ _ _ Hins) as (row & Hrows & Hrow & _).
  destruct (Db.loadAllCustomSeeds db) as [before|] eqn:Hb; [|contradiction].
  unfold Db.loadAllCustomSeeds in *. rewrite Hrows.
  rewrite (mapThrowing_snoc _ _ _ _ _ Hb Hrow). discriminate.
Qed.

(** X26. Each write stays in its tables: the garden writes of [db.js],
    settled in any of the three ways and with or without write failures,
    leave the custom seeds and the key-value rows as they are; the seed
    inserts leave the areas, the plants, the journal and the key-value
    rows as they are; [kvSet] and [kvRemove] leave the four other tables
    as they are. *)
Theorem writes_stay_in_their_tables :
  forall db : Db.Database,
    (forall faults d,
        Db.custom_seeds (Persist.perform faults d db) = Db.custom_seeds db
        /\ Db.kv_store (Persist.perform faults d db) = Db.kv_store db)
    /\ (forall seeds,
           Db.loadAllAreas (Catalog.settle seeds db) = Db.loadAllAreas db
           /\ Db.kv_store (Catalog.settle seeds db) = Db.kv_store db)
    /\ (forall key value db',
           Kv.kvSet key value db = Db.Ok db' ->
           Db.loadAllAreas db' = Db.loadAllAreas db
           /\ Db.loadAllCustomSeeds db' = Db.loadAllCustomSeeds db)
    /\ (forall key db',
           Kv.kvRemove key db = Db.Ok db' ->
           Db.loadAllAreas db' = Db.loadAllAreas db
           /\ Db.loadAllCustomSeeds db' = Db.loadAllCustomSeeds db).
Proof.
  intros db. refine (conj _ (conj _ (conj _ _))).
  - intros faults d. apply perform_frame.
  - intros seeds. destruct (settle_frame seeds db) as (H1 & H2 & H3 & H4).
    split; [|exact H4].
    unfold Db.loadAllAreas, Db.areaOfRow, Db.plantRowsOf, Db.plantOfRow,
      Db.journalRowsOf.
    rewrite H1, H2, H3. reflexivity.
  - intros key value db' H. unfold Kv.kvSet in H.
    destruct key as [k|]; [|discriminate].
    destruct (existsb _ _) in H; injection H as <-; split; reflexivity.
  - intros key db' H. unfold Kv.kvRemove in H.
    destruct key as [k|]; injection H as <-; split; reflexivity.
Qed.

(** ** The start of the provider *)

Lemma mapThrowing_none {A B : Type} (f : A -> option B) (l : list A) :
  Db.mapThrowing f l = None <-> exists x, In x l /\ f x = None.
Proof.
  induction l as [|x l IH]; cbn [Db.mapThrowing].
  - split; [discriminate|]. intros (x & [] & _).
  - destruct (f x) as [y|] eqn:Ey.
    + destruct (Db.mapThrowing f l) as [ys|].
      * split; [discriminate|]. intros (z & [<-|Hz] & Ez); [congruence|].
        assert (Hnone : Some ys = None) by (apply IH; exists z; auto).
        discriminate.
      * split; [|reflexivity]. intros _.
        destruct (proj1 IH eq_refl) as (z & Hz & Ez). exists z.
        split; [right; exact Hz|exact Ez].
    + split; [|reflexivity]. intros _. exists x.
      split; [left; reflexivity|exact Ey].
Qed.

Lemma parse_starts_with_bracket (input : list ascii) (done : list string) :
  Json.run Json.AtStart input = Some (Json.AtEnd done) ->
  exists c, Json.firstToken input = Some c /\ Json.startsValue c = true.
Proof.
  induction input as [|c rest IH]; [discriminate|].
  cbn [Json.run Json.step Json.firstToken].
  destruct (Json.isJsonWs c); [exact IH|].
  destruct (Js.code c =? 91)%nat eqn:E; [|discriminate].
  intros _. exists c. split; [reflexivity|].
  unfold Json.startsValue. cbn zeta. rewrite E. reflexivity.
Qed.

(** What the reader reads is no text on which [JSON.parse] is sure to
    throw. *)
Lemma parse_not_throws (text : string) (arr : list string) :
  Json.parse text = Some arr -> Json.throws text = false.
Proof.
  unfold Json.parse, Json.throws.
  destruct (Json.run Json.AtStart (list_ascii_of_string text))
    as [[| | | | | | |done]|] eqn:Hrun; try discriminate.
  intros _. destruct (parse_starts_with_bracket _ _ Hrun) as (c & -> & Hc).
  rewrite Hc. reflexivity.
Qed.

Lemma mapThrowing_all {A B : Type} (f : A -> option B) (l : list A)
      (ys : list B) :
  Db.mapThrowing f l = Some ys -> forall x, In x l -> f x <> None.
Proof.
  intros H x Hx E.
  assert (Hnone : Db.mapThrowing f l = None)
    by (apply mapThrowing_none; exists x; auto).
  congruence.
Qed.

(** A store whose custom seeds are all read is not one whose load is sure
    to reject. *)
Lemma loaded_never_rejects (db : Db.Database) (seeds : list CustomSeed) :
  Db.loadAllCustomSeeds db = Some seeds -> Db.loadRejects db = false.
Proof.
  intros Hl. unfold Db.loadRejects.
  destruct (existsb _ (Db.custom_seeds db)) eqn:Hex; [|reflexivity].
  exfalso. apply existsb_exists in Hex. destruct Hex as (row & Hrow & Hthrow).
  apply (mapThrowing_all _ _ _ Hl row Hrow).
  unfold Db.seedOfRow, Db.seasonsOfColumn. unfold Db.seasonsThrow in Hthrow.
  destruct (Db.cr_planting_seasons row) as [t|]; [|discriminate].
  apply andb_true_iff in Hthrow. destruct Hthrow as (Ht & Hth). rewrite Ht.
  destruct (Json.parse t) as [arr|] eqn:Hp; [|reflexivity].
  rewrite (parse_not_throws _ _ Hp) in Hth. discriminate.
Qed.

(** X27. The load at the start clears [loading] and sets both lists or
    neither: with a custom-seed row whose seasons text makes [JSON.parse]
    throw (a text of white space only, or one whose first token no JSON
    value starts with) the areas and the custom seeds keep their earlier
    value although the areas could be read; when every row is read both
    are set to what the store holds.  A store that only the app has
    written is read, and never has a row of the first kind. *)
Theorem startup_sets_both_or_neither :
  forall (db : Db.Database) (p : Startup.Provider),
    (forall p', Startup.load db p = Some p' -> Startup.loading p' = false)
    /\ ((exists row t,
            In row (Db.custom_seeds db)
            /\ Db.cr_planting_seasons row = Some t
            /\ Js.truthy t = true /\ Json.throws t = true) ->
        Startup.load db p
        = Some (Startup.mkProvider (Startup.areas p) (Startup.customSeeds p)
                                   false))
    /\ (forall seeds,
           Db.loadAllCustomSeeds db = Some seeds ->
           Startup.load db p
           = Some (Startup.mkProvider (Db.loadAllAreas db) seeds false))
    /\ (forall seeds ds,
           Db.loadAllCustomSeeds db <> None ->
           let db' := Persist.flush ds (Catalog.settle seeds db) in
           Db.loadRejects db' = false
           /\ exists loaded,
                Db.loadAllCustomSeeds db' = Some loaded
                /\ Startup.load db' p
                   = Some (Startup.mkProvider (Db.loadAllAreas db') loaded
                                              false)).
Proof.
  intros db p. unfold Startup.load.
  refine (conj _ (conj _ (conj _ _))).
  - intros p'. destruct (Db.loadRejects db);
      [|destruct (Db.loadAllCustomSeeds db); [|discriminate]];
      intros H; injection H as <-; reflexivity.
  - intros (row & t & Hrow & Hcol & Ht & Hth).
    assert (Hrej : Db.loadRejects db = true).
    { unfold Db.loadRejects. apply existsb_exists. exists row.
      split; [exact Hrow|]. unfold Db.seasonsThrow.
      rewrite Hcol, Ht, Hth. reflexivity. }
    rewrite Hrej. reflexivity.
  - intros seeds Hl. rewrite (loaded_never_rejects db seeds Hl), Hl.
    reflexivity.
  - intros seeds ds Hl. cbn zeta.
    pose proof (settle_loads seeds db Hl) as Hl'.
    destruct (flush_frame ds (Catalog.settle seeds db)) as (Hsame & _).
    assert (Hsame' : Db.loadAllCustomSeeds
                       (Persist.flush ds (Catalog.settle seeds db))
                     = Db.loadAllCustomSeeds (Catalog.settle seeds db))
      by (unfold Db.loadAllCustomSeeds; rewrite Hsame; reflexivity).
    destruct (Db.loadAllCustomSeeds (Catalog.settle seeds db))
      as [loaded|] eqn:Hloaded; [|contradiction].
    rewrite (loaded_never_rejects _ loaded Hsame'), Hsame'.
    split; [reflexivity|]. exists loaded. split; reflexivity.
Qed.

Lemma startup_sets_both_or_neither_witness :
  Startup.load Plot.spoiled Startup.initial
  = Some (Startup.mkProvider [] [] false)
  /\ map area_id (Db.loadAllAreas Plot.spoiled) = ["a"].
Proof.
  split; [|vm_compute; reflexivity].
  apply (proj1 (proj2 (startup_sets_both_or_neither Plot.spoiled
                         Startup.initial))).
  exists Plot.spoiledRow, "Spring, Summer".
  split; [left; reflexivity|]. split; [reflexivity|].
  split; reflexivity.
Defined.

(** ** A session on the screens *)

Lemma exec_then_ret {A : Type} (m : Garden.Op A) (w : Garden.World) :
  Garden.exec (Garden.bind m (fun _ => Garden.ret tt)) w = Garden.exec m w.
Proof.
  unfold Garden.exec, Garden.bind, Garden.ret. destruct (m w). reflexivity.
Qed.

Lemma settled_then_ret {A : Type} (m : Garden.Op A) (w : Garden.World)
      (db : Db.Database) :
  settled (Garden.bind m (fun _ => Garden.ret tt)) w db = settled m w db.
Proof.
  unfold settled, dispatchedBy. rewrite exec_then_ret. reflexivity.
Qed.

Lemma ret_agrees {A : Type} (a : A) (w : Garden.World) (db : Db.Database) :
  InSync w db ->
  InSync (Garden.exec (Garden.ret a) w) (settled (Garden.ret a) w db).
Proof.
  intros H. unfold settled, dispatchedBy, Garden.exec, Garden.ret.
  cbn [snd]. rewrite skipn_all. exact H.
Qed.

Lemma onAreaScreen_only (areaId : string) (plant : Plant) (w : Garden.World)
      (db : Db.Database) :
  InSync w db -> Screens.onAreaScreen areaId plant w ->
  plantOnlyIn areaId (plant_id plant) (Garden.areas w)
  /\ (forall e, In e (plant_journal plant) ->
                entryOnlyIn areaId (plant_id plant) (entry_id e)
                            (Garden.areas w)).
Proof.
  intros Hsync (area & Hfind & Hin).
  apply find_some in Hfind. destruct Hfind as (Harea & Hid).
  apply String.eqb_eq in Hid. subst areaId.
  exact (displayed_ids_name_one_thing w db area plant Hsync Harea Hin).
Qed.

Lemma keyAt_plain (i : Z) (k : string) :
  Ui.keyAt i = Some k -> Js.inherits k = false.
Proof.
  unfold Ui.keyAt, Ui.STAGES.
  destruct (Z.to_nat i) as [|[|[|[|[|n]]]]]; cbn [nth_error option_map Ui.key];
    intros E; try (injection E as <-; reflexivity).
  destruct n; discriminate E.
Qed.

Lemma gesture_agrees (g : Screens.Gesture) (w : Garden.World)
      (db : Db.Database) :
  InSync w db -> Screens.shown g w -> Screens.freshIds w ->
  InSync (Garden.exec (Screens.handle g) w)
         (settled (Screens.handle g) w db).
Proof.
  intros Hsync Hshown (Hfa & Hfp & Hfe & Hfp2).
  destruct g as [n e|a n e|a|a p|n e p|a p|a p|a p d|a n c|a p|a p e];
    cbn [Screens.handle Screens.shown] in *.
  - unfold Ui.handleCreate.
    destruct (negb (Js.truthy (Js.trim n))); [apply ret_agrees; exact Hsync|].
    rewrite exec_then_ret, settled_then_ret.
    apply createArea_agrees; assumption.
  - unfold Ui.handleEditSave. destruct a as [a|];
      [|apply ret_agrees; exact Hsync].
    destruct (negb (Js.truthy (Js.trim n))); [apply ret_agrees; exact Hsync|].
    apply renameArea_with_emoji_agrees. exact Hsync.
  - apply deleteArea_agrees. exact Hsync.
  - unfold Screens.handleAddToArea.
    rewrite exec_then_ret, settled_then_ret.
    apply addPlantToArea_agrees; assumption.
  - unfold Ui.handleCreateAndAdd.
    destruct (negb (Js.truthy (Js.trim n))); [apply ret_agrees; exact Hsync|].
    rewrite exec_then_ret, settled_then_ret.
    apply createAreaAndAddPlant_agrees; assumption.
  - destruct (onAreaScreen_only a p w db Hsync Hshown) as (Honly & _).
    unfold Ui.advanceStage.
    destruct (_ <? _)%Z; [|apply ret_agrees; exact Hsync].
    destruct (Ui.keyAt _) as [k|] eqn:Hkey; [|apply ret_agrees; exact Hsync].
    apply updatePlantStage_agrees; try assumption.
    exact (keyAt_plain _ _ Hkey).
  - destruct (onAreaScreen_only a p w db Hsync Hshown) as (Honly & _).
    unfold Ui.goBackStage.
    destruct (_ >? 0)%Z; [apply rollbackPlantStage_agrees; assumption|].
    destruct (_ =? 0)%Z; [apply rollbackPlantStage_agrees; assumption|].
    apply ret_agrees; exact Hsync.
  - destruct (onAreaScreen_only a p w db Hsync Hshown) as (Honly & _).
    unfold Ui.submitNote.
    destruct (negb _); [apply ret_agrees; exact Hsync|].
    apply addJournalEntry_agrees; assumption.
  - unfold Ui.handleAddCustomPlant.
    destruct (negb (Js.truthy (Js.trim n))); [apply ret_agrees; exact Hsync|].
    rewrite exec_then_ret, settled_then_ret.
    apply addCustomPlantToArea_agrees; assumption.
  - destruct (onAreaScreen_only a p w db Hsync Hshown) as (Honly & _).
    apply removePlantFromArea_agrees; assumption.
  - destruct Hshown as (Hshown & Hin).
    destruct (onAreaScreen_only a p w db Hsync Hshown) as (_ & Honly).
    apply removeJournalEntry_agrees; [exact Hsync|]. exact (Honly e Hin).
Qed.

(** X28. A session on the screens keeps the store in step with memory:
    start with memory and durable store in agreement, make any run of
    gestures, each on an area, plant or note the screen shows at that
    moment and with new ids at hand, and let the writes settle without a
    write failure; then the store loads to the areas in memory, and a
    restart of the app whose custom seeds can be read shows the same
    areas. *)
Theorem a_session_keeps_the_store_in_step :
  forall (gs : list Screens.Gesture) (w : Garden.World) (db : Db.Database),
    InSync w db ->
    playable gs w ->
    InSync (play gs w) (stored gs w db)
    /\ (Db.loadAllCustomSeeds (stored gs w db) <> None ->
        option_map Startup.areas
                   (Startup.load (stored gs w db) Startup.initial)
        = Some (Garden.areas (play gs w))).
Proof.
  intros gs w db Hsync Hplay.
  assert (Hend : InSync (play gs w) (stored gs w db)).
  { revert w db Hsync Hplay.
    induction gs as [|g gs IH]; intros w db Hsync Hplay; [exact Hsync|].
    cbn [play stored playable] in *. destruct Hplay as (Hshown & Hfresh & Hrest).
    apply IH; [|exact Hrest].
    apply gesture_agrees; assumption. }
  split; [exact Hend|].
  intros Hseeds. unfold Startup.load.
  destruct (Db.loadAllCustomSeeds (stored gs w db)) as [seeds|] eqn:Hl;
    [|contradiction].
  rewrite (loaded_never_rejects _ seeds Hl).
  cbn [option_map Startup.areas]. f_equal. exact (proj2 Hend).
Qed.

Lemma a_session_keeps_the_store_in_step_witness :
  InSync Sample.planterWorld Sample.planterDb
  /\ playable Plot.afternoon Sample.planterWorld
  /\ map area_name (Garden.areas (play Plot.afternoon Sample.planterWorld))
     = ["Balcony"; "Herb bed"]
  /\ InSync (play Plot.afternoon Sample.planterWorld)
            (stored Plot.afternoon Sample.planterWorld Sample.planterDb).
Proof.
  assert (Hplay : playable Plot.afternoon Sample.planterWorld).
  { unfold Plot.afternoon. cbn [playable].
    refine (conj _ (conj _ (conj _ (conj _ (conj _ (conj _ (conj _ (conj _ I)))))))).
    - exists (nth 0 (Garden.areas Sample.planterWorld) Plot.noArea).
      split; [vm_compute; reflexivity|vm_compute; left; reflexivity].
    - vm_compute. repeat split; intro H; intuition discriminate.
    - exact I.
    - vm_compute. repeat split; intro H; intuition discriminate.
    - exact I.
    - vm_compute. repeat split; intro H; intuition discriminate.
    - exact I.
    - vm_compute. repeat split; intro H; intuition discriminate. }
  split; [exact planterWorld_in_sync|]. split; [exact Hplay|].
  split; [vm_compute; reflexivity|].
  exact (proj1 (a_session_keeps_the_store_in_step Plot.afternoon
                  Sample.planterWorld Sample.planterDb planterWorld_in_sync
                  Hplay)).
Defined.

(** ** What the screens display *)

Lemma distinct_NoDup (l : list string) : Display.distinct l = true -> NoDup l.
Proof.
  induction l as [|x l IH]; intros H; [constructor|].
  cbn [Display.distinct] in H. apply andb_true_iff in H.
  destruct H as (Hx & Hl). constructor; [|exact (IH Hl)].
  intros Hin. apply negb_true_iff in Hx.
  assert (Ht : existsb (String.eqb x) l = true)
    by (apply existsb_exists; exists x; split;
        [exact Hin|apply String.eqb_refl]).
  congruence.
Qed.

Lemma distinct_images {A : Type} (f : A -> string) (l : list A) (x y : A) :
  NoDup (map f l) -> In x l -> In y l -> f x = f y -> x = y.
Proof.
  induction l as [|z l IH]; intros Hnd Hx Hy E; [contradiction|].
  cbn [map] in Hnd. inversion Hnd as [|? ? Hnot Hrest]. subst.
  destruct Hx as [<-|Hx], Hy as [<-|Hy].
  - reflexivity.
  - exfalso. apply Hnot. rewrite E. apply in_map. exact Hy.
  - exfalso. apply Hnot. rewrite <- E. apply in_map. exact Hx.
  - exact (IH Hrest Hx Hy E).
Qed.

Lemma string_app_assoc (a b c : string) :
  ((a ++ b) ++ c)%string = (a ++ (b ++ c))%string.
Proof. induction a as [|x a IH]; cbn; congruence. Qed.

Lemma timesOfDay_all (h m : Z) :
  (0 <= h < 24)%Z -> (0 <= m < 60)%Z -> In (h, m) Display.timesOfDay.
Proof.
  intros Hh Hm. unfold Display.timesOfDay. apply in_flat_map.
  exists (Z.to_nat h). split; [apply in_seq; lia|].
  apply in_map_iff. exists (Z.to_nat m).
  split; [f_equal; lia|apply in_seq; lia].
Qed.

(** X29. [formatTime] shows every minute of the day differently: two
    times with hours from 0 to 23 and minutes from 0 to 59 that are shown
    by the same text are the same time; the text ends in PM from noon on
    and in AM before. *)
Theorem formatTime_tells_times_apart :
  forall h1 m1 h2 m2 : Z,
    (0 <= h1 < 24)%Z -> (0 <= m1 < 60)%Z ->
    (0 <= h2 < 24)%Z -> (0 <= m2 < 60)%Z ->
    (Display.formatTime h1 m1 = Display.formatTime h2 m2 ->
     h1 = h2 /\ m1 = m2)
    /\ (exists shown,
           Display.formatTime h1 m1
           = (shown ++ (if (12 <=? h1)%Z then " PM" else " AM"))%string).
Proof.
  intros h1 m1 h2 m2 Hh1 Hm1 Hh2 Hm2. split.
  - intros E.
    assert (Hnd : NoDup (map (fun t => Display.formatTime (fst t) (snd t))
                             Display.timesOfDay))
      by (apply distinct_NoDup; vm_compute; reflexivity).
    pose proof (distinct_images _ _ (h1, m1) (h2, m2) Hnd
                  (timesOfDay_all _ _ Hh1 Hm1) (timesOfDay_all _ _ Hh2 Hm2) E)
      as Heq.
    injection Heq as -> ->. split; reflexivity.
  - unfold Display.formatTime. cbn zeta.
    exists (Display.numberToString
              (if (Z.rem h1 12 =? 0)%Z then 12%Z else Z.rem h1 12)
              ++ ":" ++ Display.padStart2 (Display.numberToString m1))%string.
    rewrite Z.geb_leb.
    destruct (12 <=? h1)%Z; rewrite !string_app_assoc; reflexivity.
Qed.

Lemma formatTime_tells_times_apart_witness :
  Display.formatTime 8 0 = "8:00 AM"
  /\ Display.formatTime 20 5 = "8:05 PM"
  /\ (Display.formatTime 8 0 = Display.formatTime 20 0 ->
      8%Z = 20%Z /\ 0%Z = 0%Z).
Proof.
  assert (Hh1 : (0 <= 8 < 24)%Z) by (split; [discriminate|reflexivity]).
  assert (Hh2 : (0 <= 20 < 24)%Z) by (split; [discriminate|reflexivity]).
  assert (Hm : (0 <= 0 < 60)%Z) by (split; [discriminate|reflexivity]).
  split; [reflexivity|]. split; [reflexivity|].
  exact (proj1 (formatTime_tells_times_apart 8 0 20 0 Hh1 Hm Hh2 Hm)).
Defined.

(** X30. The three stage tables agree: for a stage of the ordered list
    of the area screen, the emoji of the garden screen's [stageEmoji] is
    the emoji of that list and the journal text of [updatePlantStage] is
    that emoji, the words Marked as and the label of that list.  For a
    name every object inherits both expressions find the inherited member,
    which is no text.  For any other stage [stageEmoji] gives the seedling
    and the journal text is the stage itself. *)
Theorem stage_tables_agree :
  forall stage : string,
    match find (fun s => Ui.key s =? stage) Ui.STAGES with
    | Some s =>
        Display.stageEmoji (Some stage) = Some (Ui.emoji s)
        /\ Garden.stageText stage
           = Some (Ui.emoji s ++ " Marked as " ++ Ui.label s)%string
        /\ Js.inherits stage = false
    | None =>
        if Js.inherits stage
        then Display.stageEmoji (Some stage) = None
             /\ Garden.stageText stage = None
        else Display.stageEmoji (Some stage) = Some "🌱"
             /\ Garden.stageText stage = Some stage
    end.
Proof.
  intros stage.
  unfold Display.stageEmoji, Garden.stageText, Garden.member,
    Display.STAGE_EMOJI, Garden.STAGE_LABELS, Ui.STAGES.
  cbn [find Garden.lookup Ui.key].
  repeat match goal with
         | |- context [?k =? stage] =>
             let E := fresh "E" in
             destruct (k =? stage) eqn:E;
             [apply String.eqb_eq in E; subst stage; vm_compute;
              repeat split; reflexivity|]
         end.
  destruct (Js.inherits stage); split; reflexivity.
Qed.
